(** * jsontable-viewer: structure inference and adaptive table rendering

    A shallow embedding of [scripts/json-parser.js] (classes [JSONParser] and
    [TableRenderer]) together with the properties its specification states.

    - JavaScript strings are sequences of UTF-16 code units ([jsstring]).
    - JavaScript numbers are modelled as exact rationals extended with
      [Infinity], [-Infinity] and [NaN]; the rounding of binary64 is not
      modelled, and [-0] is identified with [0].
    - A parsed JSON object is an association list in property order.
    - Code that can raise an exception returns an [outcome].
    - Built-ins whose result depends on the engine, the locale or the time
      zone are the fields of the class [Engine]; so is the order in which
      [Array.prototype.sort] leaves rows that its comparator does not order
      consistently. *)

From Stdlib Require Import Ascii String.
From Stdlib Require Import List Bool Arith ZArith NArith QArith Qround Qabs Lia Lqa.
From Stdlib Require Import Permutation Sorted DecimalNat.
Import ListNotations.
Close Scope Q_scope.
Set Warnings "-register-all".

(* ===================================================================== *)
(** ** Strings *)
(* ===================================================================== *)

Module JSString.

(** A JavaScript string: its UTF-16 code units. *)
Definition jsstring := list N.

(** Decoding of the UTF-8 bytes of a source literal into code units. *)
Fixpoint utf16_of_utf8 (bytes : list N) : jsstring :=
  match bytes with
  | [] => []
  | b0 :: r0 =>
    if (b0 <? 128)%N then b0 :: utf16_of_utf8 r0
    else
      match r0 with
      | [] => [b0]
      | b1 :: r1 =>
        if (b0 <? 224)%N then ((b0 - 192) * 64 + (b1 - 128))%N :: utf16_of_utf8 r1
        else
          match r1 with
          | [] => [b0; b1]
          | b2 :: r2 =>
            if (b0 <? 240)%N
            then ((b0 - 224) * 4096 + (b1 - 128) * 64 + (b2 - 128))%N :: utf16_of_utf8 r2
            else
              match r2 with
              | [] => [b0; b1; b2]
              | b3 :: r3 =>
                let cp := ((b0 - 240) * 262144 + (b1 - 128) * 4096
                           + (b2 - 128) * 64 + (b3 - 128))%N in
                let c := (cp - 65536)%N in
                (55296 + c / 1024)%N :: (56320 + c mod 1024)%N :: utf16_of_utf8 r3
              end
          end
      end
  end.

(** [u "text"] is the JavaScript string literal ['text']. *)
Definition u (s : string) : jsstring :=
  utf16_of_utf8 (map N_of_ascii (list_ascii_of_string s)).
Arguments u : simpl never.

Fixpoint eqb (a b : jsstring) : bool :=
  match a, b with
  | [], [] => true
  | x :: a', y :: b' => (x =? y)%N && eqb a' b'
  | _, _ => false
  end.

(** Comparison by code units, the order of [<] on strings and of
    [Array.prototype.sort] without a comparator. *)
Fixpoint compare (a b : jsstring) : comparison :=
  match a, b with
  | [], [] => Eq
  | [], _ :: _ => Lt
  | _ :: _, [] => Gt
  | x :: a', y :: b' =>
    match (x ?= y)%N with
    | Eq => compare a' b'
    | c => c
    end
  end.

Definition lt (a b : jsstring) : Prop := compare a b = Lt.

Fixpoint startsWith (s prefix : jsstring) : bool :=
  match prefix, s with
  | [], _ => true
  | _ :: _, [] => false
  | p :: prefix', c :: s' => (c =? p)%N && startsWith s' prefix'
  end.

(** [String.prototype.includes]. *)
Fixpoint includes (s t : jsstring) : bool :=
  startsWith s t ||
  match s with
  | [] => false
  | _ :: s' => includes s' t
  end.

(** White space and line terminators, the code units [trim] strips. *)
Definition isWhiteSpace (c : N) : bool :=
  existsb (N.eqb c)
    [9; 10; 11; 12; 13; 32; 160; 5760; 8192; 8193; 8194; 8195; 8196; 8197;
     8198; 8199; 8200; 8201; 8202; 8232; 8233; 8239; 8287; 12288; 65279]%N.

Fixpoint trimStart (s : jsstring) : jsstring :=
  match s with
  | c :: s' => if isWhiteSpace c then trimStart s' else s
  | [] => []
  end.

(** [String.prototype.trim]. *)
Definition trim (s : jsstring) : jsstring :=
  rev (trimStart (rev (trimStart s))).

(** [s.padStart(2, '0')]. *)
Definition padStart2 (s : jsstring) : jsstring :=
  match s with
  | [] => [48; 48]%N
  | [c] => [48; c]%N
  | _ => s
  end.

(** [toUpperCase] on the ASCII range, enough for the digits of a number. *)
Definition asciiUpper (c : N) : N :=
  if ((97 <=? c) && (c <=? 122))%N then (c - 32)%N else c.

Definition asciiLower (c : N) : N :=
  if ((65 <=? c) && (c <=? 90))%N then (c + 32)%N else c.

(** Decimal digits of a natural number, most significant first. *)
Fixpoint codes_of_uint (d : Decimal.uint) : jsstring :=
  match d with
  | Decimal.Nil => []
  | Decimal.D0 d' => 48%N :: codes_of_uint d'
  | Decimal.D1 d' => 49%N :: codes_of_uint d'
  | Decimal.D2 d' => 50%N :: codes_of_uint d'
  | Decimal.D3 d' => 51%N :: codes_of_uint d'
  | Decimal.D4 d' => 52%N :: codes_of_uint d'
  | Decimal.D5 d' => 53%N :: codes_of_uint d'
  | Decimal.D6 d' => 54%N :: codes_of_uint d'
  | Decimal.D7 d' => 55%N :: codes_of_uint d'
  | Decimal.D8 d' => 56%N :: codes_of_uint d'
  | Decimal.D9 d' => 57%N :: codes_of_uint d'
  end.

Fixpoint uint_of_codes (s : jsstring) : option Decimal.uint :=
  match s with
  | [] => Some Decimal.Nil
  | c :: s' =>
    match uint_of_codes s' with
    | None => None
    | Some d =>
      match c with
      | 48%N => Some (Decimal.D0 d)
      | 49%N => Some (Decimal.D1 d)
      | 50%N => Some (Decimal.D2 d)
      | 51%N => Some (Decimal.D3 d)
      | 52%N => Some (Decimal.D4 d)
      | 53%N => Some (Decimal.D5 d)
      | 54%N => Some (Decimal.D6 d)
      | 55%N => Some (Decimal.D7 d)
      | 56%N => Some (Decimal.D8 d)
      | 57%N => Some (Decimal.D9 d)
      | _ => None
      end
    end
  end.

(** The string of a non-negative integer index, as in [`${i}`]. *)
Definition of_nat (n : nat) : jsstring := codes_of_uint (Nat.to_uint n).

(** A canonical array index: the string of some natural number. *)
Definition to_index (key : jsstring) : option nat :=
  match uint_of_codes key with
  | Some d =>
    let n := Nat.of_uint d in
    if eqb (of_nat n) key then Some n else None
  | None => None
  end.

(** Digits of a natural number in a radix up to 36, lower case. *)
Definition digit_code (d : N) : N :=
  if (d <? 10)%N then (48 + d)%N else (87 + d)%N.

Fixpoint digits_fuel (fuel : nat) (radix n : N) (acc : jsstring) : jsstring :=
  match fuel with
  | O => acc
  | S fuel' =>
    if (n <? radix)%N then digit_code n :: acc
    else digits_fuel fuel' radix (n / radix)%N (digit_code (n mod radix)%N :: acc)
  end.

Definition of_N_radix (radix n : N) : jsstring :=
  digits_fuel (S (N.to_nat (N.log2 n))) radix n [].

(** The digits of an integer in a radix, with a leading [-] when negative. *)
Definition of_Z_radix (radix : N) (z : Z) : jsstring :=
  match z with
  | Zneg p => 45%N :: of_N_radix radix (Npos p)
  | _ => of_N_radix radix (Z.to_N z)
  end.

End JSString.

Import JSString(jsstring, u).

(* ===================================================================== *)
(** ** Numbers *)
(* ===================================================================== *)

Module JSNumber.

(** A JavaScript number. *)
Inductive number :=
| Finite (q : Q)
| PosInf
| NegInf
| NaN.

Definition of_Z (z : Z) : number := Finite (inject_Z z).
Definition of_nat (n : nat) : number := of_Z (Z.of_nat n).

Definition Qltb (x y : Q) : bool := negb (Qle_bool y x).

(** [a < b]. *)
Definition ltb (a b : number) : bool :=
  match a, b with
  | NaN, _ | _, NaN => false
  | Finite x, Finite y => Qltb x y
  | NegInf, NegInf => false
  | NegInf, _ => true
  | _, NegInf => false
  | PosInf, _ => false
  | Finite _, PosInf => true
  end.

(** [a <= b]. *)
Definition leb (a b : number) : bool :=
  match a, b with
  | NaN, _ | _, NaN => false
  | Finite x, Finite y => Qle_bool x y
  | NegInf, _ => true
  | _, PosInf => true
  | _, NegInf => false
  | PosInf, Finite _ => false
  end.

Definition gtb (a b : number) : bool := ltb b a.
Definition geb (a b : number) : bool := leb b a.

(** The sign of a number as a comparator result: negative, zero or [NaN],
    positive. *)
Definition sign (a : number) : comparison :=
  match a with
  | Finite q => (q ?= 0)%Q
  | PosInf => Gt
  | NegInf => Lt
  | NaN => Eq
  end.

(** [a - b]. *)
Definition sub (a b : number) : number :=
  match a, b with
  | NaN, _ | _, NaN => NaN
  | Finite x, Finite y => Finite (Qred (x - y))
  | PosInf, PosInf => NaN
  | NegInf, NegInf => NaN
  | PosInf, _ => PosInf
  | NegInf, _ => NegInf
  | Finite _, PosInf => NegInf
  | Finite _, NegInf => PosInf
  end.

(** [a + b]. *)
Definition add (a b : number) : number :=
  match a, b with
  | NaN, _ | _, NaN => NaN
  | Finite x, Finite y => Finite (Qred (x + y))
  | PosInf, NegInf => NaN
  | NegInf, PosInf => NaN
  | PosInf, _ => PosInf
  | NegInf, _ => NegInf
  | Finite _, PosInf => PosInf
  | Finite _, NegInf => NegInf
  end.

Definition negate (a : number) : number :=
  match a with
  | Finite q => Finite (Qred (- q))
  | PosInf => NegInf
  | NegInf => PosInf
  | NaN => NaN
  end.

Definition infinity_of_sign (c : comparison) : number :=
  match c with
  | Gt => PosInf
  | Lt => NegInf
  | Eq => NaN
  end.

(** [a * b]. *)
Definition mul (a b : number) : number :=
  match a, b with
  | NaN, _ | _, NaN => NaN
  | Finite x, Finite y => Finite (Qred (x * y))
  | PosInf, _ => infinity_of_sign (sign b)
  | NegInf, _ => infinity_of_sign (CompOpp (sign b))
  | _, PosInf => infinity_of_sign (sign a)
  | _, NegInf => infinity_of_sign (CompOpp (sign a))
  end.

(** [a / b]. *)
Definition div (a b : number) : number :=
  match a, b with
  | NaN, _ | _, NaN => NaN
  | Finite x, Finite y =>
    if Qeq_bool y 0 then infinity_of_sign (x ?= 0)%Q
    else Finite (Qred (x / y))
  | Finite _, _ => Finite 0
  | PosInf, Finite y => if Qltb y 0 then NegInf else PosInf
  | NegInf, Finite y => if Qltb y 0 then PosInf else NegInf
  | _, _ => NaN
  end.

(** Rounding toward zero. *)
Definition Qtruncate (q : Q) : Z :=
  if Qltb q 0 then Qceiling q else Qfloor q.

(** [a % b], with the sign of the dividend. *)
Definition rem (a b : number) : number :=
  match a, b with
  | Finite x, Finite y =>
    if Qeq_bool y 0 then NaN
    else Finite (Qred (x - y * inject_Z (Qtruncate (x / y))))
  | Finite x, (PosInf | NegInf) => a
  | _, _ => NaN
  end.

(** [Math.floor]. *)
Definition floor (a : number) : number :=
  match a with
  | Finite q => of_Z (Qfloor q)
  | _ => a
  end.

(** [Math.max] of two numbers and of an argument list. *)
Definition max2 (a b : number) : number :=
  match a, b with
  | NaN, _ | _, NaN => NaN
  | _, _ => if ltb a b then b else a
  end.

Definition max (args : list number) : number := fold_left max2 args NegInf.

(** [Number.isInteger]. *)
Definition isInteger (a : number) : bool :=
  match a with
  | Finite q => Qeq_bool q (inject_Z (Qfloor q))
  | _ => false
  end.

(** How often the body of [for (let i = 0; i < bound; i++)] runs; [None]
    when the loop never ends. *)
Definition iterations (bound : number) : option nat :=
  match bound with
  | Finite q => Some (Z.to_nat (Qceiling q))
  | PosInf => None
  | NegInf | NaN => Some 0
  end.

End JSNumber.

Import JSNumber(number(..)).

(* ===================================================================== *)
(** ** Values, property access and conversions *)
(* ===================================================================== *)

(** A parsed JSON value.  The properties of an object are listed in
    property order; keys are pairwise distinct. *)
Inductive value :=
| VNull
| VBool (b : bool)
| VNum (x : number)
| VStr (s : jsstring)
| VArr (items : list value)
| VObj (props : list (jsstring * value)).

(** A value or [undefined] ([None]). *)
Definition jsval := option value.
Definition undefined : jsval := None.

(** The result of running code that may raise an exception or never end. *)
Inductive outcome (A : Type) :=
| Returns (a : A)
| Throws (message : jsstring)
| Diverges.
Arguments Returns {A} a.
Arguments Throws {A} message.
Arguments Diverges {A}.

Definition bind {A B : Type} (m : outcome A) (k : A -> outcome B) : outcome B :=
  match m with
  | Returns a => k a
  | Throws message => Throws message
  | Diverges => Diverges
  end.

Notation "x <- m ;; k" := (bind m (fun x => k))
  (at level 61, m at next level, right associativity).

Fixpoint mapM {A B : Type} (f : A -> outcome B) (l : list A) : outcome (list B) :=
  match l with
  | [] => Returns []
  | a :: l' =>
    b <- f a ;;
    bs <- mapM f l' ;;
    Returns (b :: bs)
  end.

Fixpoint filterM {A : Type} (f : A -> outcome bool) (l : list A) : outcome (list A) :=
  match l with
  | [] => Returns []
  | a :: l' =>
    keep <- f a ;;
    rest <- filterM f l' ;;
    Returns (if keep then a :: rest else rest)
  end.

(** [l.some(f)]: the elements after the first one that [f] accepts are not
    looked at. *)
Fixpoint someM {A : Type} (f : A -> outcome bool) (l : list A) : outcome bool :=
  match l with
  | [] => Returns false
  | a :: l' =>
    found <- f a ;;
    if found then Returns true else someM f l'
  end.

(** The result of [JSON.parse]: a value, or the message of the
    [SyntaxError] it throws. *)
Inductive parsed :=
| ParseOk (v : value)
| SyntaxError (message : jsstring).

(* ===================================================================== *)
(** ** Array.prototype.sort *)
(* ===================================================================== *)

(** The stable sort by insertion: [comparefn(later, earlier)] is asked, and
    [later] is moved in front of [earlier] only when the answer is negative.
    Sorting without a comparator orders strings by their code units, a total
    order, and every engine returns this list. *)
Fixpoint insert {A : Type} (comparefn : A -> A -> comparison) (x : A)
  (sorted : list A) : list A :=
  match sorted with
  | [] => [x]
  | y :: rest =>
    match comparefn y x with
    | Lt => y :: insert comparefn x rest
    | _ => x :: sorted
    end
  end.

Fixpoint Array_sort {A : Type} (comparefn : A -> A -> comparison) (l : list A)
  : list A :=
  match l with
  | [] => []
  | x :: rest => insert comparefn x (Array_sort comparefn rest)
  end.

(** [x] stands before [y] in [l]. *)
Definition before {A : Type} (l : list A) (x y : A) : Prop :=
  exists l1 l2 l3, l = l1 ++ x :: l2 ++ y :: l3.

(** The elements paired with their positions. *)
Definition tagged {A : Type} (l : list A) : list (nat * A) :=
  combine (seq 0 (List.length l)) l.

(** [first a b], "[a] sorts strictly before [b]", orders the elements of
    [l] consistently: it is irreflexive and transitive, and an element
    unrelated to two others leaves these unrelated. *)
Definition strictWeakOrderOn {A : Type} (first : A -> A -> Prop) (l : list A)
  : Prop :=
  (forall a, In a l -> ~ first a a)
  /\ (forall a b c, In a l -> In b l -> In c l ->
        first a b -> first b c -> first a c)
  /\ (forall a b c, In a l -> In b l -> In c l ->
        first a b -> first a c \/ first c b).

(** [sorted] is [l] sorted stably by [comparefn]: a rearrangement of the
    elements in which no element stands behind one it sorts strictly
    before, and in which an element has overtaken another only when it sorts
    strictly before it. *)
Definition stableSort {A : Type} (comparefn : A -> A -> comparison)
  (l sorted : list A) : Prop :=
  exists arranged : list (nat * A),
    Permutation arranged (tagged l)
    /\ map snd arranged = sorted
    /\ forall i j a b, before arranged (i, a) (j, b) ->
         comparefn b a <> Lt /\ (j < i -> comparefn a b = Lt).

(* ===================================================================== *)
(** ** The engine *)
(* ===================================================================== *)

(** The built-ins of the host whose results the program does not fix. *)
Class Engine := {
  (** [JSON.parse(text)] *)
  JSON_parse : jsstring -> parsed;
  (** [s.toLowerCase()] *)
  toLowerCase : jsstring -> jsstring;
  (** the sign of [a.localeCompare(b)] *)
  localeCompare : jsstring -> jsstring -> comparison;
  (** [x.toString(radix)] *)
  Number_toString : N -> number -> jsstring;
  (** the number a string converts to *)
  StringToNumber : jsstring -> number;
  (** [new Date(t).toLocaleString('ko-KR', options)] for a valid time value *)
  Date_toLocaleString : Z -> jsstring;
  (** the message of the [TypeError] for reading property [p] of [null] *)
  TypeError_message : jsstring -> jsstring;
  (** the message of the [TypeError] for an object that cannot be converted
      to a primitive value *)
  TypeError_primitive : jsstring;
  (** [String(v[key])] for a [key] that [v] has no own property for but
      inherits through its prototype: a built-in method, or the prototype
      itself for [__proto__]; [None] when [v] inherits no such member *)
  inheritedText : value -> jsstring -> option jsstring;
  (** [rows.sort(comparefn)]: the sign of the number [comparefn] returns
      is what the sort looks at *)
  Array_sort_comparefn :
    (value -> value -> outcome comparison) -> list value -> outcome (list value);
  (** whatever the comparator, the sort only rearranges the rows *)
  Array_sort_rearranges :
    forall comparefn l sorted,
      Array_sort_comparefn comparefn l = Returns sorted -> Permutation sorted l
}.

(** What the program relies on from these built-ins.  Collation is a total
    preorder.  Sorting is stable: ECMAScript requires it for a comparator
    that is consistent, and leaves the order to the engine for one that is
    not.  The comparator of [sortTable] answers "behind" for two rows
    without a value whichever comes first, so it is consistent only in what
    it sorts strictly first; [Array_sort_comparefn_stable] asks the engine to sort
    stably by that relation, as a sort does that moves a row only on the
    answer "strictly first" of the comparator for a later and an earlier
    row, the merge sort of V8 for one. *)
Class EngineLaws (E : Engine) : Prop := {
  localeCompare_antisym :
    forall a b, localeCompare b a = CompOpp (localeCompare a b);
  localeCompare_trans :
    forall a b c,
      localeCompare a b <> Gt -> localeCompare b c <> Gt ->
      localeCompare a c <> Gt;
  Number_toString_integer :
    forall radix z, (Z.abs z < 10 ^ 21)%Z ->
      Number_toString radix (JSNumber.of_Z z) = JSString.of_Z_radix radix z;
  Array_sort_comparefn_stable :
    forall (comparefnM : value -> value -> outcome comparison)
      (comparefn : value -> value -> comparison) (l : list value),
      (forall a b, In a l -> In b l -> comparefnM a b = Returns (comparefn a b)) ->
      strictWeakOrderOn (fun a b => comparefn a b = Lt) l ->
      exists sorted,
        Array_sort_comparefn comparefnM l = Returns sorted
        /\ stableSort comparefn l sorted
}.

Definition isArray (v : value) : bool :=
  match v with VArr _ => true | _ => false end.

(** [typeof v === 'object' && v !== null && !Array.isArray(v)] *)
Definition isPlainObject (v : value) : bool :=
  match v with VObj _ => true | _ => false end.

(** [typeof v === 'object'] *)
Definition typeofObject (v : value) : bool :=
  match v with VNull | VArr _ | VObj _ => true | _ => false end.

Definition isNumber (v : value) : bool :=
  match v with VNum _ => true | _ => false end.

Definition isString (v : value) : bool :=
  match v with VStr _ => true | _ => false end.

(** [v === null || v === undefined] *)
Definition isNullish (v : jsval) : bool :=
  match v with None | Some VNull => true | _ => false end.

(** First binding of a key. *)
Fixpoint lookup (key : jsstring) (props : list (jsstring * value)) : jsval :=
  match props with
  | [] => None
  | (k, v) :: rest => if JSString.eqb k key then Some v else lookup key rest
  end.

(** [obj[key] = v]: an existing property keeps its place, a new one is
    appended. *)
Fixpoint assign (props : list (jsstring * value)) (key : jsstring) (v : value)
  : list (jsstring * value) :=
  match props with
  | [] => [(key, v)]
  | (k, w) :: rest =>
    if JSString.eqb k key then (k, v) :: rest else (k, w) :: assign rest key v
  end.

Definition indices (n : nat) : list jsstring := map JSString.of_nat (seq 0 n).

(** Own enumerable keys, values and entries, for a non-null value. *)
Definition own_keys (v : value) : list jsstring :=
  match v with
  | VObj props => map fst props
  | VArr items => indices (List.length items)
  | VStr s => indices (List.length s)
  | _ => []
  end.

Definition own_values (v : value) : list value :=
  match v with
  | VObj props => map snd props
  | VArr items => items
  | VStr s => map (fun c => VStr [c]) s
  | _ => []
  end.

Definition own_entries (v : value) : list (jsstring * value) :=
  combine (own_keys v) (own_values v).

(** The own property [key] of a non-null value ([length] and the indices
    of arrays and strings included). *)
Definition get_own (v : value) (key : jsstring) : jsval :=
  match v with
  | VObj props => lookup key props
  | VArr items =>
    if JSString.eqb key (u "length") then Some (VNum (JSNumber.of_nat (List.length items)))
    else match JSString.to_index key with
         | Some i => nth_error items i
         | None => None
         end
  | VStr s =>
    if JSString.eqb key (u "length") then Some (VNum (JSNumber.of_nat (List.length s)))
    else match JSString.to_index key with
         | Some i => option_map (fun c => VStr [c]) (nth_error s i)
         | None => None
         end
  | _ => None
  end.

Fixpoint join (sep : jsstring) (parts : list jsstring) : jsstring :=
  match parts with
  | [] => []
  | [p] => p
  | p :: rest => p ++ sep ++ join sep rest
  end.

Section Conversions.
Context {E : Engine}.

(** [v[key]] for a key that no prototype defines ([length], an index);
    reading a property of [null] throws. *)
Definition Get (v : value) (key : jsstring) : outcome jsval :=
  match v with
  | VNull => Throws (TypeError_message key)
  | _ => Returns (get_own v key)
  end.

(** [Object.keys(v)] and [Object.values(v)]; both throw on [null]. *)
Definition Object_keys (v : value) : outcome (list jsstring) :=
  match v with
  | VNull => Throws (u "Cannot convert undefined or null to object")
  | _ => Returns (own_keys v)
  end.

Definition Object_values (v : value) : outcome (list value) :=
  match v with
  | VNull => Throws (u "Cannot convert undefined or null to object")
  | _ => Returns (own_values v)
  end.

(** What a property read [v[key]] finds: an own property, a member
    inherited through the prototype, of which the program can only look at
    its string form, or nothing. *)
Inductive property :=
| Own (w : value)
| Inherited (text : jsstring)
| Absent.

(** [v[key]] for any key; reading a property of [null] throws. *)
Definition Read (v : value) (key : jsstring) : outcome property :=
  match v with
  | VNull => Throws (TypeError_message key)
  | _ =>
    Returns match get_own v key with
            | Some w => Own w
            | None =>
              match inheritedText v key with
              | Some text => Inherited text
              | None => Absent
              end
            end
  end.

(** [String(v)].  An array is joined with commas, [null] elements giving
    the empty string.  A parsed object inherits [toString] from
    [Object.prototype] unless it has an own property of that name: the
    value of such a property is no function, and neither it nor the
    inherited [valueOf] yields a primitive value, so the conversion throws
    a [TypeError]. *)
Fixpoint ToString_value (v : value) : outcome jsstring :=
  match v with
  | VNull => Returns (u "null")
  | VBool true => Returns (u "true")
  | VBool false => Returns (u "false")
  | VNum x => Returns (Number_toString 10 x)
  | VStr s => Returns s
  | VArr items =>
    parts <-
      (fix each (l : list value) : outcome (list jsstring) :=
         match l with
         | [] => Returns []
         | e :: l' =>
           part <- match e with
                   | VNull => Returns []
                   | _ => ToString_value e
                   end ;;
           parts <- each l' ;;
           Returns (part :: parts)
         end) items ;;
    Returns (join (u ",") parts)
  | VObj props =>
    match lookup (u "toString") props with
    | Some _ => Throws TypeError_primitive
    | None => Returns (u "[object Object]")
    end
  end.

Definition ToString (v : jsval) : outcome jsstring :=
  match v with
  | None => Returns (u "undefined")
  | Some w => ToString_value w
  end.

(** [String(p)] for what a property read has found. *)
Definition ToString_property (p : property) : outcome jsstring :=
  match p with
  | Own w => ToString_value w
  | Inherited text => Returns text
  | Absent => Returns (u "undefined")
  end.

(** The number a value converts to, as [Math.max] converts its arguments.
    An array converts through its string form; an object without a
    primitive value throws as for [String]. *)
Definition ToNumber (v : jsval) : outcome number :=
  match v with
  | None => Returns NaN
  | Some VNull => Returns (JSNumber.of_Z 0)
  | Some (VBool b) => Returns (JSNumber.of_Z (if b then 1 else 0))
  | Some (VNum x) => Returns x
  | Some (VStr s) => Returns (StringToNumber s)
  | Some (VArr items) =>
    text <- ToString_value (VArr items) ;;
    Returns (StringToNumber text)
  | Some (VObj props) =>
    match lookup (u "toString") props with
    | Some _ => Throws TypeError_primitive
    | None => Returns NaN
    end
  end.

End Conversions.

(** [!s || s.trim() === ''] *)
Definition isBlank (s : jsstring) : bool :=
  match s with
  | [] => true
  | _ => match JSString.trim s with [] => true | _ => false end
  end.

Fixpoint mapi_from {A B : Type} (f : nat -> A -> B) (start : nat) (l : list A)
  : list B :=
  match l with
  | [] => []
  | a :: l' => f start a :: mapi_from f (S start) l'
  end.

(** [l.map((item, index) => f(index, item))] *)
Definition mapi {A B : Type} (f : nat -> A -> B) (l : list A) : list B :=
  mapi_from f 0 l.

(* ===================================================================== *)
(** ** class JSONParser *)
(* ===================================================================== *)

Module JSONParser.

(** The object [parseJSON] returns. *)
Record ParseResult := {
  success : bool;
  data : value;
  error : option jsstring;
  type : option jsstring;
  rowCount : nat;
  columnCount : nat
}.

Section WithEngine.
Context {E : Engine}.

Definition getDataType (data : value) : jsstring :=
  match data with
  | VArr _ => u "array"
  | VNull => u "null"
  | VObj _ => u "object"
  | VBool _ => u "boolean"
  | VNum _ => u "number"
  | VStr _ => u "string"
  end.

(** [items.map((item, index) => ({ index: index, value: item }))] *)
Definition indexValueRows (items : list value) : list value :=
  mapi (fun index item =>
          VObj [(u "index", VNum (JSNumber.of_nat index)); (u "value", item)])
       items.

(** The key [`column_${i}`]. *)
Definition columnKey (i : nat) : jsstring := u "column_" ++ JSString.of_nat i.

(** One row of an array of arrays: [{ _rowIndex: rowIndex }] followed by
    the assignments of the loop over [i < maxLength].  [arr] is not [null]
    here: reading [arr.length] has thrown before otherwise. *)
Definition arrayRow (maxLength : nat) (rowIndex : nat) (arr : value) : value :=
  VObj (fold_left
          (fun row i =>
             assign row (columnKey i)
               match get_own arr (JSString.of_nat i) with
               | Some v => v
               | None => VNull
               end)
          (seq 0 maxLength)
          [(u "_rowIndex", VNum (JSNumber.of_nat rowIndex))]).

(** The object [flattened] while [flatten] fills it: its own properties,
    and whether it still inherits the accessor [__proto__] of
    [Object.prototype]. *)
Record Flattened := {
  cells : list (jsstring * value);
  inheritsProto : bool
}.

(** [const flattened = {}] *)
Definition emptyObject : Flattened := {| cells := []; inheritsProto := true |}.

(** [flattened[newKey] = value], for a value that is no plain object.
    While [flattened] inherits the accessor [__proto__], an assignment to
    that key calls its setter and creates no property: the setter replaces
    the prototype when the value is [null] or an array and ignores any other
    value, and after [null] nothing is inherited any more.  Every other
    assignment sets an own property. *)
Definition setProperty (flattened : Flattened) (newKey : jsstring) (v : value)
  : Flattened :=
  if JSString.eqb newKey (u "__proto__") && inheritsProto flattened
  then {| cells := cells flattened;
          inheritsProto := match v with VNull => false | _ => true end |}
  else {| cells := assign (cells flattened) newKey v;
          inheritsProto := inheritsProto flattened |}.

(** The recursive helper [flatten] of [flattenObjectToTable], threading the
    object [flattened] it fills.  It is only entered with plain objects. *)
Fixpoint flatten (current : value) (prefix : jsstring) (flattened : Flattened)
  {struct current} : Flattened :=
  match current with
  | VObj props =>
    (fix each (ps : list (jsstring * value)) (acc : Flattened) :=
       match ps with
       | [] => acc
       | (key, v) :: ps' =>
         let newKey :=
           match prefix with
           | [] => key
           | _ => prefix ++ u "." ++ key
           end in
         each ps' (if isPlainObject v then flatten v newKey acc
                   else setProperty acc newKey v)
       end) props flattened
  | _ => flattened
  end.

(** The row is returned with its own properties; the prototype an
    assignment to [__proto__] may have given it is not part of a
    [value]. *)
Definition flattenObjectToTable (obj : value) : list value :=
  [VObj (cells (flatten obj [] emptyObject))].

(** The arrays among the property values of an object. *)
Definition arrayValues (data : value) : list (list value) :=
  flat_map (fun v => match v with VArr items => [items] | _ => [] end)
           (own_values data).

(** [arrayValues.reduce((longest, current) =>
       current.length > longest.length ? current : longest)] *)
Definition longestOf (first : list value) (rest : list (list value)) : list value :=
  fold_left
    (fun longest current =>
       if List.length longest <? List.length current then current else longest)
    rest first.

(** The rows of an object that holds no usable array: the flattened single
    row of a nested object, or one [{key, value}] row per property. *)
Definition objectRows (data : value) : list value :=
  if existsb isPlainObject (own_values data)
  then flattenObjectToTable data
  else map (fun entry => VObj [(u "key", VStr (fst entry)); (u "value", snd entry)])
           (own_entries data).

Definition extractTableData (data : value) : outcome (list value) :=
  match data with
  | VArr items =>
    match items with
    | [] => Returns []
    | first :: _ =>
      if isPlainObject first then Returns items
      else if isArray first then
        lengths <- mapM (fun arr => Get arr (u "length")) items ;;
        numbers <- mapM ToNumber lengths ;;
        let maxLength := JSNumber.max numbers in
        match JSNumber.iterations maxLength with
        | None => Diverges
        | Some n => Returns (mapi (arrayRow n) items)
        end
      else Returns (indexValueRows items)
    end
  | VObj _ =>
    match arrayValues data with
    | [] => Returns (objectRows data)
    | a0 :: rest =>
      match longestOf a0 rest with
      | [] => Returns (objectRows data)
      | (first :: _) as longestArray =>
        if isPlainObject first then Returns longestArray
        else if negb (typeofObject first) then Returns (indexValueRows longestArray)
        else Returns (objectRows data)
      end
    end
  | _ => Returns [VObj [(u "value", data)]]
  end.

Definition formatErrorMessage (message : jsstring) : jsstring :=
  if JSString.includes message (u "Unexpected token") then
    u "JSON 형식이 올바르지 않습니다. 문법 오류를 확인해주세요."
  else if JSString.includes message (u "Unexpected end of JSON input") then
    u "JSON 데이터가 완전하지 않습니다. 닫는 괄호나 따옴표를 확인해주세요."
  else if JSString.includes message (u "Unexpected string") then
    u "문자열 형식이 올바르지 않습니다. 따옴표를 확인해주세요."
  else if JSString.includes message (u "Unexpected number") then
    u "숫자 형식이 올바르지 않습니다."
  else if JSString.includes message (u "Unexpected identifier") then
    u "예약어나 잘못된 식별자가 사용되었습니다."
  else u "JSON 파싱 오류: " ++ message.

(** The message for an empty or blank input. *)
Definition noInputMessage : jsstring := u "JSON 데이터가 입력되지 않았습니다.".

Definition initialResult : ParseResult :=
  {| success := false; data := VNull; error := None; type := None;
     rowCount := 0; columnCount := 0 |}.

(** [parseJSON]: every exception raised inside the [try] block is caught,
    and the fields assigned before it was raised keep their values. *)
Definition parseJSON (jsonString : jsstring) : outcome ParseResult :=
  if isBlank jsonString then
    Returns {| success := false; data := VNull; error := Some noInputMessage;
               type := None; rowCount := 0; columnCount := 0 |}
  else
    match JSON_parse jsonString with
    | SyntaxError message =>
      Returns {| success := false; data := VNull;
                 error := Some (formatErrorMessage message);
                 type := None; rowCount := 0; columnCount := 0 |}
    | ParseOk parsedData =>
      let dataType := Some (getDataType parsedData) in
      match extractTableData parsedData with
      | Diverges => Diverges
      | Throws message =>
        Returns {| success := true; data := parsedData;
                   error := Some (formatErrorMessage message);
                   type := dataType; rowCount := 0; columnCount := 0 |}
      | Returns tableData =>
        match tableData with
        | [] =>
          Returns {| success := true; data := VArr tableData; error := None;
                     type := dataType; rowCount := 0; columnCount := 0 |}
        | firstRow :: _ =>
          match Object_keys firstRow with
          | Returns keys =>
            Returns {| success := true; data := VArr tableData; error := None;
                       type := dataType; rowCount := List.length tableData;
                       columnCount := List.length keys |}
          | Throws message =>
            Returns {| success := true; data := VArr tableData;
                       error := Some (formatErrorMessage message);
                       type := dataType; rowCount := List.length tableData;
                       columnCount := 0 |}
          | Diverges => Diverges
          end
        end
      end
    end.

End WithEngine.
End JSONParser.

(* ===================================================================== *)
(** ** A sort for the reference engine *)
(* ===================================================================== *)

(** The stable sort by insertion for a comparator that may throw: the
    exception of the first call that throws ends the sort. *)
Fixpoint insertM {A : Type} (comparefn : A -> A -> outcome comparison) (x : A)
  (sorted : list A) : outcome (list A) :=
  match sorted with
  | [] => Returns [x]
  | y :: rest =>
    c <- comparefn y x ;;
    match c with
    | Lt => rest' <- insertM comparefn x rest ;; Returns (y :: rest')
    | _ => Returns (x :: sorted)
    end
  end.

Fixpoint Array_sortM {A : Type} (comparefn : A -> A -> outcome comparison)
  (l : list A) : outcome (list A) :=
  match l with
  | [] => Returns []
  | x :: rest =>
    sorted <- Array_sortM comparefn rest ;;
    insertM comparefn x sorted
  end.

(* ===================================================================== *)
(** ** class TableRenderer *)
(* ===================================================================== *)

Module TableRenderer.

Record TableSettings := {
  minColumnWidth : number;
  maxColumnWidth : number;
  defaultColumnWidth : number;
  autoResize : bool
}.

(** The settings the constructor installs. *)
Definition tableSettings : TableSettings :=
  {| minColumnWidth := JSNumber.of_Z 100;
     maxColumnWidth := JSNumber.of_Z 300;
     defaultColumnWidth := JSNumber.of_Z 150;
     autoResize := true |}.

(** The [type] tags of [analyzeJSONStructure] and those [extractHeaders]
    tests for. *)
Inductive StructureType :=
| unknown
| empty
| array_of_objects
| array_of_arrays
| array_of_primitives
| object_with_arrays
| nested_object.

Record Structure := { type : StructureType; keys : list jsstring }.

Definition analyzeJSONStructure (data : list value) : Structure :=
  match data with
  | [] => {| type := empty; keys := [] |}
  | firstItem :: _ =>
    if isPlainObject firstItem then {| type := array_of_objects; keys := [] |}
    else if isArray firstItem then {| type := array_of_arrays; keys := [] |}
    else if negb (typeofObject firstItem)
    then {| type := array_of_primitives; keys := [] |}
    else {| type := unknown; keys := [] |}
  end.

(** [set.add(key)] on a [Set] kept in insertion order. *)
Definition Set_add (set : list jsstring) (key : jsstring) : list jsstring :=
  if existsb (JSString.eqb key) set then set else set ++ [key].

(** [typeof row === 'object' && row !== null] *)
Definition isObjectRow (row : value) : bool :=
  match row with VArr _ | VObj _ => true | _ => false end.

Definition extractHeadersFromObjects (data : list value) : list jsstring :=
  let headerSet :=
    fold_left
      (fun set row => if isObjectRow row then fold_left Set_add (own_keys row) set
                      else set)
      data [] in
  Array_sort JSString.compare headerSet.

Definition fullKey (prefix key : jsstring) : jsstring :=
  match prefix with
  | [] => key
  | _ => prefix ++ u "." ++ key
  end.

Fixpoint flattenObjectKeys (obj : value) (keySet : list jsstring)
  (prefix : jsstring) {struct obj} : list jsstring :=
  match obj with
  | VObj props =>
    (fix each (ps : list (jsstring * value)) (acc : list jsstring) :=
       match ps with
       | [] => acc
       | (key, v) :: ps' =>
         each ps' (if isPlainObject v
                   then flattenObjectKeys v acc (fullKey prefix key)
                   else Set_add acc (fullKey prefix key))
       end) props keySet
  | VArr items =>
    (fix each (vs : list value) (i : nat) (acc : list jsstring) :=
       match vs with
       | [] => acc
       | v :: vs' =>
         each vs' (S i)
              (if isPlainObject v
               then flattenObjectKeys v acc (fullKey prefix (JSString.of_nat i))
               else Set_add acc (fullKey prefix (JSString.of_nat i)))
       end) items 0 keySet
  | _ => keySet
  end.

Definition extractHeadersFromNestedStructure (data : list value) : list jsstring :=
  let headerSet :=
    fold_left
      (fun set row => if isObjectRow row then flattenObjectKeys row set [] else set)
      data [] in
  Array_sort JSString.compare headerSet.

Definition extractHeaders (data : list value) : list jsstring :=
  match data with
  | [] => []
  | _ =>
    let structure := analyzeJSONStructure data in
    match type structure with
    | array_of_objects => extractHeadersFromObjects data
    | object_with_arrays => keys structure
    | nested_object => extractHeadersFromNestedStructure data
    | _ => extractHeadersFromObjects data
    end
  end.

Section WithEngine.
Context {E : Engine}.

(** [v === null || v === undefined] for what a property read has found. *)
Definition isNullishProperty (p : property) : bool :=
  match p with Absent | Own VNull => true | _ => false end.

(** The comparator of [sortTable] on the two column values. *)
Definition compareValues (direction : jsstring) (aVal bVal : property)
  : outcome comparison :=
  if isNullishProperty aVal then Returns Gt
  else if isNullishProperty bVal then Returns Lt
  else
    match aVal, bVal with
    | Own (VNum x), Own (VNum y) =>
      Returns (if JSString.eqb direction (u "asc")
               then JSNumber.sign (JSNumber.sub x y)
               else JSNumber.sign (JSNumber.sub y x))
    | _, _ =>
      aText <- ToString_property aVal ;;
      bText <- ToString_property bVal ;;
      let aStr := toLowerCase aText in
      let bStr := toLowerCase bText in
      Returns (if JSString.eqb direction (u "asc")
               then localeCompare aStr bStr
               else localeCompare bStr aStr)
    end.

Definition compareRows (column direction : jsstring) (a b : value)
  : outcome comparison :=
  aVal <- Read a column ;;
  bVal <- Read b column ;;
  compareValues direction aVal bVal.

(** [sortTable]: the rows handed to [renderTableBody], or [None] when the
    function returns early on empty data. *)
Definition sortTable (column direction : jsstring) (data : list value)
  : outcome (option (list value)) :=
  match data with
  | [] => Returns None
  | _ =>
    sortedData <- Array_sort_comparefn (compareRows column direction) data ;;
    Returns (Some sortedData)
  end.

(** The widths [adjustColumnWidths] applies, from the optimal width of each
    column and the width of the container. *)
Definition adjustColumnWidths (settings : TableSettings)
  (columnWidths : list number) (containerWidth : number) : list number :=
  let totalWidth := fold_left JSNumber.add columnWidths (JSNumber.of_Z 0) in
  let availableWidth := JSNumber.sub containerWidth (JSNumber.of_Z 60) in
  if JSNumber.leb totalWidth availableWidth then columnWidths
  else
    let ratio := JSNumber.div availableWidth totalWidth in
    map (fun width =>
           JSNumber.max2 (minColumnWidth settings)
                         (JSNumber.floor (JSNumber.mul width ratio)))
        columnWidths.

(** Whether [searchTable] keeps a row. *)
Definition rowMatches (searchTerm : jsstring) (row : value) : outcome bool :=
  values <- Object_values row ;;
  someM (fun v =>
           text <- ToString_value v ;;
           let stringValue := toLowerCase text in
           Returns (JSString.includes stringValue (toLowerCase searchTerm)))
        values.

(** [searchTable]: the rows it displays. *)
Definition searchTable (searchTerm : jsstring) (originalData : list value)
  : outcome (list value) :=
  if isBlank searchTerm then Returns originalData
  else filterM (rowMatches searchTerm) originalData.

(** The time value of [new Date(x)], [None] for an invalid date. *)
Definition newDate (x : number) : option Z :=
  match x with
  | Finite q =>
    if Qle_bool (Qabs q) (inject_Z 8640000000000000)
    then Some (JSNumber.Qtruncate q)
    else None
  | _ => None
  end.

Definition formatAsTime (value : jsval) : outcome jsstring :=
  match value with
  | Some (VNum v) =>
    let viaDate (date : option Z) :=
      match date with
      | Some t => Returns (Date_toLocaleString t)
      | None => ToString value
      end in
    if JSNumber.geb v (JSNumber.of_Z 0) then
      if JSNumber.gtb v (JSNumber.of_Z 1000000000)
         && JSNumber.ltb v (JSNumber.of_Z 10000000000)
      then viaDate (newDate (JSNumber.mul v (JSNumber.of_Z 1000)))
      else if JSNumber.gtb v (JSNumber.of_Z 1000000000000)
              && JSNumber.ltb v (JSNumber.of_Z 10000000000000)
      then viaDate (newDate v)
      else if JSNumber.gtb v (JSNumber.of_Z 0)
              && JSNumber.ltb v (JSNumber.of_Z 86400)
      then
        let hours := JSNumber.floor (JSNumber.div v (JSNumber.of_Z 3600)) in
        let minutes :=
          JSNumber.floor
            (JSNumber.div (JSNumber.rem v (JSNumber.of_Z 3600)) (JSNumber.of_Z 60)) in
        let seconds := JSNumber.floor (JSNumber.rem v (JSNumber.of_Z 60)) in
        Returns (JSString.padStart2 (Number_toString 10 hours) ++ u ":"
                 ++ JSString.padStart2 (Number_toString 10 minutes) ++ u ":"
                 ++ JSString.padStart2 (Number_toString 10 seconds))
      else viaDate (newDate v)
    else ToString value
  | _ => ToString value
  end.

Definition formatAsHex (value : jsval) : outcome jsstring :=
  match value with
  | Some (VNum v) =>
    Returns (u "0x" ++ map JSString.asciiUpper (Number_toString 16 v))
  | _ => ToString value
  end.

Definition formatAsBinary (value : jsval) : outcome jsstring :=
  match value with
  | Some (VNum v) =>
    if JSNumber.isInteger v then Returns (u "0b" ++ Number_toString 2 v)
    else ToString value
  | _ => ToString value
  end.

End WithEngine.
End TableRenderer.

(* ===================================================================== *)
(** ** A reference engine *)
(* ===================================================================== *)

(** One instance of [Engine], used to run the program on concrete inputs:
    a JSON parser with the messages of V8, lower-casing and collation on the
    ASCII range, exact digits for numbers, dates printed in UTC, the members
    of the standard prototypes, and a stable insertion sort. *)
Module Reference.

Definition isDigit (c : N) : bool := ((48 <=? c) && (c <=? 57))%N.

Definition isJSONSpace (c : N) : bool :=
  ((c =? 32) || (c =? 9) || (c =? 10) || (c =? 13))%N.

Fixpoint skipSpace (s : jsstring) : jsstring :=
  match s with
  | c :: s' => if isJSONSpace c then skipSpace s' else s
  | [] => []
  end.

(** The message of the [SyntaxError] raised at the rest [rest] of an input
    of [total] code units. *)
Definition unexpected (total : nat) (rest : jsstring) : jsstring :=
  match rest with
  | [] => u "Unexpected end of JSON input"
  | c :: _ =>
    let position := JSString.of_nat (total - List.length rest) in
    if (c =? 34)%N then u "Unexpected string in JSON at position " ++ position
    else if (isDigit c || (c =? 45)%N)%bool
    then u "Unexpected number in JSON at position " ++ position
    else u "Unexpected token " ++ [c] ++ u " in JSON at position " ++ position
  end.

Definition hexValue (c : N) : option N :=
  if isDigit c then Some (c - 48)%N
  else if ((97 <=? c) && (c <=? 102))%N then Some (c - 87)%N
  else if ((65 <=? c) && (c <=? 70))%N then Some (c - 55)%N
  else None.

(** The code units of a string literal after its opening quote, and the
    input after its closing quote. *)
Fixpoint stringBody (total : nat) (s : jsstring) : (jsstring * jsstring) + jsstring :=
  match s with
  | [] => inr (unexpected total s)
  | c :: rest =>
    if (c =? 34)%N then inl ([], rest)
    else if (c <? 32)%N then inr (unexpected total s)
    else if (c =? 92)%N then
      match rest with
      | [] => inr (unexpected total rest)
      | e :: rest1 =>
        let simple (code : N) :=
          match stringBody total rest1 with
          | inl (body, after) => inl (code :: body, after)
          | inr message => inr message
          end in
        if (e =? 34)%N then simple 34%N
        else if (e =? 92)%N then simple 92%N
        else if (e =? 47)%N then simple 47%N
        else if (e =? 98)%N then simple 8%N
        else if (e =? 102)%N then simple 12%N
        else if (e =? 110)%N then simple 10%N
        else if (e =? 114)%N then simple 13%N
        else if (e =? 116)%N then simple 9%N
        else if (e =? 117)%N then
          match rest1 with
          | h1 :: h2 :: h3 :: h4 :: rest2 =>
            match hexValue h1, hexValue h2, hexValue h3, hexValue h4 with
            | Some a, Some b, Some c', Some d =>
              match stringBody total rest2 with
              | inl (body, after) =>
                inl ((a * 4096 + b * 256 + c' * 16 + d)%N :: body, after)
              | inr message => inr message
              end
            | _, _, _, _ => inr (unexpected total rest1)
            end
          | _ => inr (unexpected total [])
          end
        else inr (unexpected total rest)
      end
    else
      match stringBody total rest with
      | inl (body, after) => inl (c :: body, after)
      | inr message => inr message
      end
  end.

Fixpoint spanDigits (s : jsstring) : jsstring * jsstring :=
  match s with
  | c :: s' =>
    if isDigit c then let (ds, rest) := spanDigits s' in (c :: ds, rest)
    else ([], s)
  | [] => ([], [])
  end.

Definition digitsValue (ds : jsstring) : Z :=
  fold_left (fun acc d => (acc * 10 + (Z.of_N d - 48))%Z) ds 0%Z.

(** The rational a number literal denotes. *)
Definition decimalValue (negative : bool) (intDigits fracDigits : jsstring)
  (exponent : Z) : Q :=
  let mantissa := digitsValue (intDigits ++ fracDigits) in
  let e := (exponent - Z.of_nat (List.length fracDigits))%Z in
  let magnitude :=
    match e with
    | Zneg p => Qmake mantissa (10 ^ p)%positive
    | _ => inject_Z (mantissa * 10 ^ e)
    end in
  Qred (if negative then Qopp magnitude else magnitude).

Definition parseNumber (total : nat) (s : jsstring) : (value * jsstring) + jsstring :=
  let (negative, s1) :=
    match s with
    | 45%N :: r => (true, r)
    | _ => (false, s)
    end in
  let (intDigits, s2) := spanDigits s1 in
  match intDigits with
  | [] => inr (unexpected total s1)
  | d0 :: more =>
    if ((d0 =? 48)%N && negb (Nat.eqb (List.length more) 0))%bool
    then inr (unexpected total (tl s1))
    else
      let afterFraction :=
        match s2 with
        | 46%N :: r =>
          let (fracDigits, s3) := spanDigits r in
          match fracDigits with
          | [] => inr (unexpected total r)
          | _ => inl (fracDigits, s3)
          end
        | _ => inl ([], s2)
        end in
      match afterFraction with
      | inr message => inr message
      | inl (fracDigits, s3) =>
        let finish (exponent : Z) (rest : jsstring) :=
          inl (VNum (Finite (decimalValue negative intDigits fracDigits exponent)),
               rest) in
        match s3 with
        | c :: r =>
          if ((c =? 101) || (c =? 69))%N then
            let (expNegative, r1) :=
              match r with
              | 45%N :: r' => (true, r')
              | 43%N :: r' => (false, r')
              | _ => (false, r)
              end in
            let (expDigits, s4) := spanDigits r1 in
            match expDigits with
            | [] => inr (unexpected total r1)
            | _ =>
              finish (if expNegative then (- digitsValue expDigits)%Z
                      else digitsValue expDigits) s4
            end
          else finish 0%Z s3
        | [] => finish 0%Z s3
        end
      end
  end.

Definition isIndexKey (entry : jsstring * value) : bool :=
  match JSString.to_index (fst entry) with Some _ => true | None => false end.

Definition compareIndexKeys (a b : jsstring * value) : comparison :=
  match JSString.to_index (fst a), JSString.to_index (fst b) with
  | Some i, Some j => Nat.compare i j
  | _, _ => Eq
  end.

(** Property order: integer keys in ascending order, then the other keys
    in the order they were first written. *)
Definition propertyOrder (props : list (jsstring * value)) : list (jsstring * value) :=
  Array_sort compareIndexKeys (filter isIndexKey props)
  ++ filter (fun entry => negb (isIndexKey entry)) props.

Fixpoint parseValue (fuel total : nat) (s : jsstring) {struct fuel}
  : (value * jsstring) + jsstring :=
  match fuel with
  | O => inr (unexpected total [])
  | S fuel' =>
    let s0 := skipSpace s in
    match s0 with
    | [] => inr (unexpected total [])
    | c :: rest =>
      if (c =? 123)%N then
        match skipSpace rest with
        | 125%N :: after => inl (VObj [], after)
        | _ => parseMembers fuel' total rest []
        end
      else if (c =? 91)%N then
        match skipSpace rest with
        | 93%N :: after => inl (VArr [], after)
        | _ => parseElements fuel' total rest []
        end
      else if (c =? 34)%N then
        match stringBody total rest with
        | inl (body, after) => inl (VStr body, after)
        | inr message => inr message
        end
      else if (isDigit c || (c =? 45)%N)%bool then parseNumber total s0
      else if JSString.startsWith s0 (u "true") then inl (VBool true, skipn 4 s0)
      else if JSString.startsWith s0 (u "false") then inl (VBool false, skipn 5 s0)
      else if JSString.startsWith s0 (u "null") then inl (VNull, skipn 4 s0)
      else inr (unexpected total s0)
    end
  end
with parseElements (fuel total : nat) (s : jsstring) (acc : list value) {struct fuel}
  : (value * jsstring) + jsstring :=
  match fuel with
  | O => inr (unexpected total [])
  | S fuel' =>
    match parseValue fuel' total s with
    | inr message => inr message
    | inl (v, rest) =>
      match skipSpace rest with
      | 44%N :: rest' => parseElements fuel' total rest' (acc ++ [v])
      | 93%N :: after => inl (VArr (acc ++ [v]), after)
      | other => inr (unexpected total other)
      end
    end
  end
with parseMembers (fuel total : nat) (s : jsstring) (acc : list (jsstring * value))
  {struct fuel} : (value * jsstring) + jsstring :=
  match fuel with
  | O => inr (unexpected total [])
  | S fuel' =>
    match skipSpace s with
    | 34%N :: rest =>
      match stringBody total rest with
      | inr message => inr message
      | inl (key, rest1) =>
        match skipSpace rest1 with
        | 58%N :: rest2 =>
          match parseValue fuel' total rest2 with
          | inr message => inr message
          | inl (v, rest3) =>
            match skipSpace rest3 with
            | 44%N :: rest4 => parseMembers fuel' total rest4 (assign acc key v)
            | 125%N :: after => inl (VObj (propertyOrder (assign acc key v)), after)
            | other => inr (unexpected total other)
            end
          end
        | other => inr (unexpected total other)
        end
      end
    | other => inr (unexpected total other)
    end
  end.

Definition parse (text : jsstring) : parsed :=
  let total := List.length text in
  match parseValue (S total) total text with
  | inr message => SyntaxError message
  | inl (v, rest) =>
    match skipSpace rest with
    | [] => ParseOk v
    | other => SyntaxError (unexpected total other)
    end
  end.

(** Digits after the point of a fraction [0 <= f < 1], at most [fuel]. *)
Fixpoint fractionDigits (fuel : nat) (radix : N) (f : Q) : jsstring :=
  match fuel with
  | O => []
  | S fuel' =>
    if Qeq_bool f 0 then []
    else
      let scaled := Qred (f * inject_Z (Z.of_N radix)) in
      let d := Qfloor scaled in
      JSString.digit_code (Z.to_N d)
      :: fractionDigits fuel' radix (Qred (scaled - inject_Z d))
  end.

Definition numberToString (radix : N) (x : number) : jsstring :=
  match x with
  | NaN => u "NaN"
  | PosInf => u "Infinity"
  | NegInf => u "-Infinity"
  | Finite q =>
    let whole := Qfloor (Qabs q) in
    let fraction := Qred (Qabs q - inject_Z whole) in
    (if JSNumber.Qltb q 0 then u "-" else [])
    ++ JSString.of_N_radix radix (Z.to_N whole)
    ++ (if Qeq_bool fraction 0 then []
        else u "." ++ fractionDigits 52 radix fraction)
  end.

Definition stringToNumber (s : jsstring) : number :=
  match JSString.uint_of_codes (JSString.trim s) with
  | Some d => JSNumber.of_nat (Nat.of_uint d)
  | None => NaN
  end.

Definition pad2 (z : Z) : jsstring :=
  JSString.padStart2 (JSString.of_Z_radix 10 z).

(** [YYYY. MM. DD. HH:MM:SS] of a time value, in UTC. *)
Definition dateToLocaleString (t : Z) : jsstring :=
  let days := (t / 86400000)%Z in
  let ms := (t mod 86400000)%Z in
  let z := (days + 719468)%Z in
  let era := (z / 146097)%Z in
  let doe := (z - era * 146097)%Z in
  let yoe := ((doe - doe / 1460 + doe / 36524 - doe / 146096) / 365)%Z in
  let doy := (doe - (365 * yoe + yoe / 4 - yoe / 100))%Z in
  let mp := ((5 * doy + 2) / 153)%Z in
  let d := (doy - (153 * mp + 2) / 5 + 1)%Z in
  let m := (if mp <? 10 then mp + 3 else mp - 9)%Z in
  let y := (yoe + era * 400 + (if m <=? 2 then 1 else 0))%Z in
  JSString.of_Z_radix 10 y ++ u ". " ++ pad2 m ++ u ". " ++ pad2 d ++ u ". "
  ++ pad2 (ms / 3600000) ++ u ":" ++ pad2 (ms / 60000 mod 60) ++ u ":"
  ++ pad2 (ms / 1000 mod 60).

Definition typeErrorMessage (property : jsstring) : jsstring :=
  u "Cannot read properties of null (reading '" ++ property ++ u "')".

Definition primitiveMessage : jsstring :=
  u "Cannot convert object to primitive value".

(** The string form of a built-in function. *)
Definition nativeFunction (name : jsstring) : jsstring :=
  u "function " ++ name ++ u "() { [native code] }".

(** The methods of [Object.prototype], which every value inherits. *)
Definition objectMethods : list jsstring :=
  [u "toString"; u "toLocaleString"; u "valueOf"; u "hasOwnProperty";
   u "isPrototypeOf"; u "propertyIsEnumerable"; u "__defineGetter__";
   u "__defineSetter__"; u "__lookupGetter__"; u "__lookupSetter__"].

Definition arrayMethods : list jsstring :=
  [u "at"; u "concat"; u "copyWithin"; u "entries"; u "every"; u "fill";
   u "filter"; u "find"; u "findIndex"; u "findLast"; u "findLastIndex";
   u "flat"; u "flatMap"; u "forEach"; u "includes"; u "indexOf"; u "join";
   u "keys"; u "lastIndexOf"; u "map"; u "pop"; u "push"; u "reduce";
   u "reduceRight"; u "reverse"; u "shift"; u "slice"; u "some"; u "sort";
   u "splice"; u "toReversed"; u "toSorted"; u "toSpliced"; u "unshift";
   u "values"; u "with"].

Definition stringMethods : list jsstring :=
  [u "at"; u "charAt"; u "charCodeAt"; u "codePointAt"; u "concat";
   u "endsWith"; u "includes"; u "indexOf"; u "isWellFormed"; u "lastIndexOf";
   u "localeCompare"; u "match"; u "matchAll"; u "normalize"; u "padEnd";
   u "padStart"; u "repeat"; u "replace"; u "replaceAll"; u "search";
   u "slice"; u "split"; u "startsWith"; u "substr"; u "substring";
   u "toLocaleLowerCase"; u "toLocaleUpperCase"; u "toLowerCase";
   u "toUpperCase"; u "toWellFormed"; u "trim"; u "trimEnd"; u "trimStart";
   u "anchor"; u "big"; u "blink"; u "bold"; u "fixed"; u "fontcolor";
   u "fontsize"; u "italics"; u "link"; u "small"; u "strike"; u "sub";
   u "sup"].

Definition numberMethods : list jsstring :=
  [u "toExponential"; u "toFixed"; u "toPrecision"].

(** The methods a value inherits from the prototype of its kind. *)
Definition methodsOf (v : value) : list jsstring :=
  match v with
  | VArr _ => arrayMethods
  | VStr _ => stringMethods
  | VNum _ => numberMethods
  | _ => []
  end.

(** The name of the constructor of a value and the string form of its
    prototype. *)
Definition constructorName (v : value) : jsstring :=
  match v with
  | VArr _ => u "Array"
  | VStr _ => u "String"
  | VNum _ => u "Number"
  | VBool _ => u "Boolean"
  | _ => u "Object"
  end.

Definition prototypeText (v : value) : jsstring :=
  match v with
  | VArr _ | VStr _ => []
  | VNum _ => u "0"
  | VBool _ => u "false"
  | _ => u "[object Object]"
  end.

Definition inherited (v : value) (key : jsstring) : option jsstring :=
  match v with
  | VNull => None
  | _ =>
    if JSString.eqb key (u "constructor")
    then Some (nativeFunction (constructorName v))
    else if JSString.eqb key (u "__proto__") then Some (prototypeText v)
    else if JSString.eqb key (u "trimLeft") && isString v
    then Some (nativeFunction (u "trimStart"))
    else if JSString.eqb key (u "trimRight") && isString v
    then Some (nativeFunction (u "trimEnd"))
    else if existsb (JSString.eqb key) (methodsOf v ++ objectMethods)
    then Some (nativeFunction key)
    else None
  end.

(** The reference engine.  Its sort is the insertion sort, which only
    rearranges whatever the comparator answers. *)
#[export, refine] Instance engine : Engine := {|
  JSON_parse := parse;
  toLowerCase := map JSString.asciiLower;
  localeCompare := JSString.compare;
  Number_toString := numberToString;
  StringToNumber := stringToNumber;
  Date_toLocaleString := dateToLocaleString;
  TypeError_message := typeErrorMessage;
  TypeError_primitive := primitiveMessage;
  inheritedText := inherited;
  Array_sort_comparefn := Array_sortM;
  Array_sort_rearranges := _
|}.
Proof.
  intro comparefn.
  assert (Hinsert : forall x l l',
             insertM comparefn x l = Returns l' -> Permutation l' (x :: l)).
  { intros x l. induction l as [|y l IH]; intros l' H; cbn [insertM] in H.
    - injection H as <-. reflexivity.
    - destruct (comparefn y x) as [c| |]; try discriminate H. cbn [bind] in H.
      destruct c; try (injection H as <-; reflexivity).
      destruct (insertM comparefn x l) as [rest| |]; try discriminate H.
      cbn [bind] in H. injection H as <-.
      rewrite (IH rest eq_refl). apply perm_swap. }
  intro l. induction l as [|x l IH]; intros l' H; cbn [Array_sortM] in H.
  - injection H as <-. reflexivity.
  - destruct (Array_sortM comparefn l) as [sorted| |]; try discriminate H.
    cbn [bind] in H. apply Hinsert in H. rewrite H.
    constructor. now apply IH.
Defined.

End Reference.

(* ===================================================================== *)
(** ** Strings: further methods *)
(* ===================================================================== *)

Module JSText.

(** [s.split(sep)] for a separator of one code unit. *)
Fixpoint split (sep : N) (s : jsstring) : list jsstring :=
  match s with
  | [] => [[]]
  | c :: rest =>
    if (c =? sep)%N then [] :: split sep rest
    else
      match split sep rest with
      | segment :: segments => (c :: segment) :: segments
      | [] => [[c]]
      end
  end.

(** [!s] for a string. *)
Definition isEmpty (s : jsstring) : bool :=
  match s with [] => true | _ => false end.

(** [s.endsWith(suffix)]. *)
Definition endsWith (s suffix : jsstring) : bool :=
  JSString.startsWith (rev s) (rev suffix).

(** [parts.pop()] on the result of [split], which is never empty. *)
Definition pop (parts : list jsstring) : jsstring := last parts [].

End JSText.

(* ===================================================================== *)
(** ** Regular expressions *)
(* ===================================================================== *)

(** The regular expressions of the program use literal characters, [\d],
    sequence, alternatives and repetition, between [^] and [$] and without
    flags: [test] asks whether the whole string belongs to the language.
    It is decided with derivatives. *)
Module RegExp.

Inductive regex :=
| Void
| Eps
| Chr (c : N)
| Digit
| Seq (r s : regex)
| Alt (r s : regex)
| Star (r : regex).

(** [r?], [r+] and [r{n}]. *)
Definition Opt (r : regex) : regex := Alt r Eps.
Definition Plus (r : regex) : regex := Seq r (Star r).
Fixpoint Times (n : nat) (r : regex) : regex :=
  match n with
  | O => Eps
  | S n' => Seq r (Times n' r)
  end.

(** [\d]: the ten ASCII digits. *)
Definition isDigit (c : N) : bool := (48 <=? c)%N && (c <=? 57)%N.

Fixpoint nullable (r : regex) : bool :=
  match r with
  | Void | Chr _ | Digit => false
  | Eps | Star _ => true
  | Seq r s => nullable r && nullable s
  | Alt r s => nullable r || nullable s
  end.

Fixpoint derive (c : N) (r : regex) : regex :=
  match r with
  | Void | Eps => Void
  | Chr d => if (c =? d)%N then Eps else Void
  | Digit => if isDigit c then Eps else Void
  | Seq r s =>
    if nullable r then Alt (Seq (derive c r) s) (derive c s)
    else Seq (derive c r) s
  | Alt r s => Alt (derive c r) (derive c s)
  | Star r => Seq (derive c r) (Star r)
  end.

(** [/^r$/.test(s)] *)
Fixpoint test (r : regex) (s : jsstring) : bool :=
  match s with
  | [] => nullable r
  | c :: rest => test (derive c r) rest
  end.

End RegExp.

(* ===================================================================== *)
(** ** class TableRenderer: further methods *)
(* ===================================================================== *)

Module Renderer.

Import RegExp.

(** The truth value of a value in a condition. *)
Definition truthy (v : jsval) : bool :=
  match v with
  | None | Some VNull => false
  | Some (VBool b) => b
  | Some (VNum (Finite q)) => negb (Qeq_bool q 0)
  | Some (VNum NaN) => false
  | Some (VNum _) => true
  | Some (VStr s) => negb (JSText.isEmpty s)
  | Some (VArr _) | Some (VObj _) => true
  end.

(** The names every object inherits from [Object.prototype].  Reading one
    of them from an object without an own property of that name yields the
    inherited member, which [get_own] does not model. *)
Definition inheritedNames : list jsstring :=
  [u "constructor"; u "toString"; u "toLocaleString"; u "valueOf";
   u "hasOwnProperty"; u "isPrototypeOf"; u "propertyIsEnumerable";
   u "__proto__"; u "__defineGetter__"; u "__defineSetter__";
   u "__lookupGetter__"; u "__lookupSetter__"].

(** The reducer of [getNestedValue]: [undefined] for [null] and
    [undefined], [current[key]] otherwise (own properties and [length], as
    [get_own]). *)
Definition member (current : jsval) (key : jsstring) : jsval :=
  match current with
  | None | Some VNull => None
  | Some v => get_own v key
  end.

Definition getNestedValue (obj : jsval) (path : jsstring) : jsval :=
  if negb (truthy obj) || JSText.isEmpty path then obj
  else if negb (JSString.includes path (u ".")) then
    match obj with
    | Some v => get_own v path
    | None => None
    end
  else fold_left member (JSText.split 46 path) obj.

(** [Math.min] of two numbers. *)
Definition Math_min (a b : number) : number :=
  match a, b with
  | NaN, _ | _, NaN => NaN
  | _, _ => if JSNumber.ltb b a then b else a
  end.

(** What the width computations read of a DOM element: its text. *)
Record Element := { textContent : jsstring; innerText : jsstring }.

(** A table cell and its [.cell-content] child, if it has one. *)
Record Cell := { cellElement : Element; cellContent : option Element }.

Definition getTextContent (element : option Element) : jsstring :=
  match element with
  | None => []
  | Some e =>
    let text :=
      if negb (JSText.isEmpty (textContent e)) then textContent e
      else if negb (JSText.isEmpty (innerText e)) then innerText e
      else [] in
    JSString.trim text
  end.

Definition getCellDisplayText (cell : option Cell) : jsstring :=
  match cell with
  | None => []
  | Some c =>
    match cellContent c with
    | Some content => getTextContent (Some content)
    | None => getTextContent (Some (cellElement c))
    end
  end.

(** The pixels [calculateTextWidth] counts for one code unit. *)
Definition charWidth (code : N) : Z :=
  if (44032 <=? code)%N && (code <=? 55215)%N then 14
  else if (65 <=? code)%N && (code <=? 122)%N then 8
  else if (48 <=? code)%N && (code <=? 57)%N then 8
  else if (32 <=? code)%N && (code <=? 127)%N then 8
  else 12.

Definition calculateTextWidth (text : jsstring) : number :=
  if JSText.isEmpty text then JSNumber.of_Z 0
  else
    let width :=
      fold_left (fun width code => JSNumber.add width (JSNumber.of_Z (charWidth code)))
                text (JSNumber.of_Z 0) in
    JSNumber.max2 width (JSNumber.of_Z 20).

Definition isLongContent (text : jsstring) : bool :=
  (50 <? List.length text)
  || JSString.includes text [10%N]
  || JSString.includes text (u "{")
  || JSString.includes text (u "[").

(** The eight patterns of [isNumericValue]. *)
Definition fraction : regex := Seq (Chr 46) (Plus Digit).

Definition numericPatterns : list regex :=
  [ (* /^\d+$/ *)
    Plus Digit;
    (* /^\d+\.\d+$/ *)
    Seq (Plus Digit) fraction;
    (* /^-\d+(\.\d+)?$/ *)
    Seq (Chr 45) (Seq (Plus Digit) (Opt fraction));
    (* /^\d{1,3}(,\d{3})*(\.\d+)?$/ *)
    Seq (Seq Digit (Opt (Seq Digit (Opt Digit))))
        (Seq (Star (Seq (Chr 44) (Times 3 Digit))) (Opt fraction));
    (* /^\d{1,2}:\d{2}(:\d{2})?$/ *)
    Seq (Seq Digit (Opt Digit))
        (Seq (Chr 58) (Seq (Times 2 Digit) (Opt (Seq (Chr 58) (Times 2 Digit)))));
    (* /^\d{4}-\d{2}-\d{2}$/ *)
    Seq (Times 4 Digit)
        (Seq (Chr 45) (Seq (Times 2 Digit) (Seq (Chr 45) (Times 2 Digit))));
    (* /^\d+(\.\d+)?%$/ *)
    Seq (Plus Digit) (Seq (Opt fraction) (Chr 37));
    (* /^\$?\d+(\.\d+)?$/ *)
    Seq (Opt (Chr 36)) (Seq (Plus Digit) (Opt fraction)) ].

Definition isNumericValue (value : jsstring) : bool :=
  if JSText.isEmpty value then false
  else existsb (fun pattern => test pattern value) numericPatterns.

(** The pixels [calculateNumericTextWidth] counts for one code unit. *)
Definition numericCharWidth (code : N) : Z :=
  if (48 <=? code)%N && (code <=? 57)%N then 6
  else if (code =? 46)%N || (code =? 44)%N then 4
  else if (code =? 45)%N || (code =? 43)%N then 6
  else if (code =? 37)%N || (code =? 36)%N then 6
  else if (code =? 58)%N then 4
  else if (code =? 45)%N then 4
  else 6.

Definition calculateNumericTextWidth (text : jsstring) : number :=
  if JSText.isEmpty text then JSNumber.of_Z 0
  else
    let width :=
      fold_left (fun width code =>
                   JSNumber.add width (JSNumber.of_Z (numericCharWidth code)))
                text (JSNumber.of_Z 0) in
    JSNumber.max2 width (JSNumber.of_Z 15).

Definition numericKeywords : list jsstring :=
  [u "id"; u "count"; u "number"; u "amount"; u "price"; u "value"; u "score";
   u "rate"; u "percent"; u "age"; u "year"; u "month"; u "day"; u "time";
   u "timestamp"].

(** [for (let i = 0; i < headers.length; i++)] over the [data-column]
    attributes of the header cells; [-1] when none is the column. *)
Fixpoint columnIndexFrom (i : Z) (attributes : list (option jsstring))
  (columnName : jsstring) : Z :=
  match attributes with
  | [] => (-1)%Z
  | attribute :: rest =>
    match attribute with
    | Some name =>
      if JSString.eqb name columnName then i
      else columnIndexFrom (i + 1) rest columnName
    | None => columnIndexFrom (i + 1) rest columnName
    end
  end.

(** [getColumnIndex]; [headers] is [None] when there is no table head. *)
Definition getColumnIndex (headers : option (list (option jsstring)))
  (columnName : jsstring) : Z :=
  match headers with
  | None => (-1)%Z
  | Some attributes => columnIndexFrom 0 attributes columnName
  end.

Section WithEngine.
Context {E : Engine}.

(** The quotient [numericCount / sampleSize] is compared with 7/10: among
    the quotients of a count by a sample size of at most five, the binary
    fraction nearest to 0.7 separates the same ones. *)
Definition isNumericColumn (header : Element) (cells : list Cell) : bool :=
  let headerText := toLowerCase (getTextContent (Some header)) in
  if existsb (fun keyword => JSString.includes headerText keyword) numericKeywords
  then true
  else
    let sample := firstn 5 cells in
    let sampleSize := List.length sample in
    let numericCount :=
      fold_left
        (fun numericCount cell =>
           if isNumericValue (getCellDisplayText (Some cell))
           then S numericCount else numericCount)
        sample 0 in
    JSNumber.geb (JSNumber.div (JSNumber.of_nat numericCount)
                               (JSNumber.of_nat sampleSize))
                 (Finite (7 # 10)).

Definition calculateOptimalColumnWidth (settings : TableRenderer.TableSettings)
  (header : Element) (cells : list Cell) : number :=
  let headerText := getTextContent (Some header) in
  let headerWidth := JSNumber.add (calculateTextWidth headerText) (JSNumber.of_Z 40) in
  let isNumeric := isNumericColumn header cells in
  let maxCellWidth :=
    fold_left
      (fun maxCellWidth cell =>
         let cellText := getCellDisplayText (Some cell) in
         let cellWidth :=
           if isNumeric
           then JSNumber.add (calculateNumericTextWidth cellText) (JSNumber.of_Z 12)
           else JSNumber.add (calculateTextWidth cellText) (JSNumber.of_Z 16) in
         if isLongContent cellText then
           let maxWidth := if isNumeric then JSNumber.of_Z 120 else JSNumber.of_Z 300 in
           JSNumber.max2 maxCellWidth (Math_min cellWidth maxWidth)
         else JSNumber.max2 maxCellWidth cellWidth)
      (firstn 10 cells) (JSNumber.of_Z 0) in
  let maxColumnWidth :=
    if isNumeric then JSNumber.of_Z 120
    else TableRenderer.maxColumnWidth settings in
  JSNumber.max2 (TableRenderer.minColumnWidth settings)
                (Math_min maxColumnWidth (JSNumber.max2 headerWidth maxCellWidth)).

End WithEngine.

End Renderer.

(* ===================================================================== *)
(** ** class StateManager *)
(* ===================================================================== *)

(** The result of a call that may raise an exception. *)
Inductive attempt (A : Type) :=
| Done (a : A)
| Raised.
Arguments Done {A} a.
Arguments Raised {A}.

(** What the state manager uses of the host: the serialization of a value
    and the local storage, a store with three operations, each of which may
    raise an exception (a full or a blocked storage). *)
Class Host := {
  (** [JSON.stringify(v)] *)
  JSON_stringify : value -> jsstring;
  Storage : Type;
  (** [localStorage.getItem(key)], [None] for [null] *)
  getItem : Storage -> jsstring -> attempt (option jsstring);
  (** [localStorage.setItem(key, text)] *)
  setItem : Storage -> jsstring -> jsstring -> attempt Storage;
  (** [localStorage.removeItem(key)] *)
  removeItem : Storage -> jsstring -> attempt Storage
}.

Module StateManager.

Definition storageKey : jsstring := u "json-table-viewer-state".

(** [5 * 1024 * 1024] *)
Definition maxStorageSize : N := 5242880.

(** [typeof v === 'object'] for a value that may be [undefined]. *)
Definition isObjectType (v : jsval) : bool :=
  match v with
  | Some w => typeofObject w
  | None => false
  end.

(** [field in state] for an object or an array, for a field that
    [Object.prototype] and [Array.prototype] do not define. *)
Definition hasField (state : value) (field : jsstring) : bool :=
  match get_own state field with
  | Some _ => true
  | None => false
  end.

Definition validateState (state : jsval) : bool :=
  match state with
  | None => false
  | Some s =>
    if negb (Renderer.truthy state) || negb (isObjectType state) then false
    else if negb (forallb (hasField s) [u "jsonInput"]) then false
    else
      match get_own s (u "jsonInput") with
      | Some (VStr _) =>
        let tableOptions := get_own s (u "tableOptions") in
        if Renderer.truthy tableOptions && negb (isObjectType tableOptions)
        then false
        else true
      | _ => false
      end
  end.

(** [{ ...state, lastUpdated: now }], for the time stamp [now] that
    [new Date().toISOString()] returns. *)
Definition stateWithTimestamp (state : value) (now : jsstring) : value :=
  VObj (assign (own_entries state) (u "lastUpdated") (VStr now)).

Definition createDefaultState (now : jsstring) : value :=
  VObj [(u "jsonInput", VStr []);
        (u "tableOptions",
         VObj [(u "sortColumn", VNull);
               (u "sortDirection", VStr (u "asc"));
               (u "searchTerm", VStr [])]);
        (u "lastUpdated", VStr now)].

Section WithHost.
Context {E : Engine} {H : Host}.

(** [saveState]: the value returned and the storage afterwards. *)
Definition saveState (store : Storage) (state : jsval) (now : jsstring)
  : bool * Storage :=
  if negb (validateState state) then (false, store)
  else
    match state with
    | None => (false, store)
    | Some s =>
      let stateString := JSON_stringify (stateWithTimestamp s now) in
      if (maxStorageSize <? N.of_nat (List.length stateString))%N
      then (false, store)
      else
        match setItem store storageKey stateString with
        | Done store' => (true, store')
        | Raised => (false, store)
        end
    end.

Definition clearState (store : Storage) : bool * Storage :=
  match removeItem store storageKey with
  | Done store' => (true, store')
  | Raised => (false, store)
  end.

(** [loadState]: the state returned, [None] for [null], and the storage
    afterwards. *)
Definition loadState (store : Storage) : option value * Storage :=
  match getItem store storageKey with
  | Raised => (None, store)
  | Done None => (None, store)
  | Done (Some stateString) =>
    if JSText.isEmpty stateString then (None, store)
    else
      match JSON_parse stateString with
      | SyntaxError _ => (None, store)
      | ParseOk state =>
        if negb (validateState (Some state))
        then (None, snd (clearState store))
        else (Some state, store)
      end
  end.

Definition importState (store : Storage) (stateJson : jsstring) (now : jsstring)
  : bool * Storage :=
  match JSON_parse stateJson with
  | SyntaxError _ => (false, store)
  | ParseOk state =>
    if negb (validateState (Some state)) then (false, store)
    else saveState store (Some state) now
  end.

End WithHost.

End StateManager.

(* ===================================================================== *)
(** ** class JSONTableViewer *)
(* ===================================================================== *)

Module JSONTableViewer.

(** [getCurrentState], for the text of the input field. *)
Definition getCurrentState (jsonInput : jsstring) : value :=
  VObj [(u "jsonInput", VStr jsonInput);
        (u "tableOptions",
         VObj [(u "sortColumn", VNull);
               (u "sortDirection", VStr (u "asc"));
               (u "searchTerm", VStr [])])].

(** What the viewer reads of a [File]. *)
Record File := { name : jsstring; type : jsstring }.

Definition validTypes : list jsstring :=
  [u "application/json"; u "text/json"; u "text/plain";
   u "application/geo+json"; u "application/vnd.geo+json"].

Definition validExtensions : list jsstring :=
  [u ".json"; u ".jsonl"; u ".geojson"; u ".ndjson"; u ".txt"].

Section WithEngine.
Context {E : Engine}.

Definition isValidFileType (file : File) : bool :=
  if existsb (JSString.eqb (type file)) validTypes then true
  else
    let fileName := toLowerCase (name file) in
    existsb (fun ext => JSText.endsWith fileName ext) validExtensions.

(** [processFileContent], for the two converters [processJSONL] and
    [processGeoJSON] it hands the content to. *)
Definition processFileContent (processJSONL processGeoJSON : jsstring -> jsstring)
  (content fileName : jsstring) : jsstring :=
  let fileExtension := JSText.pop (JSText.split 46 (toLowerCase fileName)) in
  if JSString.eqb fileExtension (u "jsonl") then processJSONL content
  else if JSString.eqb fileExtension (u "ndjson") then processJSONL content
  else if JSString.eqb fileExtension (u "geojson") then processGeoJSON content
  else content.

End WithEngine.

End JSONTableViewer.

(* ===================================================================== *)
(** ** A reference host *)
(* ===================================================================== *)

(** A serializer and a storage that never fails, to run the state manager
    on examples. *)
Module ReferenceHost.

Definition hexDigits (c : N) : jsstring :=
  [JSString.digit_code (c / 16); JSString.digit_code (c mod 16)]%N.

(** One code unit inside a string literal. *)
Definition quoteUnit (c : N) : jsstring :=
  if (c =? 34)%N then [92; 34]%N
  else if (c =? 92)%N then [92; 92]%N
  else if (c =? 8)%N then [92; 98]%N
  else if (c =? 12)%N then [92; 102]%N
  else if (c =? 10)%N then [92; 110]%N
  else if (c =? 13)%N then [92; 114]%N
  else if (c =? 9)%N then [92; 116]%N
  else if (c <? 32)%N then u "\u00" ++ hexDigits c
  else [c].

Definition quote (s : jsstring) : jsstring :=
  [34%N] ++ flat_map quoteUnit s ++ [34%N].

Fixpoint stringify (v : value) : jsstring :=
  match v with
  | VNull => u "null"
  | VBool true => u "true"
  | VBool false => u "false"
  | VNum (Finite q) => Reference.numberToString 10 (Finite q)
  | VNum _ => u "null"
  | VStr s => quote s
  | VArr items => u "[" ++ join (u ",") (map stringify items) ++ u "]"
  | VObj props =>
    u "{"
    ++ join (u ",")
         (map (fun entry => quote (fst entry) ++ u ":" ++ stringify (snd entry))
              props)
    ++ u "}"
  end.

Definition store := list (jsstring * jsstring).

Fixpoint find (key : jsstring) (s : store) : option jsstring :=
  match s with
  | [] => None
  | (k, text) :: rest => if JSString.eqb k key then Some text else find key rest
  end.

Definition remove (key : jsstring) (s : store) : store :=
  filter (fun entry => negb (JSString.eqb (fst entry) key)) s.

#[export] Instance host : Host := {|
  JSON_stringify := stringify;
  Storage := store;
  getItem := fun s key => Done (find key s);
  setItem := fun s key text => Done ((key, text) :: remove key s);
  removeItem := fun s key => Done (remove key s)
|}.

End ReferenceHost.

(* ===================================================================== *)
(** ** Vocabulary: string forms *)
(* ===================================================================== *)

(** Whether [String(v)] returns: no object reached through arrays has an
    own property [toString]. *)
Fixpoint hasStringForm (v : value) : bool :=
  match v with
  | VArr items => forallb hasStringForm items
  | VObj props =>
    match lookup (u "toString") props with
    | Some _ => false
    | None => true
    end
  | _ => true
  end.

(** The string [String(v)] returns for a value that has a string form. *)
Fixpoint stringOf {E : Engine} (v : value) : jsstring :=
  match v with
  | VNull => u "null"
  | VBool true => u "true"
  | VBool false => u "false"
  | VNum x => Number_toString 10 x
  | VStr s => s
  | VArr items =>
    join (u ",")
      (map (fun e => match e with VNull => [] | _ => stringOf e end) items)
  | VObj _ => u "[object Object]"
  end.

(** The string of an element of an array inside [join]. *)
Definition elementString {E : Engine} (e : value) : outcome jsstring :=
  match e with
  | VNull => Returns []
  | _ => ToString_value e
  end.

(** A value that may be [undefined]. *)
Definition hasStringFormOpt (v : jsval) : bool :=
  match v with
  | Some w => hasStringForm w
  | None => true
  end.

Definition stringOfOpt {E : Engine} (v : jsval) : jsstring :=
  match v with
  | Some w => stringOf w
  | None => u "undefined"
  end.

(** The comparator of [sortTable] on two column values that the rows own
    or lack and that have string forms. *)
Definition cellCompare {E : Engine} (direction : jsstring) (aVal bVal : jsval)
  : comparison :=
  if isNullish aVal then Gt
  else if isNullish bVal then Lt
  else
    match aVal, bVal with
    | Some (VNum x), Some (VNum y) =>
      if JSString.eqb direction (u "asc")
      then JSNumber.sign (JSNumber.sub x y)
      else JSNumber.sign (JSNumber.sub y x)
    | _, _ =>
      let aStr := toLowerCase (stringOfOpt aVal) in
      let bStr := toLowerCase (stringOfOpt bVal) in
      if JSString.eqb direction (u "asc")
      then localeCompare aStr bStr
      else localeCompare bStr aStr
    end.
(* ===================================================================== *)
(** ** The properties, as the specification words them *)
(* ===================================================================== *)

Module Spec.

(** The sum of a list of widths. *)
Definition totalOf (widths : list number) : number :=
  fold_left JSNumber.add widths (JSNumber.of_Z 0).

(** The widths fit the container less the allowance of 60 pixels. *)
Definition fits (widths : list number) (containerWidth : number) : Prop :=
  JSNumber.leb (totalOf widths) (JSNumber.sub containerWidth (JSNumber.of_Z 60))
  = true.

(** The column width plan invariant: the widths fit, or every width equals
    the minimum. *)
Definition widthPlanInvariant (settings : TableRenderer.TableSettings)
  (columnWidths : list number) (containerWidth : number) : Prop :=
  let adjusted :=
    TableRenderer.adjustColumnWidths settings columnWidths containerWidth in
  fits adjusted containerWidth
  \/ Forall (fun w => w = TableRenderer.minColumnWidth settings) adjusted.

(** The sum of rational widths. *)
Definition sumOf (qs : list Q) : Q := fold_right Qplus 0%Q qs.

(** [Math.max(min, z)] for a whole number [z] of pixels. *)
Definition clamped (min : Q) (z : Z) : number :=
  if JSNumber.Qltb min (inject_Z z) then JSNumber.of_Z z else Finite min.

(** A column of optimal width [z] is assigned [w]: the larger of the
    minimum and the scaled width [z * available / total] in whole pixels,
    the whole number being at most one pixel below the scaled width. *)
Definition scaled (min available total : Q) (z : Z) (w : number) : Prop :=
  exists k : Z,
    w = clamped min k
    /\ (inject_Z z * available / total - 1 <= inject_Z k)%Q
    /\ (inject_Z k <= inject_Z z * available / total)%Q.

(** [a] is the longest of [arrays], the first of them when several are as
    long. *)
Definition firstLongest (arrays : list (list value)) (a : list value) : Prop :=
  exists before after,
    arrays = before ++ a :: after
    /\ Forall (fun b => List.length b < List.length a) before
    /\ Forall (fun b => List.length b <= List.length a) after.

(** Rule 2a as stated: the rows of an object are those rule 1 gives for the
    longest array among its property values. *)
Definition recursesIntoLongestArray {E : Engine} (data : value) : Prop :=
  forall a, firstLongest (JSONParser.arrayValues data) a ->
    JSONParser.extractTableData data = JSONParser.extractTableData (VArr a).

(** [{"users": [{"id": 1}], "settings": {"x": 1}}] *)
Definition usersAndSettings : value :=
  VObj [(u "users", VArr [VObj [(u "id", VNum (JSNumber.of_Z 1))]]);
        (u "settings", VObj [(u "x", VNum (JSNumber.of_Z 1))])].

(** The greatest length among row arrays. *)
Definition maxLen (arrays : list (list value)) : nat :=
  fold_right Nat.max 0 (map (@List.length value) arrays).

(** The row record of the row array [arr] at position [rowIndex]: its
    elements under [column_0], [column_1], ..., padded with [null] up to
    [maxLength] columns. *)
Definition paddedRow (maxLength rowIndex : nat) (arr : list value) : value :=
  VObj ((u "_rowIndex", VNum (JSNumber.of_nat rowIndex))
        :: map (fun j => (JSONParser.columnKey j, nth j arr VNull))
               (seq 0 maxLength)).

(** The elements of an array that are arrays themselves. *)
Definition elementArrays (items : list value) : list (list value) :=
  flat_map (fun v => match v with VArr l => [l] | _ => [] end) items.

(** Rule 1c as stated: when the first element is an array, every row has a
    cell for each column up to the greatest length of an element array. *)
Definition raggedRowsPadded {E : Engine} (items : list value) : Prop :=
  match items with
  | [] => True
  | first :: _ =>
    isArray first = true ->
    exists rows,
      JSONParser.extractTableData (VArr items) = Returns rows
      /\ Forall (fun row =>
                   forall j, j < maxLen (elementArrays items) ->
                             get_own row (JSONParser.columnKey j) <> None)
                rows
  end.

(** The result of [parseJSON] for an input that could not be parsed. *)
Definition failure (message : jsstring) : JSONParser.ParseResult :=
  {| JSONParser.success := false; JSONParser.data := VNull;
     JSONParser.error := Some message; JSONParser.type := None;
     JSONParser.rowCount := 0; JSONParser.columnCount := 0 |}.

(** The parse failure as stated: whenever the parser rejects the text, the
    result is a failure whose message is the classification of the message
    of the parser. *)
Definition classifiedFailure {E : Engine} (jsonString : jsstring) : Prop :=
  forall message,
    JSON_parse jsonString = SyntaxError message ->
    JSONParser.parseJSON jsonString
    = Returns (failure (JSONParser.formatErrorMessage message)).

(** The five fixed messages of the classes malformed-token, truncated-input,
    malformed-string, malformed-number and invalid-identifier. *)
Definition classMessages : list jsstring :=
  [u "JSON 형식이 올바르지 않습니다. 문법 오류를 확인해주세요.";
   u "JSON 데이터가 완전하지 않습니다. 닫는 괄호나 따옴표를 확인해주세요.";
   u "문자열 형식이 올바르지 않습니다. 따옴표를 확인해주세요.";
   u "숫자 형식이 올바르지 않습니다.";
   u "예약어나 잘못된 식별자가 사용되었습니다."].

(** The text [{"a":}]. *)
Definition missingValueText : jsstring :=
  u "{" ++ [34%N] ++ u "a" ++ [34%N] ++ u ":}".

(** The text [[{"a":1},{"b":2}]] and the rows it denotes. *)
Definition raggedText : jsstring :=
  u "[{" ++ [34%N] ++ u "a" ++ [34%N] ++ u ":1},{"
  ++ [34%N] ++ u "b" ++ [34%N] ++ u ":2}]".

Definition raggedRows : list value :=
  [VObj [(u "a", VNum (JSNumber.of_Z 1))]; VObj [(u "b", VNum (JSNumber.of_Z 2))]].

(** [key] is a key of some row of [data]; only rows that are objects or
    arrays have keys. *)
Definition keyOfSomeRow (data : list value) (key : jsstring) : Prop :=
  exists row,
    In row data /\ TableRenderer.isObjectRow row = true /\ In key (own_keys row).

(** The comparison of two rows by the values they own in the column:
    two numbers by their numeric order, any other pair by [localeCompare]
    on the lower-cased string forms, a row without a value behind every
    other. *)
Definition rowCompare {E : Engine} (column direction : jsstring) (a b : value)
  : comparison :=
  cellCompare direction (get_own a column) (get_own b column).

(** The value of the row in the column is [null] or absent. *)
Definition nullishAt (column : jsstring) (row : value) : Prop :=
  isNullish (get_own row column) = true.

(** Sorting as stated: the rows rendered are a rearrangement of the data
    in which no row stands behind a row that the comparison puts it
    strictly before. *)
Definition sortedByComparison {E : Engine} (column direction : jsstring)
  (data : list value) : Prop :=
  exists sorted,
    TableRenderer.sortTable column direction data = Returns (Some sorted)
    /\ Permutation sorted data
    /\ forall a b, before sorted a b -> rowCompare column direction b a <> Lt.

(** Rows with the values 2, ["1a"] and 10 in the column [n]. *)
Definition mixedRows : list value :=
  [VObj [(u "n", VNum (JSNumber.of_Z 2))];
   VObj [(u "n", VStr (u "1a"))];
   VObj [(u "n", VNum (JSNumber.of_Z 10))]].

(** Rows with the values 2, [null] and 1 in the column [n]. *)
Definition sortExample : list value :=
  [VObj [(u "n", VNum (JSNumber.of_Z 2))];
   VObj [(u "n", VNull)];
   VObj [(u "n", VNum (JSNumber.of_Z 1))]].

(** [t] occurs in [s] as a substring. *)
Definition occursIn (t s : jsstring) : Prop :=
  exists pre post, s = pre ++ t ++ post.

(** The string form of some column value of the row contains the term,
    ignoring case. *)
Definition rowContains {E : Engine} (term : jsstring) (row : value) : Prop :=
  exists v text,
    In v (own_values row)
    /\ ToString_value v = Returns text
    /\ occursIn (toLowerCase term) (toLowerCase text).

(** Search as stated: the rows displayed are exactly the rows that contain
    the term, in their original order. *)
Definition searchIsFilter {E : Engine} (term : jsstring) (data : list value)
  : Prop :=
  exists keep : value -> bool,
    (forall row, keep row = true <-> rowContains term row)
    /\ TableRenderer.searchTable term data = Returns (filter keep data).

(** Numeric equality of two numbers. *)
Definition numEq (a b : number) : bool := JSNumber.leb a b && JSNumber.leb b a.

(** Two decimal digits of a small non-negative integer. *)
Definition twoDigits (z : Z) : jsstring :=
  JSString.padStart2 (JSString.of_Z_radix 10 z).

(** [HH:MM:SS] of a number of seconds since midnight. *)
Definition clockOf (seconds : Z) : jsstring :=
  twoDigits (seconds / 3600) ++ u ":" ++ twoDigits (seconds mod 3600 / 60)
  ++ u ":" ++ twoDigits (seconds mod 60).

(** The date of the time value [ms] in milliseconds, or the literal number
    [v] when the date is invalid. *)
Definition dateOrLiteral {E : Engine} (v ms : number) : jsstring :=
  match TableRenderer.newDate ms with
  | Some t => Date_toLocaleString t
  | None => Number_toString 10 v
  end.

(** [number-time] as stated: seconds in [1e9, 1e10), milliseconds in
    [1e12, 1e13), a clock time in (0, 86400), and a raw millisecond
    timestamp otherwise. *)
Definition formatAsTimeSpec {E : Engine} (v : number) : jsstring :=
  if JSNumber.leb (JSNumber.of_Z 1000000000) v
     && JSNumber.ltb v (JSNumber.of_Z 10000000000)
  then dateOrLiteral v (JSNumber.mul v (JSNumber.of_Z 1000))
  else if JSNumber.leb (JSNumber.of_Z 1000000000000) v
          && JSNumber.ltb v (JSNumber.of_Z 10000000000000)
  then dateOrLiteral v v
  else if JSNumber.ltb (JSNumber.of_Z 0) v && JSNumber.ltb v (JSNumber.of_Z 86400)
  then match v with
       | Finite q => clockOf (Qfloor q)
       | _ => dateOrLiteral v v
       end
  else dateOrLiteral v v.

End Spec.

(* ===================================================================== *)
(** ** Vocabulary of the proofs *)
(* ===================================================================== *)

Section SortVocabulary.
Context {A : Type} (comparefn : A -> A -> comparison).

(** [x] may stay in front of [y]: [comparefn(y, x)] is not negative. *)
Definition inOrder (x y : A) : Prop := comparefn y x <> Lt.

(** A negative [comparefn(y, x)] excludes a negative [comparefn(x, y)]. *)
Definition asymmetricOn (l : list A) : Prop :=
  forall x y, In x l -> In y l -> comparefn y x = Lt -> comparefn x y <> Lt.

End SortVocabulary.

(** A row [sortTable] can compare by the column: the row is not [null],
    it inherits no member under the name of the column, and its value in
    the column, if it has one, has a string form. *)
Definition comparableAt {E : Engine} (column : jsstring) (row : value) : Prop :=
  row <> VNull
  /\ inheritedText row column = None
  /\ hasStringFormOpt (get_own row column) = true.

(** The values of the rows in the column are numbers, [NaN] apart, where
    there is a value. *)
Definition numbersAt (column : jsstring) (data : list value) : Prop :=
  Forall (fun row =>
            match get_own row column with
            | Some (VNum NaN) => False
            | Some (VNum _) | Some VNull | None => True
            | Some _ => False
            end) data.

(** No value of the rows in the column is a number. *)
Definition textsAt (column : jsstring) (data : list value) : Prop :=
  Forall (fun row =>
            match get_own row column with
            | Some (VNum _) => False
            | _ => True
            end) data.

(** The set of headers collected from the rows. *)
Definition headerSetFrom (data : list value) (set : list jsstring) : list jsstring :=
  fold_left
    (fun set row =>
       if TableRenderer.isObjectRow row
       then fold_left TableRenderer.Set_add (own_keys row) set
       else set)
    data set.

(** A row [searchTable] can test: it is not [null] and its values have
    string forms. *)
Definition searchable (row : value) : Prop :=
  row <> VNull /\ Forall (fun v => hasStringForm v = true) (own_values row).

(** The string form of some value of the row contains the term, ignoring
    case. *)
Definition keeps {E : Engine} (searchTerm : jsstring) (row : value) : bool :=
  existsb
    (fun v => hasStringForm v
              && JSString.includes (toLowerCase (stringOf v))
                                   (toLowerCase searchTerm))
    (own_values row).

(** Linear arithmetic over [Q] with the injections of integers taken as
    unknowns. *)
Ltac lra_inject :=
  repeat match goal with
         | |- context [inject_Z ?t] => generalize dependent (inject_Z t)
         | H : context [inject_Z ?t] |- _ => generalize dependent (inject_Z t)
         end;
  intros; lra.

(* ===================================================================== *)
(** ** Vocabulary of the further proofs *)
(* ===================================================================== *)

(** One step of the loop of [flatten] and of [flattenObjectKeys]. *)
Definition flattenEntry (prefix : jsstring) (acc : JSONParser.Flattened)
  (entry : jsstring * value) : JSONParser.Flattened :=
  let newKey := TableRenderer.fullKey prefix (fst entry) in
  if isPlainObject (snd entry) then JSONParser.flatten (snd entry) newKey acc
  else JSONParser.setProperty acc newKey (snd entry).

Definition flattenKeysEntry (prefix : jsstring) (acc : list jsstring)
  (entry : jsstring * value) : list jsstring :=
  let fullKey := TableRenderer.fullKey prefix (fst entry) in
  if isPlainObject (snd entry)
  then TableRenderer.flattenObjectKeys (snd entry) acc fullKey
  else TableRenderer.Set_add acc fullKey.

(** The keys of the cells are among the keys in [keySet], and every key of
    [keySet] other than [__proto__] is the key of a cell. *)
Definition cellsFor (cells : list (jsstring * value)) (keySet : list jsstring)
  : Prop :=
  incl (map fst cells) keySet
  /\ forall key, key <> u "__proto__" -> In key keySet -> In key (map fst cells).

(** No value of the row is a plain object. *)
Definition leafValued (row : list (jsstring * value)) : Prop :=
  Forall (fun entry => isPlainObject (snd entry) = false) row.

(** No key occurs twice. *)
Fixpoint distinct (keys : list jsstring) : bool :=
  match keys with
  | [] => true
  | k :: rest => negb (existsb (JSString.eqb k) rest) && distinct rest
  end.

(** A key that a dotted path can name: not empty and without a dot. *)
Definition plainKey (key : jsstring) : bool :=
  negb (JSText.isEmpty key) && negb (existsb (N.eqb 46) key).

(** The keys of an object and of the plain objects nested in it are
    distinct within their object, not empty and without a dot, as the keys
    of parsed JSON are distinct. *)
Fixpoint plainKeys (v : value) : bool :=
  match v with
  | VObj props =>
    distinct (map fst props)
    && (fix each (ps : list (jsstring * value)) : bool :=
          match ps with
          | [] => true
          | (key, w) :: ps' => plainKey key && plainKeys w && each ps'
          end) props
  | _ => true
  end.

(** The key [flatten] gives to the path [segments] below [prefix]. *)
Definition pathKey (prefix : jsstring) (segments : list jsstring) : jsstring :=
  fold_left TableRenderer.fullKey segments prefix.

(** [x] is the value that is not a plain object found in [v] along the
    keys [segments], through plain objects only. *)
Fixpoint leafAt (v : value) (segments : list jsstring) (x : value) : Prop :=
  match segments with
  | [] => False
  | key :: rest =>
    match rest with
    | [] => get_own v key = Some x /\ isPlainObject x = false
    | _ :: _ =>
      exists w, get_own v key = Some w /\ isPlainObject w = true /\ leafAt w rest x
    end
  end.

(** The pixel sums of the two text width estimates, as integers. *)
Definition textPixels (text : jsstring) : Z :=
  fold_left (fun width code => (width + Renderer.charWidth code)%Z) text 0%Z.

Definition numericTextPixels (text : jsstring) : Z :=
  fold_left (fun width code => (width + Renderer.numericCharWidth code)%Z) text 0%Z.

(** The language of a regular expression. *)
Inductive Matches : RegExp.regex -> jsstring -> Prop :=
| MatchesEps : Matches RegExp.Eps []
| MatchesChr (c : N) : Matches (RegExp.Chr c) [c]
| MatchesDigit (c : N) : RegExp.isDigit c = true -> Matches RegExp.Digit [c]
| MatchesSeq (r s : RegExp.regex) (x y : jsstring) :
    Matches r x -> Matches s y -> Matches (RegExp.Seq r s) (x ++ y)
| MatchesAltL (r s : RegExp.regex) (x : jsstring) :
    Matches r x -> Matches (RegExp.Alt r s) x
| MatchesAltR (r s : RegExp.regex) (x : jsstring) :
    Matches s x -> Matches (RegExp.Alt r s) x
| MatchesStarNil (r : RegExp.regex) : Matches (RegExp.Star r) []
| MatchesStarApp (r : RegExp.regex) (x y : jsstring) :
    Matches r x -> Matches (RegExp.Star r) y -> Matches (RegExp.Star r) (x ++ y).

(** The code units a regular expression can consume. *)
Fixpoint consumes (r : RegExp.regex) (c : N) : bool :=
  match r with
  | RegExp.Void | RegExp.Eps => false
  | RegExp.Chr d => (c =? d)%N
  | RegExp.Digit => RegExp.isDigit c
  | RegExp.Seq r s | RegExp.Alt r s => consumes r c || consumes s c
  | RegExp.Star r => consumes r c
  end.

(** Every string of the language holds a digit. *)
Fixpoint needsDigit (r : RegExp.regex) : bool :=
  match r with
  | RegExp.Void | RegExp.Digit => true
  | RegExp.Eps | RegExp.Chr _ | RegExp.Star _ => false
  | RegExp.Seq r s => needsDigit r || needsDigit s
  | RegExp.Alt r s => needsDigit r && needsDigit s
  end.

(** The code units of a numeric cell text: digits and [. , - : % $]. *)
Definition numericChar (c : N) : bool :=
  RegExp.isDigit c || existsb (N.eqb c) [46; 44; 45; 58; 37; 36]%N.

(* ===================================================================== *)
(** ** Numbers: facts *)
(* ===================================================================== *)

Lemma Qltb_lt (x y : Q) : JSNumber.Qltb x y = true <-> (x < y)%Q.
Proof.
  unfold JSNumber.Qltb. rewrite negb_true_iff.
  split; intro H.
  - apply Qnot_le_lt. intro Hle. apply Qle_bool_iff in Hle. congruence.
  - destruct (Qle_bool y x) eqn:Hb; [|reflexivity].
    apply Qle_bool_iff in Hb. exfalso. exact (Qlt_not_le _ _ H Hb).
Qed.

Lemma Qltb_ge (x y : Q) : JSNumber.Qltb x y = false <-> (y <= x)%Q.
Proof.
  unfold JSNumber.Qltb. rewrite negb_false_iff. apply Qle_bool_iff.
Qed.

Lemma leb_max2_finite (m : Q) (x : number) :
  x <> NaN -> JSNumber.leb (Finite m) (JSNumber.max2 (Finite m) x) = true.
Proof.
  intro Hx. destruct x as [q| | |]; try congruence; simpl.
  - destruct (JSNumber.Qltb m q) eqn:Hlt; simpl.
    + apply Qle_bool_iff. apply Qlt_le_weak. now apply Qltb_lt.
    + apply Qle_bool_iff. apply Qle_refl.
  - reflexivity.
  - apply Qle_bool_iff. apply Qle_refl.
Qed.

Lemma totalOf_finite (qs : list Q) (a : Q) :
  exists t, fold_left JSNumber.add (map Finite qs) (Finite a) = Finite t.
Proof.
  revert a. induction qs as [|q qs IH]; intro a; simpl.
  - now exists a.
  - apply IH.
Qed.

Lemma floor_not_NaN (x : number) : x <> NaN -> JSNumber.floor x <> NaN.
Proof. destruct x; simpl; unfold JSNumber.of_Z; congruence. Qed.

Lemma mul_positive_not_NaN (q : Q) (r : number) :
  (0 < q)%Q -> r <> NaN -> JSNumber.mul (Finite q) r <> NaN.
Proof.
  intros Hq Hr.
  assert (Hs : (q ?= 0)%Q = Gt) by (now apply Qgt_alt).
  destruct r as [y| | |]; simpl; try congruence; rewrite Hs; simpl; congruence.
Qed.

Lemma Qfloor_unique (x : Q) (z : Z) :
  (inject_Z z <= x)%Q -> (x < inject_Z (z + 1))%Q -> Qfloor x = z.
Proof.
  intros Hle Hlt.
  assert (H1 : (z <= Qfloor x)%Z).
  { rewrite <- (Qfloor_Z z). now apply Qfloor_resp_le. }
  assert (H2 : (Qfloor x < z + 1)%Z).
  { rewrite Zlt_Qlt. eapply Qle_lt_trans; [apply Qfloor_le | exact Hlt]. }
  lia.
Qed.

(** Floor of a quotient by a positive integer. *)
Lemma Qfloor_div (x : Q) (n : Z) :
  (0 < n)%Z -> Qfloor (x / inject_Z n)%Q = (Qfloor x / n)%Z.
Proof.
  intro Hn.
  pose proof (Qfloor_le x) as Hlo. pose proof (Qlt_floor x) as Hhi.
  pose proof (Z.div_mod (Qfloor x) n ltac:(lia)) as Hdm.
  pose proof (Z.mod_pos_bound (Qfloor x) n Hn) as Hmod.
  set (s := Qfloor x) in *. set (k := (s / n)%Z) in *.
  assert (Hnq : (0 < inject_Z n)%Q).
  { change 0%Q with (inject_Z 0). now rewrite <- Zlt_Qlt. }
  apply Qfloor_unique.
  - apply Qle_shift_div_l; [exact Hnq|].
    eapply Qle_trans; [|exact Hlo].
    rewrite <- inject_Z_mult, <- Zle_Qle. lia.
  - apply Qlt_shift_div_r; [exact Hnq|].
    eapply Qlt_le_trans; [exact Hhi|].
    rewrite <- inject_Z_mult, <- Zle_Qle. lia.
Qed.

Lemma Qfloor_sub_Z (x : Q) (z : Z) : Qfloor (x - inject_Z z)%Q = (Qfloor x - z)%Z.
Proof.
  pose proof (Qfloor_le x) as Hlo. pose proof (Qlt_floor x) as Hhi.
  apply Qfloor_unique.
  - unfold Z.sub. rewrite inject_Z_plus, inject_Z_opp.
    lra_inject.
  - replace (Qfloor x - z + 1)%Z with ((Qfloor x + 1) + - z)%Z by lia.
    rewrite (inject_Z_plus (Qfloor x + 1)), inject_Z_opp.
    lra_inject.
Qed.

Lemma Qtruncate_nonneg (x : Q) : (0 <= x)%Q -> JSNumber.Qtruncate x = Qfloor x.
Proof.
  intro H. unfold JSNumber.Qtruncate.
  destruct (JSNumber.Qltb x 0) eqn:Hlt; [|reflexivity].
  apply Qltb_lt in Hlt. lra.
Qed.

(** Floor of the remainder of a non-negative number by a positive integer. *)
Lemma floor_rem (q : Q) (n : Z) :
  (0 <= q)%Q -> (0 < n)%Z ->
  exists r, JSNumber.rem (Finite q) (JSNumber.of_Z n) = Finite r
            /\ (0 <= r)%Q /\ Qfloor r = (Qfloor q mod n)%Z.
Proof.
  intros Hq Hn.
  assert (Hnq : (0 < inject_Z n)%Q).
  { change 0%Q with (inject_Z 0). now rewrite <- Zlt_Qlt. }
  unfold JSNumber.rem, JSNumber.of_Z.
  assert (Hn0 : Qeq_bool (inject_Z n) 0 = false).
  { destruct (Qeq_bool (inject_Z n) 0) eqn:Hb; [|reflexivity].
    apply Qeq_bool_iff in Hb. lra. }
  rewrite Hn0. eexists. split; [reflexivity|].
  assert (Hquot : (0 <= q / inject_Z n)%Q).
  { apply Qle_shift_div_l; [exact Hnq | lra]. }
  rewrite (Qtruncate_nonneg _ Hquot), (Qfloor_div _ _ Hn).
  pose proof (Z.div_mod (Qfloor q) n ltac:(lia)) as Hdm.
  pose proof (Z.mod_pos_bound (Qfloor q) n Hn) as Hmod.
  pose proof (Qfloor_le q) as Hlo.
  assert (Heq : (Qred (q - inject_Z n * inject_Z (Qfloor q / n))
                 == q - inject_Z (n * (Qfloor q / n)))%Q).
  { rewrite Qred_correct, inject_Z_mult. reflexivity. }
  split.
  - rewrite Heq.
    assert (Hle : (inject_Z (n * (Qfloor q / n)) <= inject_Z (Qfloor q))%Q).
    { rewrite <- Zle_Qle. lia. }
    lra_inject.
  - rewrite (Qfloor_comp _ _ Heq), Qfloor_sub_Z. lia.
Qed.

Lemma floor_div_pos (q : Q) (n : Z) :
  (0 < n)%Z ->
  JSNumber.floor (JSNumber.div (Finite q) (JSNumber.of_Z n))
  = JSNumber.of_Z (Qfloor q / n).
Proof.
  intro Hn.
  assert (Hnq : (0 < inject_Z n)%Q).
  { change 0%Q with (inject_Z 0). now rewrite <- Zlt_Qlt. }
  unfold JSNumber.div, JSNumber.of_Z.
  assert (Hn0 : Qeq_bool (inject_Z n) 0 = false).
  { destruct (Qeq_bool (inject_Z n) 0) eqn:Hb; [|reflexivity].
    apply Qeq_bool_iff in Hb. lra. }
  rewrite Hn0. unfold JSNumber.floor, JSNumber.of_Z. f_equal. f_equal.
  rewrite (Qfloor_comp _ _ (Qred_correct _)). now apply Qfloor_div.
Qed.

Lemma Qle_bool_false (x y : Q) : Qle_bool x y = false -> (y < x)%Q.
Proof.
  intro H. apply Qnot_le_lt. intro Hle. apply Qle_bool_iff in Hle. congruence.
Qed.

(* ===================================================================== *)
(** ** Strings: facts *)
(* ===================================================================== *)

Lemma eqb_eq (a b : jsstring) : JSString.eqb a b = true <-> a = b.
Proof.
  revert b. induction a as [|x a IH]; intros [|y b]; simpl; split; intro H;
    try reflexivity; try discriminate.
  - apply andb_true_iff in H. destruct H as [Hx Hab].
    apply N.eqb_eq in Hx. apply IH in Hab. now subst.
  - injection H as -> ->. rewrite N.eqb_refl. simpl. now apply IH.
Qed.

Lemma eqb_refl (a : jsstring) : JSString.eqb a a = true.
Proof. now apply eqb_eq. Qed.

Lemma eqb_neq (a b : jsstring) : JSString.eqb a b = false <-> a <> b.
Proof.
  split; intro H.
  - intro Heq. apply eqb_eq in Heq. congruence.
  - destruct (JSString.eqb a b) eqn:Hb; [|reflexivity].
    apply eqb_eq in Hb. contradiction.
Qed.

(** *** Decimal index strings *)

Lemma uint_of_codes_of_uint (d : Decimal.uint) :
  JSString.uint_of_codes (JSString.codes_of_uint d) = Some d.
Proof. induction d; simpl; try rewrite IHd; reflexivity. Qed.

Lemma codes_of_uint_inj (d d' : Decimal.uint) :
  JSString.codes_of_uint d = JSString.codes_of_uint d' -> d = d'.
Proof.
  intro H. apply (f_equal JSString.uint_of_codes) in H.
  rewrite !uint_of_codes_of_uint in H. congruence.
Qed.

Lemma of_nat_inj (n m : nat) : JSString.of_nat n = JSString.of_nat m -> n = m.
Proof.
  unfold JSString.of_nat. intro H. apply codes_of_uint_inj in H.
  now apply Unsigned.to_uint_inj.
Qed.

Lemma to_index_of_nat (n : nat) : JSString.to_index (JSString.of_nat n) = Some n.
Proof.
  unfold JSString.to_index, JSString.of_nat at 1.
  rewrite uint_of_codes_of_uint. cbv zeta. rewrite Unsigned.of_to.
  now rewrite eqb_refl.
Qed.

Lemma of_nat_digits (n : nat) :
  Forall (fun c => (48 <= c <= 57)%N) (JSString.of_nat n).
Proof.
  unfold JSString.of_nat. induction (Nat.to_uint n); simpl; constructor;
    try assumption; lia.
Qed.

Lemma of_nat_not_length (n : nat) : JSString.eqb (JSString.of_nat n) (u "length") = false.
Proof.
  apply eqb_neq. intro H. pose proof (of_nat_digits n) as Hd.
  remember (JSString.of_nat n) as s eqn:Hs. clear Hs.
  vm_compute in H. subst s.
  inversion Hd as [|c l Hc _]; subst. lia.
Qed.

Lemma columnKey_inj (i j : nat) :
  JSONParser.columnKey i = JSONParser.columnKey j -> i = j.
Proof.
  unfold JSONParser.columnKey. intro H. apply app_inv_head in H.
  now apply of_nat_inj.
Qed.

Lemma columnKey_not_rowIndex (i : nat) :
  JSString.eqb (u "_rowIndex") (JSONParser.columnKey i) = false.
Proof. reflexivity. Qed.


(** *** The order by code units *)

Lemma compare_refl (a : jsstring) : JSString.compare a a = Eq.
Proof. induction a as [|x a IH]; simpl; [reflexivity|]. now rewrite N.compare_refl. Qed.

Lemma compare_eq (a b : jsstring) : JSString.compare a b = Eq -> a = b.
Proof.
  revert b. induction a as [|x a IH]; intros [|y b]; simpl; try discriminate;
    [reflexivity|].
  destruct (x ?= y)%N eqn:Hxy; try discriminate.
  apply N.compare_eq in Hxy. intro H. apply IH in H. now subst.
Qed.

Lemma compare_antisym (a b : jsstring) :
  JSString.compare b a = CompOpp (JSString.compare a b).
Proof.
  revert b. induction a as [|x a IH]; intros [|y b]; simpl; try reflexivity.
  rewrite (N.compare_antisym x y). destruct (x ?= y)%N; simpl; auto.
Qed.

Lemma compare_lt_trans (a b c : jsstring) :
  JSString.lt a b -> JSString.lt b c -> JSString.lt a c.
Proof.
  unfold JSString.lt. revert b c.
  induction a as [|x a IH]; intros [|y b] [|z c]; simpl; try discriminate;
    try reflexivity.
  destruct (x ?= y)%N eqn:Hxy; destruct (y ?= z)%N eqn:Hyz; intros H1 H2;
    try discriminate.
  - apply N.compare_eq in Hxy, Hyz. subst. rewrite N.compare_refl.
    now apply (IH b).
  - apply N.compare_eq in Hxy. subst. now rewrite Hyz.
  - apply N.compare_eq in Hyz. subst. now rewrite Hxy.
  - assert (Hxz : (x ?= z)%N = Lt).
    { rewrite N.compare_lt_iff in *. lia. }
    now rewrite Hxz.
Qed.

Lemma lt_irrefl (a : jsstring) : ~ JSString.lt a a.
Proof. unfold JSString.lt. rewrite compare_refl. discriminate. Qed.

Lemma lt_asym (a b : jsstring) : JSString.lt a b -> ~ JSString.lt b a.
Proof.
  unfold JSString.lt. intros H1 H2. rewrite compare_antisym, H1 in H2.
  discriminate.
Qed.

(** A strictly increasing list is determined by its elements. *)
Lemma strictly_sorted_unique (l1 l2 : list jsstring) :
  StronglySorted JSString.lt l1 -> StronglySorted JSString.lt l2 ->
  (forall k, In k l1 <-> In k l2) -> l1 = l2.
Proof.
  intro H1. revert l2. induction H1 as [|x l1 Hs1 IH Hx]; intros l2 H2 Hin.
  - destruct l2 as [|y l2]; [reflexivity|]. exfalso.
    apply (Hin y). now left.
  - destruct H2 as [|y l2 Hs2 Hy].
    + exfalso. apply (Hin x). now left.
    + rewrite Forall_forall in Hx, Hy.
      assert (Hxy : x = y).
      { destruct (proj1 (Hin x) (or_introl eq_refl)) as [Heq | Hx2];
          [now symmetry|].
        destruct (proj2 (Hin y) (or_introl eq_refl)) as [Heq | Hy1];
          [exact Heq|].
        exfalso. exact (lt_asym _ _ (Hx _ Hy1) (Hy _ Hx2)). }
      subst y. f_equal. apply IH; [exact Hs2|].
      intro k. split; intro Hk.
      * destruct (proj1 (Hin k) (or_intror Hk)) as [<- | Hk2]; [|exact Hk2].
        exfalso. exact (lt_irrefl _ (Hx _ Hk)).
      * destruct (proj2 (Hin k) (or_intror Hk)) as [<- | Hk1]; [|exact Hk1].
        exfalso. exact (lt_irrefl _ (Hy _ Hk)).
Qed.

(** *** Substrings *)

Lemma startsWith_spec (s t : jsstring) :
  JSString.startsWith s t = true <-> exists post, s = t ++ post.
Proof.
  revert s. induction t as [|c t IH]; intro s.
  - split; [now exists s | now destruct s].
  - destruct s as [|d s]; simpl.
    + split; [discriminate | intros (post & H); discriminate].
    + rewrite andb_true_iff, N.eqb_eq, IH. split.
      * intros [-> (post & ->)]. now exists post.
      * intros (post & H). injection H as -> ->. split; [reflexivity|].
        now exists post.
Qed.

Lemma includes_spec (s t : jsstring) :
  JSString.includes s t = true <-> Spec.occursIn t s.
Proof.
  unfold Spec.occursIn. induction s as [|c s IH]; cbn [JSString.includes].
  - rewrite orb_false_r, startsWith_spec. split.
    + intros (post & ->). now exists [], post.
    + intros (pre & post & H). symmetry in H.
      apply app_eq_nil in H. destruct H as [-> H].
      apply app_eq_nil in H. destruct H as [-> ->]. now exists [].
  - rewrite orb_true_iff, startsWith_spec, IH. split.
    + intros [(post & ->) | (pre & post & ->)].
      * now exists [], post.
      * now exists (c :: pre), post.
    + intros ([|d pre] & post & H).
      * left. now exists post.
      * right. injection H as -> ->. now exists pre, post.
Qed.
(* ===================================================================== *)
(** ** Lists and property lists: facts *)
(* ===================================================================== *)

Lemma assign_fresh (props : list (jsstring * value)) (key : jsstring) (v : value) :
  Forall (fun entry => JSString.eqb (fst entry) key = false) props ->
  assign props key v = props ++ [(key, v)].
Proof.
  induction 1 as [|[k w] props Hk _ IH]; simpl.
  - reflexivity.
  - simpl in Hk. rewrite Hk. now rewrite IH.
Qed.

Lemma mapi_from_map {A B C : Type} (f : nat -> B -> C) (g : A -> B)
  (start : nat) (l : list A) :
  mapi_from f start (map g l) = mapi_from (fun i a => f i (g a)) start l.
Proof.
  revert start. induction l as [|a l IH]; intro start; simpl; [reflexivity|].
  now rewrite IH.
Qed.

Lemma mapi_from_ext {A B : Type} (f g : nat -> A -> B) (start : nat) (l : list A) :
  (forall i a, f i a = g i a) -> mapi_from f start l = mapi_from g start l.
Proof.
  intro H. revert start. induction l as [|a l IH]; intro start; simpl;
    [reflexivity|]. now rewrite H, IH.
Qed.

Lemma mapi_from_length {A B : Type} (f : nat -> A -> B) (start : nat) (l : list A) :
  List.length (mapi_from f start l) = List.length l.
Proof.
  revert start. induction l as [|a l IH]; intro start; simpl; [reflexivity|].
  now rewrite IH.
Qed.

Lemma mapi_from_nth_error {A B : Type} (f : nat -> A -> B) (start : nat)
  (l : list A) (i : nat) :
  nth_error (mapi_from f start l) i = option_map (f (start + i)) (nth_error l i).
Proof.
  revert start i. induction l as [|a l IH]; intros start [|i]; simpl;
    try reflexivity.
  - now rewrite Nat.add_0_r.
  - rewrite IH. now rewrite Nat.add_succ_r.
Qed.


(** *** Values *)

(** Induction on a value with the hypothesis for every element of an array
    and every property value of an object. *)
Lemma value_nested_ind (P : value -> Prop) :
  P VNull -> (forall b, P (VBool b)) -> (forall n, P (VNum n)) ->
  (forall s, P (VStr s)) ->
  (forall items, Forall P items -> P (VArr items)) ->
  (forall props, Forall (fun entry => P (snd entry)) props -> P (VObj props)) ->
  forall v, P v.
Proof.
  intros Hnull Hbool Hnum Hstr Harr Hobj. fix IH 1.
  intros [| b | n | s | items | props];
    [exact Hnull | apply Hbool | apply Hnum | apply Hstr | | ].
  - apply Harr. induction items as [|x items IHitems]; constructor;
      [apply IH | exact IHitems].
  - apply Hobj. induction props as [|[k x] props IHprops]; constructor;
      [apply IH | exact IHprops].
Qed.

Section StringForms.
Context {E : Engine}.

Lemma ToString_value_array (items : list value) :
  ToString_value (VArr items)
  = (parts <- mapM elementString items ;; Returns (join (u ",") parts)).
Proof.
  cbn [ToString_value]. f_equal.
  induction items as [|e items IH]; [reflexivity|].
  cbn [mapM]. rewrite <- IH. reflexivity.
Qed.

(** A value that has a string form converts to it; any other value makes
    the conversion throw. *)
Lemma ToString_value_stringOf (v : value) :
  hasStringForm v = true -> ToString_value v = Returns (stringOf v).
Proof.
  induction v as [|[|]| | |items IH|props _] using value_nested_ind;
    intro H; try reflexivity.
  - rewrite ToString_value_array. cbn [stringOf hasStringForm] in *.
    assert (Hparts : mapM elementString items
                     = Returns (map (fun e => match e with
                                              | VNull => []
                                              | _ => stringOf e
                                              end) items)).
    { induction items as [|e items IHitems]; [reflexivity|].
      cbn [forallb] in H. apply andb_prop in H. destruct H as [He Hrest].
      inversion IH as [|? ? Hhead Htail]; subst.
      cbn [mapM map]. rewrite (IHitems Htail Hrest).
      assert (Helem : elementString e
                      = Returns match e with VNull => [] | _ => stringOf e end).
      { destruct e; try reflexivity; now apply Hhead. }
      rewrite Helem. reflexivity. }
    rewrite Hparts. reflexivity.
  - cbn [ToString_value hasStringForm stringOf] in *.
    destruct (lookup (u "toString") props); [discriminate H | reflexivity].
Qed.

Lemma ToString_value_throws (v : value) :
  hasStringForm v = false -> ToString_value v = Throws TypeError_primitive.
Proof.
  induction v as [|[|]| | |items IH|props _] using value_nested_ind;
    intro H; try discriminate H.
  - rewrite ToString_value_array. cbn [hasStringForm] in H.
    assert (Hparts : mapM elementString items = Throws TypeError_primitive).
    { induction items as [|e items IHitems]; [discriminate H|].
      cbn [forallb] in H. inversion IH as [|? ? Hhead Htail]; subst.
      cbn [mapM].
      destruct (hasStringForm e) eqn:He.
      - cbn [andb] in H.
        assert (Helem : elementString e
                        = Returns match e with VNull => [] | _ => stringOf e end).
        { destruct e; try reflexivity; now apply ToString_value_stringOf. }
        rewrite Helem. cbn [bind]. now rewrite (IHitems Htail H).
      - assert (Helem : elementString e = Throws TypeError_primitive).
        { destruct e; try discriminate He; now apply Hhead. }
        rewrite Helem. reflexivity. }
    rewrite Hparts. reflexivity.
  - cbn [ToString_value hasStringForm] in *.
    destruct (lookup (u "toString") props); [reflexivity | discriminate H].
Qed.

Lemma ToString_stringOfOpt (v : jsval) :
  hasStringFormOpt v = true -> ToString v = Returns (stringOfOpt v).
Proof. destruct v as [w|]; [apply ToString_value_stringOf | reflexivity]. Qed.

End StringForms.
(* ===================================================================== *)
(** ** Array.prototype.sort: facts *)
(* ===================================================================== *)

Section SortFacts.
Context {A : Type} (comparefn : A -> A -> comparison).

Lemma insert_perm (x : A) (l : list A) :
  Permutation (insert comparefn x l) (x :: l).
Proof.
  induction l as [|y l IH]; simpl; [reflexivity|].
  destruct (comparefn y x); try reflexivity.
  rewrite IH. apply perm_swap.
Qed.

Lemma Array_sort_perm (l : list A) : Permutation (Array_sort comparefn l) l.
Proof.
  induction l as [|x l IH]; simpl; [reflexivity|].
  rewrite insert_perm. now constructor.
Qed.

Lemma Array_sort_In (l : list A) (x : A) :
  In x (Array_sort comparefn l) <-> In x l.
Proof.
  split; apply Permutation_in;
    [apply Array_sort_perm | symmetry; apply Array_sort_perm].
Qed.

Lemma insert_head (x : A) (l : list A) (z : A) :
  HdRel (inOrder comparefn) z l -> inOrder comparefn z x ->
  HdRel (inOrder comparefn) z (insert comparefn x l).
Proof.
  intros Hl Hx. destruct l as [|y l]; simpl.
  - now constructor.
  - inversion Hl; subst. destruct (comparefn y x); now constructor.
Qed.

Lemma insert_sorted (x : A) (l : list A) :
  (forall y, In y l -> comparefn y x = Lt -> comparefn x y <> Lt) ->
  Sorted (inOrder comparefn) l -> Sorted (inOrder comparefn) (insert comparefn x l).
Proof.
  intros Hasym Hl. induction l as [|y l IH]; simpl.
  - repeat constructor.
  - inversion Hl as [|? ? Hs Hh]; subst.
    destruct (comparefn y x) eqn:Hyx.
    + constructor; [exact Hl|]. constructor. unfold inOrder. congruence.
    + constructor.
      * apply IH; [|exact Hs]. intros z Hz. apply Hasym. now right.
      * apply insert_head; [exact Hh|]. apply Hasym; [now left | exact Hyx].
    + constructor; [exact Hl|]. constructor. unfold inOrder. congruence.
Qed.

Lemma Array_sort_sorted (l : list A) :
  asymmetricOn comparefn l -> Sorted (inOrder comparefn) (Array_sort comparefn l).
Proof.
  intro Hasym. induction l as [|x l IH]; simpl; [constructor|].
  apply insert_sorted.
  - intros y Hy. apply Hasym; [now left|].
    right. now apply Array_sort_In.
  - apply IH. intros a b Ha Hb. apply Hasym; now right.
Qed.

(** A list in order is left as it is. *)
Lemma Array_sort_fixed (l : list A) :
  Sorted (inOrder comparefn) l -> Array_sort comparefn l = l.
Proof.
  induction 1 as [|x l Hs IH Hh]; simpl; [reflexivity|].
  rewrite IH. destruct Hh as [|y l' Hxy]; simpl; [reflexivity|].
  unfold inOrder in Hxy. destruct (comparefn y x); congruence.
Qed.

Lemma Array_sort_idempotent (l : list A) :
  asymmetricOn comparefn l ->
  Array_sort comparefn (Array_sort comparefn l) = Array_sort comparefn l.
Proof. intro H. apply Array_sort_fixed. now apply Array_sort_sorted. Qed.

Lemma before_cons (l : list A) (z x y : A) :
  before (z :: l) x y <-> (z = x /\ In y l) \/ before l x y.
Proof.
  split.
  - intros (l1 & l2 & l3 & H). destruct l1 as [|w l1]; simpl in H.
    + injection H as -> ->. left. split; [reflexivity|]. apply in_elt.
    + injection H as -> ->. right. now exists l1, l2, l3.
  - intros [[-> Hin] | (l1 & l2 & l3 & ->)].
    + apply in_split in Hin. destruct Hin as (l2 & l3 & ->).
      now exists [], l2, l3.
    + now exists (z :: l1), l2, l3.
Qed.

Lemma before_In (l : list A) (x y : A) : before l x y -> In x l /\ In y l.
Proof.
  intros (l1 & l2 & l3 & ->). split.
  - apply in_elt.
  - apply in_or_app. right. right. apply in_elt.
Qed.

(** Inserting [x] puts it behind exactly those leading elements that sort
    strictly before it. *)
Lemma insert_before (x : A) (l : list A) (a b : A) :
  before (insert comparefn x l) a b ->
  before l a b
  \/ (a = x /\ In b l)
  \/ (b = x /\ In a l /\ comparefn a x = Lt).
Proof.
  induction l as [|y l IH]; cbn [insert].
  - intros (l1 & l2 & l3 & H). exfalso.
    destruct l1 as [|? [|? ?]]; simpl in H; try discriminate.
    injection H as _ H. now destruct l2.
  - destruct (comparefn y x) eqn:Hyx.
    + intro H. apply before_cons in H. destruct H as [[-> Hin] | H];
        [right; left; now split | now left].
    + intro H. apply before_cons in H. destruct H as [[-> Hin] | H].
      * apply (Permutation_in _ (insert_perm x l)) in Hin.
        destruct Hin as [<- | Hin].
        -- right. right. split; [reflexivity|]. split; [now left | exact Hyx].
        -- left. apply before_cons. now left.
      * destruct (IH H) as [Hb | [[-> Hin] | (-> & Hin & Hlt)]].
        -- left. apply before_cons. now right.
        -- right. left. split; [reflexivity | now right].
        -- right. right. split; [reflexivity|]. split; [now right | exact Hlt].
    + intro H. apply before_cons in H. destruct H as [[-> Hin] | H];
        [right; left; now split | now left].
Qed.

(** Stability: the sort puts [b] in front of [a] only if [b] stood in front
    of [a] already, or if [comparefn(b, a)] is negative. *)
Lemma Array_sort_stable (l : list A) (a b : A) :
  before (Array_sort comparefn l) b a ->
  before l b a \/ (before l a b /\ comparefn b a = Lt).
Proof.
  revert a b. induction l as [|x l IH]; intros a b; simpl.
  - intros (l1 & l2 & l3 & H). now destruct l1.
  - intro H. apply insert_before in H.
    destruct H as [H | [[-> Hin] | (-> & Hin & Hlt)]].
    + destruct (IH _ _ H) as [Hb | [Hb Hlt]].
      * left. apply before_cons. now right.
      * right. split; [|exact Hlt]. apply before_cons. now right.
    + left. apply before_cons. left. split; [reflexivity|].
      now apply Array_sort_In.
    + right. split; [|exact Hlt]. apply before_cons. left.
      split; [reflexivity|]. now apply Array_sort_In.
Qed.

End SortFacts.

(** Sorting commutes with a projection the comparator factors through. *)
Lemma Array_sort_map {A B : Type} (f : A -> B) (comparefn : B -> B -> comparison)
  (l : list A) :
  map f (Array_sort (fun x y => comparefn (f x) (f y)) l)
  = Array_sort comparefn (map f l).
Proof.
  induction l as [|x l IH]; simpl; [reflexivity|].
  rewrite <- IH. generalize (Array_sort (fun x y => comparefn (f x) (f y)) l).
  intro s. induction s as [|y s IHs]; simpl; [reflexivity|].
  destruct (comparefn (f y) (f x)); simpl; try reflexivity.
  now rewrite IHs.
Qed.

(** A comparator that never throws sorts as its pure counterpart. *)
Lemma insertM_pure {A : Type} (comparefnM : A -> A -> outcome comparison)
  (comparefn : A -> A -> comparison) (x : A) (l : list A) :
  (forall y, In y l -> comparefnM y x = Returns (comparefn y x)) ->
  insertM comparefnM x l = Returns (insert comparefn x l).
Proof.
  induction l as [|y l IH]; intro H; simpl; [reflexivity|].
  rewrite H by now left. cbn [bind].
  destruct (comparefn y x); try reflexivity.
  rewrite IH; [reflexivity|]. intros z Hz. apply H. now right.
Qed.

Lemma Array_sortM_pure {A : Type} (comparefnM : A -> A -> outcome comparison)
  (comparefn : A -> A -> comparison) (l : list A) :
  (forall x y, In x l -> In y l -> comparefnM y x = Returns (comparefn y x)) ->
  Array_sortM comparefnM l = Returns (Array_sort comparefn l).
Proof.
  induction l as [|x l IH]; intro H; simpl; [reflexivity|].
  rewrite IH by (intros a b Ha Hb; apply H; now right). cbn [bind].
  apply insertM_pure. intros y Hy. apply H; [now left|].
  right. now apply (Array_sort_In comparefn l y).
Qed.

(** *** Positions *)

Lemma before_tagged {A : Type} (l : list A) (start i j : nat) (a b : A) :
  before (combine (seq start (List.length l)) l) (j, b) (i, a) -> j < i.
Proof.
  revert start. induction l as [|x l IH]; intro start; cbn [List.length seq combine].
  - intros (l1 & l2 & l3 & H). now destruct l1.
  - intro H. apply before_cons in H. destruct H as [[Heq Hin] | H].
    + injection Heq as <- <-. apply in_combine_l in Hin.
      apply in_seq in Hin. lia.
    + now apply (IH (S start)).
Qed.

Lemma map_snd_tagged {A : Type} (l : list A) (start : nat) :
  map snd (combine (seq start (List.length l)) l) = l.
Proof.
  revert start. induction l as [|x l IH]; intro start; [reflexivity|].
  cbn [List.length seq combine map snd]. now rewrite IH.
Qed.

Lemma map_fst_tagged {A : Type} (l : list A) (start : nat) :
  map fst (combine (seq start (List.length l)) l) = seq start (List.length l).
Proof.
  revert start. induction l as [|x l IH]; intro start; [reflexivity|].
  cbn [List.length seq combine map fst]. now rewrite IH.
Qed.

Lemma tagged_In {A : Type} (l : list A) (p : nat * A) :
  In p (tagged l) -> In (snd p) l.
Proof. destruct p as [i a]. apply in_combine_r. Qed.

Lemma before_app_tags {A : Type} (arranged : list (nat * A)) (p q : nat * A) :
  NoDup (map fst arranged) -> before arranged p q -> fst p <> fst q.
Proof.
  intros Hnodup (l1 & l2 & l3 & ->) Heq.
  rewrite map_app in Hnodup. apply NoDup_app_remove_l in Hnodup.
  cbn [map] in Hnodup. apply NoDup_cons_iff in Hnodup.
  destruct Hnodup as [Hnot _]. apply Hnot. rewrite Heq.
  rewrite map_app. apply in_or_app. right. now left.
Qed.

Lemma before_tail {A : Type} (l : list A) (z x y : A) :
  before l x y -> before (z :: l) x y.
Proof. intro H. apply before_cons. now right. Qed.

(** *** The stable sort of a consistent order *)

Section StableSort.
Context {A : Type} (comparefn : A -> A -> comparison).

Let first (a b : A) : Prop := comparefn a b = Lt.

Lemma strictWeak_asymmetric (l : list A) :
  strictWeakOrderOn first l -> asymmetricOn comparefn l.
Proof.
  intros (Hirr & Htrans & _) x y Hx Hy Hyx Hxy.
  exact (Hirr x Hx (Htrans x y x Hx Hy Hx Hxy Hyx)).
Qed.

Lemma strictWeak_incl (l l' : list A) :
  incl l' l -> strictWeakOrderOn first l -> strictWeakOrderOn first l'.
Proof.
  intros Hincl (Hirr & Htrans & Hneg). repeat split.
  - intros a Ha. apply Hirr. now apply Hincl.
  - intros a b c Ha Hb Hc. apply Htrans; now apply Hincl.
  - intros a b c Ha Hb Hc. apply Hneg; now apply Hincl.
Qed.

Lemma inOrder_trans (l : list A) (x y z : A) :
  strictWeakOrderOn first l -> In x l -> In y l -> In z l ->
  inOrder comparefn x y -> inOrder comparefn y z -> inOrder comparefn x z.
Proof.
  intros (_ & _ & Hneg) Hx Hy Hz Hxy Hyz Hzx. unfold inOrder in *.
  destruct (Hneg z x y Hz Hx Hy Hzx) as [H | H]; contradiction.
Qed.

(** In a sorted list every pair is in order, not only neighbours. *)
Lemma Sorted_before (l : list A) :
  strictWeakOrderOn first l -> Sorted (inOrder comparefn) l ->
  forall a b, before l a b -> inOrder comparefn a b.
Proof.
  intros Hweak Hsorted. revert Hweak.
  induction Hsorted as [|x l Hs IH Hh]; intro Hweak.
  - intros a b (l1 & l2 & l3 & H). now destruct l1.
  - assert (Hweak' : strictWeakOrderOn first l).
    { apply (strictWeak_incl (x :: l)); [|exact Hweak].
      intros y Hy. now right. }
    specialize (IH Hweak').
    assert (Hhead : forall b, In b l -> inOrder comparefn x b).
    { destruct Hh as [|y l' Hxy]; [intros b []|].
      intros b [<- | Hb]; [exact Hxy|].
      apply (inOrder_trans (x :: y :: l') x y b Hweak);
        [now left | right; now left | right; now right | exact Hxy |].
      apply IH. apply before_cons. left. now split. }
    intros a b Hab. apply before_cons in Hab.
    destruct Hab as [[<- Hb] | Hab]; [now apply Hhead | now apply IH].
Qed.

End StableSort.

(** The insertion sort sorts stably. *)
Lemma Array_sort_stableSort {A : Type} (comparefn : A -> A -> comparison)
  (l : list A) :
  strictWeakOrderOn (fun a b => comparefn a b = Lt) l ->
  stableSort comparefn l (Array_sort comparefn l).
Proof.
  intro Hweak.
  set (byRow := fun p q : nat * A => comparefn (snd p) (snd q)).
  assert (HweakT : strictWeakOrderOn (fun p q => byRow p q = Lt) (tagged l)).
  { destruct Hweak as (Hirr & Htrans & Hneg). repeat split.
    - intros p Hp. apply Hirr. now apply tagged_In.
    - intros p q r Hp Hq Hr. apply Htrans; now apply tagged_In.
    - intros p q r Hp Hq Hr. apply Hneg; now apply tagged_In. }
  exists (Array_sort byRow (tagged l)).
  split; [apply Array_sort_perm|]. split.
  - unfold byRow. rewrite (Array_sort_map snd comparefn). f_equal.
    apply map_snd_tagged.
  - intros i j a b Hbefore. split.
    + assert (Hsorted : Sorted (inOrder byRow) (Array_sort byRow (tagged l))).
      { apply Array_sort_sorted. now apply strictWeak_asymmetric. }
      assert (HweakS : strictWeakOrderOn (fun p q => byRow p q = Lt)
                         (Array_sort byRow (tagged l))).
      { apply (strictWeak_incl byRow (tagged l)); [|exact HweakT].
        intros p Hp. exact (proj1 (Array_sort_In byRow (tagged l) p) Hp). }
      exact (Sorted_before byRow _ HweakS Hsorted _ _ Hbefore).
    + intro Hji. apply Array_sort_stable in Hbefore.
      destruct Hbefore as [Hb | [_ Hlt]]; [|exact Hlt].
      apply before_tagged in Hb. lia.
Qed.

Section StableSortUnique.
Context {A : Type} (comparefn : A -> A -> comparison) (l : list A).

Let first (a b : A) : Prop := comparefn a b = Lt.

Hypothesis Hweak : strictWeakOrderOn first l.

(** The order of the positions among rows that tie. *)
Let prec (p q : nat * A) : Prop :=
  first (snd p) (snd q) \/ (~ first (snd q) (snd p) /\ fst p < fst q).

Lemma prec_irreflexive (p : nat * A) : In p (tagged l) -> ~ prec p p.
Proof.
  intros Hp [H | [_ H]]; [|lia].
  destruct Hweak as (Hirr & _). apply (Hirr (snd p)); [|exact H].
  now apply tagged_In.
Qed.

Lemma prec_transitive (p q r : nat * A) :
  In p (tagged l) -> In q (tagged l) -> In r (tagged l) ->
  prec p q -> prec q r -> prec p r.
Proof.
  intros Hp Hq Hr. apply tagged_In in Hp, Hq, Hr.
  destruct Hweak as (Hirr & Htrans & Hneg).
  intros [Hpq | [Hqp Hlt1]] [Hqr | [Hrq Hlt2]].
  - left. exact (Htrans _ _ _ Hp Hq Hr Hpq Hqr).
  - destruct (Hneg _ _ (snd r) Hp Hq Hr Hpq) as [H | H];
      [now left | contradiction].
  - destruct (Hneg _ _ (snd p) Hq Hr Hp Hqr) as [H | H];
      [contradiction | now left].
  - right. split; [|lia]. intro Hrp.
    destruct (Hneg _ _ (snd q) Hr Hp Hq Hrp) as [H | H]; contradiction.
Qed.

Lemma arranged_prec (arranged : list (nat * A)) :
  Permutation arranged (tagged l) ->
  (forall i j a b, before arranged (i, a) (j, b) ->
     comparefn b a <> Lt /\ (j < i -> comparefn a b = Lt)) ->
  forall p q, before arranged p q -> prec p q.
Proof.
  intros Hperm Hstable [i a] [j b] Hbefore.
  assert (Hnodup : NoDup (map fst arranged)).
  { apply (Permutation_NoDup (l := map fst (tagged l))).
    - apply Permutation_map. now symmetry.
    - unfold tagged. rewrite map_fst_tagged. apply seq_NoDup. }
  pose proof (before_app_tags arranged _ _ Hnodup Hbefore) as Hne.
  destruct (Hstable i j a b Hbefore) as [Hord Hstab]. cbn [fst snd] in *.
  unfold prec, first. cbn [fst snd].
  destruct (comparefn a b) eqn:Hab; try (now left);
    right; (split; [exact Hord|]);
    destruct (Nat.lt_ge_cases j i) as [Hlt | Hge];
    try (specialize (Hstab Hlt); discriminate Hstab); lia.
Qed.

Lemma prec_sorted_unique (a1 a2 : list (nat * A)) :
  Permutation a1 a2 -> incl a1 (tagged l) ->
  (forall p q, before a1 p q -> prec p q) ->
  (forall p q, before a2 p q -> prec p q) ->
  a1 = a2.
Proof.
  revert a2. induction a1 as [|x a1 IH]; intros a2 Hperm Hincl H1 H2.
  - apply Permutation_nil in Hperm. now subst.
  - destruct a2 as [|y a2];
      [apply Permutation_sym, Permutation_nil in Hperm; discriminate|].
    assert (Hxy : x = y).
    { assert (Hx : In x (y :: a2))
        by (eapply Permutation_in; [exact Hperm | now left]).
      destruct Hx as [Hx | Hx]; [now symmetry|].
      assert (Hy : In y (x :: a1))
        by (eapply Permutation_in; [symmetry; exact Hperm | now left]).
      destruct Hy as [Hy | Hy]; [exact Hy|]. exfalso.
      assert (Hyx : prec y x) by (apply H2, before_cons; left; now split).
      assert (Hxy : prec x y) by (apply H1, before_cons; left; now split).
      apply (prec_irreflexive x); [apply Hincl; now left|].
      apply (prec_transitive x y x); auto.
      - apply Hincl. now left.
      - apply Hincl. now right.
      - apply Hincl. now left. }
    subst y. f_equal. apply IH.
    + now apply Permutation_cons_inv in Hperm.
    + intros p Hp. apply Hincl. now right.
    + intros p q Hpq. now apply H1, before_tail.
    + intros p q Hpq. now apply H2, before_tail.
Qed.

(** A consistent order has one stable sort. *)
Lemma stableSort_unique (s1 s2 : list A) :
  stableSort comparefn l s1 -> stableSort comparefn l s2 -> s1 = s2.
Proof.
  intros (a1 & Hp1 & <- & H1) (a2 & Hp2 & <- & H2). f_equal.
  apply prec_sorted_unique.
  - rewrite Hp1. now symmetry.
  - intros p Hp. eapply Permutation_in; [exact Hp1 | exact Hp].
  - now apply arranged_prec.
  - now apply arranged_prec.
Qed.

End StableSortUnique.

(** For a comparator that returns and orders the rows consistently, the
    engine returns the rows as the insertion sort leaves them. *)
Lemma Array_sort_comparefn_sorts {E : Engine} {L : EngineLaws E}
  (comparefnM : value -> value -> outcome comparison)
  (comparefn : value -> value -> comparison) (l : list value) :
  (forall a b, In a l -> In b l -> comparefnM a b = Returns (comparefn a b)) ->
  strictWeakOrderOn (fun a b => comparefn a b = Lt) l ->
  Array_sort_comparefn comparefnM l = Returns (Array_sort comparefn l).
Proof.
  intros Hpure Hweak.
  destruct (Array_sort_comparefn_stable comparefnM comparefn l Hpure Hweak)
    as (sorted & Hsorted & Hstable).
  rewrite Hsorted. f_equal.
  apply (stableSort_unique comparefn l Hweak); [exact Hstable|].
  now apply Array_sort_stableSort.
Qed.
(* ===================================================================== *)
(** ** The reference engine satisfies the laws *)
(* ===================================================================== *)

Lemma reference_numberToString_integer (radix : N) (z : Z) :
  Reference.numberToString radix (JSNumber.of_Z z) = JSString.of_Z_radix radix z.
Proof.
  unfold Reference.numberToString, JSNumber.of_Z.
  assert (Habs : Qabs (inject_Z z) = inject_Z (Z.abs z)) by reflexivity.
  rewrite Habs, Qfloor_Z.
  assert (Hfrac : Qeq_bool (Qred (inject_Z (Z.abs z) - inject_Z (Z.abs z))%Q) 0%Q
                  = true).
  { apply Qeq_bool_iff. rewrite Qred_correct. ring. }
  rewrite Hfrac, app_nil_r.
  destruct z as [|p|p].
  - reflexivity.
  - reflexivity.
  - reflexivity.
Qed.

Lemma compare_le_trans (a b c : jsstring) :
  JSString.compare a b <> Gt -> JSString.compare b c <> Gt ->
  JSString.compare a c <> Gt.
Proof.
  intros Hab Hbc.
  destruct (JSString.compare a b) eqn:H1; [| |congruence].
  - apply compare_eq in H1. now subst.
  - destruct (JSString.compare b c) eqn:H2; [| |congruence].
    + apply compare_eq in H2. subst. congruence.
    + rewrite (compare_lt_trans a b c H1 H2). discriminate.
Qed.

#[export] Instance reference_laws : EngineLaws Reference.engine.
Proof.
  split.
  - intros a b. apply compare_antisym.
  - intros a b c. apply compare_le_trans.
  - intros radix z _. apply reference_numberToString_integer.
  - intros comparefnM comparefn l Hpure Hweak.
    exists (Array_sort comparefn l). split.
    + apply Array_sortM_pure. intros x y Hx Hy. now apply Hpure.
    + now apply Array_sort_stableSort.
Qed.
(* ===================================================================== *)
(** ** Column widths *)
(* ===================================================================== *)

(** C3, as stated, fails: two columns of optimal widths 100 and 300 in a
    container of 360 pixels are assigned 100 and 225, which neither fit the
    300 pixels available nor are both the minimum. *)
Lemma widthPlanInvariant_fails :
  ~ Spec.widthPlanInvariant TableRenderer.tableSettings
      [JSNumber.of_Z 100; JSNumber.of_Z 300] (JSNumber.of_Z 360).
Proof.
  unfold Spec.widthPlanInvariant. intros [Hfits | Hall].
  - vm_compute in Hfits. discriminate.
  - inversion Hall as [|? ? _ Hrest]; subst.
    inversion Hrest as [|? ? Heq _]; subst.
    vm_compute in Heq. discriminate.
Qed.

(** The sum the program computes is the sum of the rationals. *)
Lemma totalOf_sumOf (qs : list Q) (a : Q) :
  exists t,
    fold_left JSNumber.add (map Finite qs) (Finite a) = Finite t
    /\ (t == a + Spec.sumOf qs)%Q.
Proof.
  revert a. induction qs as [|q qs IH]; intro a; cbn [map fold_left Spec.sumOf fold_right].
  - exists a. split; [reflexivity | ring].
  - destruct (IH (Qred (a + q))) as (t & Ht & Heq).
    exists t. split; [exact Ht|].
    rewrite Heq, Qred_correct. fold (Spec.sumOf qs). ring.
Qed.

Lemma sumOf_positive (qs : list Q) :
  Forall (fun q => (0 < q)%Q) qs -> qs <> [] -> (0 < Spec.sumOf qs)%Q.
Proof.
  intros Hpos Hne. destruct qs as [|q qs]; [congruence|]. clear Hne.
  inversion Hpos as [|? ? Hq Hrest]; subst. cbn [Spec.sumOf fold_right].
  assert (H0 : (0 <= Spec.sumOf qs)%Q).
  { clear Hq Hpos. induction Hrest as [|x qs Hx _ IH]; cbn [Spec.sumOf fold_right].
    - apply Qle_refl.
    - fold (Spec.sumOf qs). fold (Spec.sumOf qs) in IH. lra. }
  fold (Spec.sumOf qs). lra.
Qed.

(** The whole pixels of the scaled widths add up to no more than the
    scaled sum. *)
Lemma sumOf_floors (qs : list Q) (ratio : Q) :
  (Spec.sumOf (map (fun q => inject_Z (Qfloor (q * ratio))) qs)
   <= ratio * Spec.sumOf qs)%Q.
Proof.
  induction qs as [|q qs IH]; cbn [map Spec.sumOf fold_right].
  - lra.
  - fold (Spec.sumOf qs).
    fold (Spec.sumOf (map (fun q => inject_Z (Qfloor (q * ratio))) qs)).
    fold (Spec.sumOf qs) in IH.
    fold (Spec.sumOf (map (fun q => inject_Z (Qfloor (q * ratio))) qs)) in IH.
    pose proof (Qfloor_le (q * ratio)) as Hfloor.
    setoid_replace (ratio * (q + Spec.sumOf qs))%Q
      with (q * ratio + ratio * Spec.sumOf qs)%Q by ring.
    lra.
Qed.

(** One scaled width, as the program computes it. *)
Lemma scaled_width (m q ratio : Q) :
  JSNumber.max2 (Finite m) (JSNumber.floor (JSNumber.mul (Finite q) (Finite ratio)))
  = Spec.clamped m (Qfloor (q * ratio)).
Proof.
  unfold JSNumber.mul, JSNumber.floor, Spec.clamped.
  rewrite (Qfloor_comp _ _ (Qred_correct (q * ratio))).
  unfold JSNumber.max2, JSNumber.of_Z, JSNumber.ltb. reflexivity.
Qed.

(** The widths the program assigns, for positive optimal widths: unchanged
    when their sum is at most the available width, and otherwise the larger
    of the minimum and the whole pixels of the scaled width. *)
Lemma adjustColumnWidths_exact :
  forall (settings : TableRenderer.TableSettings) (qs : list Q) (c m : Q),
    TableRenderer.minColumnWidth settings = Finite m ->
    Forall (fun q => (0 < q)%Q) qs ->
    qs <> [] ->
    let total := Spec.sumOf qs in
    let available := (c - 60)%Q in
    let adjusted :=
      TableRenderer.adjustColumnWidths settings (map Finite qs) (Finite c) in
    ((total <= available)%Q ->
       adjusted = map Finite qs /\ Spec.fits adjusted (Finite c))
    /\ ((available < total)%Q ->
          adjusted
          = map (fun q => Spec.clamped m (Qfloor (q * (available / total)))) qs
          /\ (Spec.fits adjusted (Finite c)
              \/ Exists (fun w => w = TableRenderer.minColumnWidth settings)
                        adjusted)
          /\ Forall (fun w => JSNumber.leb (TableRenderer.minColumnWidth settings) w
                              = true) adjusted).
Proof.
  intros settings qs c m Hmin Hpos Hne total available adjusted.
  destruct (totalOf_sumOf qs 0) as (t & Ht & Htotal).
  assert (Htt : (t == total)%Q) by (rewrite Htotal; unfold total; ring).
  assert (Hpositive : (0 < total)%Q) by now apply sumOf_positive.
  assert (Hunfold :
            adjusted
            = if Qle_bool t (Qred (c - 60))
              then map Finite qs
              else map (fun width =>
                          JSNumber.max2 (Finite m)
                            (JSNumber.floor
                               (JSNumber.mul width
                                  (JSNumber.div (Finite (Qred (c - 60))) (Finite t)))))
                       (map Finite qs)).
  { unfold adjusted, TableRenderer.adjustColumnWidths. cbv zeta.
    change (JSNumber.of_Z 0) with (Finite 0). rewrite Ht, Hmin. reflexivity. }
  split.
  - intro Hfit.
    assert (Hb : Qle_bool t (Qred (c - 60)) = true).
    { apply Qle_bool_iff. rewrite Qred_correct, Htt. exact Hfit. }
    rewrite Hb in Hunfold. split; [exact Hunfold|].
    rewrite Hunfold. unfold Spec.fits, Spec.totalOf.
    change (JSNumber.of_Z 0) with (Finite 0). rewrite Ht. exact Hb.
  - intro Hwide.
    assert (Hb : Qle_bool t (Qred (c - 60)) = false).
    { destruct (Qle_bool t (Qred (c - 60))) eqn:Hb; [|reflexivity].
      apply Qle_bool_iff in Hb. rewrite Qred_correct, Htt in Hb.
      unfold available in Hwide. lra. }
    rewrite Hb in Hunfold.
    assert (Ht0 : Qeq_bool t 0 = false).
    { destruct (Qeq_bool t 0) eqn:H0; [|reflexivity].
      apply Qeq_bool_iff in H0. rewrite Htt in H0. lra. }
    assert (Hformula :
              adjusted
              = map (fun q => Spec.clamped m (Qfloor (q * (available / total)))) qs).
    { rewrite Hunfold, map_map. apply map_ext. intro q.
      unfold JSNumber.div. rewrite Ht0. rewrite scaled_width. f_equal.
      apply Qfloor_comp. rewrite Qred_correct.
      unfold available. rewrite Htt, Qred_correct. reflexivity. }
    split; [exact Hformula|]. split.
    + set (ratio := (available / total)%Q) in *.
      destruct (forallb (fun q => JSNumber.Qltb m (inject_Z (Qfloor (q * ratio)))) qs)
        eqn:Hall.
      * left. rewrite Hformula.
        assert (Hmap : map (fun q => Spec.clamped m (Qfloor (q * ratio))) qs
                       = map Finite (map (fun q => inject_Z (Qfloor (q * ratio))) qs)).
        { rewrite map_map. apply map_ext_in. intros q Hq.
          rewrite forallb_forall in Hall. unfold Spec.clamped.
          now rewrite (Hall q Hq). }
        rewrite Hmap. unfold Spec.fits, Spec.totalOf.
        change (JSNumber.of_Z 0) with (Finite 0).
        destruct (totalOf_sumOf (map (fun q => inject_Z (Qfloor (q * ratio))) qs) 0)
          as (s & Hs & Hsum).
        rewrite Hs. cbn [JSNumber.sub JSNumber.leb].
        apply Qle_bool_iff. rewrite Hsum.
        change (JSNumber.of_Z 60) with (Finite 60).
        pose proof (sumOf_floors qs ratio) as Hfloors.
        assert (Hscaled : (ratio * Spec.sumOf qs == available)%Q).
        { unfold ratio. fold total. field. lra. }
        cbn [JSNumber.sub]. rewrite Qred_correct.
        unfold available in Hscaled. rewrite Hscaled in Hfloors.
        set (floors := Spec.sumOf _) in *.
        change (inject_Z 60) with 60%Q. lra.
      * right. rewrite Hformula, Hmin.
        apply Exists_exists.
        assert (Hex : exists q, In q qs
                                /\ JSNumber.Qltb m (inject_Z (Qfloor (q * ratio)))
                                   = false).
        { clearbody ratio. clear - Hall.
          induction qs as [|q qs IH]; [discriminate Hall|].
          cbn [forallb] in Hall.
          destruct (JSNumber.Qltb m (inject_Z (Qfloor (q * ratio)))) eqn:Hq.
          - destruct (IH Hall) as (x & Hx & Hlt). exists x. split; [now right | exact Hlt].
          - exists q. split; [now left | exact Hq]. }
        destruct Hex as (q & Hq & Hlt).
        exists (Spec.clamped m (Qfloor (q * ratio))). split.
        -- apply in_map_iff. now exists q.
        -- unfold Spec.clamped. now rewrite Hlt.
    + rewrite Hformula, Hmin. apply Forall_map. apply Forall_forall.
      intros q _. unfold Spec.clamped.
      destruct (JSNumber.Qltb m (inject_Z (Qfloor (q * (available / total))))) eqn:Hlt.
      * cbn [JSNumber.leb JSNumber.of_Z]. apply Qle_bool_iff.
        apply Qltb_lt in Hlt. lra.
      * cbn [JSNumber.leb]. apply Qle_bool_iff. lra.
Qed.

(** C3, amended: positive optimal widths in whole pixels whose sum is at
    most the available width, the container width less 60, are assigned
    unchanged and fit.  Otherwise every column is assigned the larger of the
    minimum column width and its scaled width [width * available / sum] in
    whole pixels, and the assigned widths fit the available width, or else
    at least one column is at the minimum; none is below it. *)
Theorem adjustColumnWidths_scales_or_clamps :
  forall (settings : TableRenderer.TableSettings) (zs : list Z) (c : Z) (m : Q),
    TableRenderer.minColumnWidth settings = Finite m ->
    Forall (fun z => (0 < z)%Z) zs ->
    zs <> [] ->
    let total := Spec.sumOf (map inject_Z zs) in
    let available := (inject_Z c - 60)%Q in
    let adjusted :=
      TableRenderer.adjustColumnWidths settings (map JSNumber.of_Z zs)
                                       (JSNumber.of_Z c) in
    ((total <= available)%Q ->
       adjusted = map JSNumber.of_Z zs
       /\ Spec.fits adjusted (JSNumber.of_Z c))
    /\ ((available < total)%Q ->
          Forall2 (Spec.scaled m available total) zs adjusted
          /\ (Spec.fits adjusted (JSNumber.of_Z c)
              \/ Exists (fun w => w = TableRenderer.minColumnWidth settings)
                        adjusted)
          /\ Forall (fun w => JSNumber.leb (TableRenderer.minColumnWidth settings) w
                              = true) adjusted).
Proof.
  intros settings zs c m Hmin Hpos Hne total available adjusted.
  assert (Hwidths : map JSNumber.of_Z zs = map Finite (map inject_Z zs))
    by now rewrite map_map.
  assert (Hqs : Forall (fun q => (0 < q)%Q) (map inject_Z zs)).
  { apply Forall_map. eapply Forall_impl; [|exact Hpos].
    intros z Hz. cbv beta in *. unfold Qlt. cbn. lia. }
  assert (Hnonempty : map inject_Z zs <> [])
    by (destruct zs; [congruence | discriminate]).
  destruct (adjustColumnWidths_exact settings (map inject_Z zs) (inject_Z c) m
              Hmin Hqs Hnonempty) as [Hfit Hwide].
  subst adjusted. change (JSNumber.of_Z c) with (Finite (inject_Z c)).
  rewrite Hwidths. split; [exact Hfit|].
  intro Hlt. destruct (Hwide Hlt) as (Hformula & Hsum & Hleast).
  split; [|split; [exact Hsum | exact Hleast]].
  fold total available in Hformula |- *. rewrite Hformula, map_map.
  assert (Hpositive : (0 < total)%Q) by now apply sumOf_positive.
  clearbody total available. clear - Hpositive.
  induction zs as [|z zs IH]; cbn [map]; constructor; [|exact IH].
  exists (Qfloor (inject_Z z * (available / total))). split; [reflexivity|].
  pose proof (Qfloor_le (inject_Z z * (available / total))) as Hle.
  pose proof (Qlt_floor (inject_Z z * (available / total))) as Hlt.
  rewrite inject_Z_plus in Hlt.
  assert (Heq : (inject_Z z * available / total
                 == inject_Z z * (available / total))%Q) by (field; lra).
  rewrite Heq. change (inject_Z 1) with 1%Q in Hlt. split; lra.
Qed.

(** The amended C3 at the default settings, widths 100 and 300, and a
    container of 360 pixels: the widths are scaled, and one column is at the
    minimum. *)
Lemma adjustColumnWidths_scales_or_clamps_witness :
  Forall2 (Spec.scaled 100 (inject_Z 360 - 60)
             (Spec.sumOf (map inject_Z [100; 300]%Z)))
          [100; 300]%Z
          (TableRenderer.adjustColumnWidths TableRenderer.tableSettings
             (map JSNumber.of_Z [100; 300]%Z) (JSNumber.of_Z 360))
  /\ Exists (fun w => w = TableRenderer.minColumnWidth TableRenderer.tableSettings)
            (TableRenderer.adjustColumnWidths TableRenderer.tableSettings
               (map JSNumber.of_Z [100; 300]%Z) (JSNumber.of_Z 360)).
Proof.
  destruct (adjustColumnWidths_scales_or_clamps TableRenderer.tableSettings
              [100; 300]%Z 360%Z 100%Q
              eq_refl
              ltac:(repeat constructor)
              ltac:(discriminate))
    as [_ Hscaled].
  destruct (Hscaled ltac:(vm_compute; reflexivity)) as (Hformula & Hsum & _).
  split; [exact Hformula|].
  destruct Hsum as [Hfits | Hmin]; [|exact Hmin].
  vm_compute in Hfits. discriminate Hfits.
Defined.

(** The widths 100 and 300 in a container of 360 pixels become 100 and
    225. *)
Example adjustColumnWidths_example :
  TableRenderer.adjustColumnWidths TableRenderer.tableSettings
    [JSNumber.of_Z 100; JSNumber.of_Z 300] (JSNumber.of_Z 360)
  = [JSNumber.of_Z 100; JSNumber.of_Z 225].
Proof. vm_compute. reflexivity. Qed.
(* ===================================================================== *)
(** ** Objects that hold arrays (rule 2a) *)
(* ===================================================================== *)

Lemma firstLongest_unique (arrays : list (list value)) (a b : list value) :
  Spec.firstLongest arrays a -> Spec.firstLongest arrays b -> a = b.
Proof.
  intros (pa & qa & Ha & Hpa & Hqa) (pb & qb & Hb & Hpb & Hqb).
  subst arrays. revert pb Hb Hpb.
  induction pa as [|x pa IH]; intros pb Hb Hpb.
  - destruct pb as [|y pb]; simpl in Hb.
    + now injection Hb.
    + injection Hb as Hh Hq. subst y. exfalso.
      inversion Hpb as [|? ? Hlt _]; subst.
      assert (Hin : In b (pb ++ b :: qb)) by apply in_elt.
      rewrite Forall_forall in Hqa. specialize (Hqa _ Hin). lia.
  - destruct pb as [|y pb]; simpl in Hb.
    + injection Hb as Hh Hq. subst x. exfalso.
      inversion Hpa as [|? ? Hlt _]; subst.
      assert (Hin : In a (pa ++ a :: qa)) by apply in_elt.
      rewrite Forall_forall in Hqb. specialize (Hqb _ Hin). lia.
    + injection Hb as Hh Hq. subst y.
      inversion Hpa; subst. inversion Hpb; subst.
      now apply (IH H2 pb).
Qed.

Lemma firstLongest_bound (arrays : list (list value)) (a : list value) :
  Spec.firstLongest arrays a ->
  Forall (fun b => List.length b <= List.length a) arrays.
Proof.
  intros (p & q & -> & Hp & Hq).
  apply Forall_app. split.
  - eapply Forall_impl; [|exact Hp]. intros; cbv beta in *; lia.
  - constructor; [lia | exact Hq].
Qed.

Lemma longestOf_invariant (rest done : list (list value)) (longest : list value) :
  Spec.firstLongest done longest ->
  Spec.firstLongest (done ++ rest) (JSONParser.longestOf longest rest).
Proof.
  revert done longest. induction rest as [|c rest IH]; intros done longest H.
  - rewrite app_nil_r. exact H.
  - unfold JSONParser.longestOf in *. simpl.
    replace (done ++ c :: rest) with ((done ++ [c]) ++ rest)
      by (now rewrite <- app_assoc).
    apply IH.
    destruct (List.length longest <? List.length c) eqn:Hlt.
    + apply Nat.ltb_lt in Hlt.
      exists done, []. split; [reflexivity|]. split; [|constructor].
      eapply Forall_impl; [|exact (firstLongest_bound _ _ H)].
      intros; cbv beta in *; lia.
    + apply Nat.ltb_ge in Hlt.
      destruct H as (p & q & -> & Hp & Hq).
      exists p, (q ++ [c]). split; [now rewrite <- app_assoc|].
      split; [exact Hp|]. apply Forall_app. split; [exact Hq|].
      constructor; [lia | constructor].
Qed.

Lemma longestOf_firstLongest (a0 : list value) (rest : list (list value)) :
  Spec.firstLongest (a0 :: rest) (JSONParser.longestOf a0 rest).
Proof.
  apply (longestOf_invariant rest [a0]).
  exists [], []. repeat split; constructor.
Qed.

(** C2, as stated, fails: for [{"a": []}] rule 1 gives no rows for the
    longest array [[]], while the object is rendered as the one row
    [{key: "a", value: []}]. *)
Lemma extractTableData_empty_array_property :
  ~ @Spec.recursesIntoLongestArray Reference.engine (VObj [(u "a", VArr [])]).
Proof.
  intro H.
  assert (Hl : Spec.firstLongest
                 (JSONParser.arrayValues (VObj [(u "a", VArr [])])) []).
  { exists [], []. repeat split; constructor. }
  specialize (H [] Hl). vm_compute in H. discriminate.
Qed.

(** C2, amended: for an object with an array among its property values, let
    [a] be the longest such array, the first one among equals.  If the first
    element of [a] is a plain object, the rows are [a] itself; if it is a
    primitive, they are the [{index, value}] rows of [a]; in both cases they
    are the rows rule 1 gives for [a], whatever the sibling properties.  If
    [a] is empty, the object falls through to rules 2b and 2c.  The object
    [{"users": [{"id": 1}], "settings": {"x": 1}}] yields the single row
    [{"id": 1}]. *)
Theorem extractTableData_object_with_arrays :
  forall (E : Engine) (props : list (jsstring * value)) (a : list value),
    Spec.firstLongest (JSONParser.arrayValues (VObj props)) a ->
    (forall first rest, a = first :: rest -> isPlainObject first = true ->
       JSONParser.extractTableData (VObj props) = Returns a
       /\ JSONParser.extractTableData (VArr a) = Returns a)
    /\ (forall first rest, a = first :: rest -> typeofObject first = false ->
          JSONParser.extractTableData (VObj props)
          = Returns (JSONParser.indexValueRows a)
          /\ JSONParser.extractTableData (VArr a)
             = Returns (JSONParser.indexValueRows a))
    /\ (a = [] ->
          JSONParser.extractTableData (VObj props)
          = Returns (JSONParser.objectRows (VObj props)))
    /\ JSONParser.extractTableData Spec.usersAndSettings
       = Returns [VObj [(u "id", VNum (JSNumber.of_Z 1))]].
Proof.
  intros E props a Ha.
  assert (Hsel : match JSONParser.arrayValues (VObj props) with
                 | [] => False
                 | a0 :: rest => JSONParser.longestOf a0 rest = a
                 end).
  { destruct (JSONParser.arrayValues (VObj props)) as [|a0 rest] eqn:Harr.
    - destruct Ha as (p & q & Hnil & _). now destruct p.
    - eapply firstLongest_unique; [apply longestOf_firstLongest | exact Ha]. }
  unfold JSONParser.extractTableData.
  destruct (JSONParser.arrayValues (VObj props)) as [|a0 rest]; [contradiction|].
  rewrite Hsel. clear Hsel Ha.
  split; [|split; [|split]].
  - intros first rest' -> Hobj. cbv iota beta. now rewrite Hobj.
  - intros first rest' -> Hprim. cbv iota beta.
    destruct first; simpl in Hprim; try discriminate; split; reflexivity.
  - intros ->. reflexivity.
  - reflexivity.
Qed.

(** The amended C2 at [{"users": [{"id": 1}], "settings": {"x": 1}}]. *)
Lemma extractTableData_object_with_arrays_witness :
  @JSONParser.extractTableData Reference.engine Spec.usersAndSettings
  = Returns [VObj [(u "id", VNum (JSNumber.of_Z 1))]]
  /\ @JSONParser.extractTableData Reference.engine
       (VArr [VObj [(u "id", VNum (JSNumber.of_Z 1))]])
     = Returns [VObj [(u "id", VNum (JSNumber.of_Z 1))]].
Proof.
  refine (proj1 (extractTableData_object_with_arrays Reference.engine
    [(u "users", VArr [VObj [(u "id", VNum (JSNumber.of_Z 1))]]);
     (u "settings", VObj [(u "x", VNum (JSNumber.of_Z 1))])]
    [VObj [(u "id", VNum (JSNumber.of_Z 1))]] _)
    (VObj [(u "id", VNum (JSNumber.of_Z 1))]) [] eq_refl eq_refl).
  exists [], []. repeat split; constructor.
Defined.
(* ===================================================================== *)
(** ** Arrays of arrays (rule 1c) *)
(* ===================================================================== *)

Lemma arrayRow_columns (cell : nat -> value) (n start : nat)
  (acc : list (jsstring * value)) :
  Forall (fun entry => forall j, start <= j ->
                                 JSString.eqb (fst entry) (JSONParser.columnKey j) = false)
         acc ->
  fold_left (fun row i => assign row (JSONParser.columnKey i) (cell i))
            (seq start n) acc
  = acc ++ map (fun i => (JSONParser.columnKey i, cell i)) (seq start n).
Proof.
  revert start acc. induction n as [|n IH]; intros start acc Hacc; simpl.
  - now rewrite app_nil_r.
  - rewrite assign_fresh.
    + rewrite IH.
      * now rewrite <- app_assoc.
      * apply Forall_app. split.
        -- eapply Forall_impl; [|exact Hacc]. intros entry H j Hj.
           apply H. lia.
        -- constructor; [|constructor]. intros j Hj. cbn [fst].
           apply eqb_neq. intro Heq. apply columnKey_inj in Heq. lia.
    + eapply Forall_impl; [|exact Hacc]. intros entry H. now apply H.
Qed.

Lemma get_own_array_index (l : list value) (i : nat) :
  get_own (VArr l) (JSString.of_nat i) = nth_error l i.
Proof.
  unfold get_own. now rewrite of_nat_not_length, to_index_of_nat.
Qed.

Lemma nth_error_default (l : list value) (i : nat) :
  match nth_error l i with Some v => v | None => VNull end = nth i l VNull.
Proof.
  revert i. induction l as [|x l IH]; intros [|i]; simpl; auto.
Qed.

Lemma arrayRow_paddedRow (n i : nat) (l : list value) :
  JSONParser.arrayRow n i (VArr l) = Spec.paddedRow n i l.
Proof.
  unfold JSONParser.arrayRow, Spec.paddedRow. f_equal.
  rewrite (arrayRow_columns
             (fun j => match get_own (VArr l) (JSString.of_nat j) with
                       | Some v => v
                       | None => VNull
                       end)).
  - cbn [app]. f_equal. apply map_ext. intro j.
    now rewrite get_own_array_index, nth_error_default.
  - constructor; [|constructor]. intros j _. apply columnKey_not_rowIndex.
Qed.

(** *** The longest row *)

Lemma max2_of_nat (a b : nat) :
  JSNumber.max2 (JSNumber.of_nat a) (JSNumber.of_nat b) = JSNumber.of_nat (Nat.max a b).
Proof.
  unfold JSNumber.max2, JSNumber.of_nat, JSNumber.of_Z, JSNumber.ltb.
  destruct (JSNumber.Qltb (inject_Z (Z.of_nat a)) (inject_Z (Z.of_nat b))) eqn:H.
  - apply Qltb_lt in H. rewrite <- Zlt_Qlt in H.
    now rewrite Nat.max_r by lia.
  - apply Qltb_ge in H. rewrite <- Zle_Qle in H.
    now rewrite Nat.max_l by lia.
Qed.

Lemma fold_right_max_init (ns : list nat) (m n : nat) :
  fold_right Nat.max (Nat.max m n) ns = Nat.max n (fold_right Nat.max m ns).
Proof.
  induction ns as [|k ns IH]; cbn [fold_right]; [apply Nat.max_comm|].
  rewrite IH. lia.
Qed.

Lemma max_of_lengths (ns : list nat) (m : nat) :
  fold_left JSNumber.max2 (map JSNumber.of_nat ns) (JSNumber.of_nat m)
  = JSNumber.of_nat (fold_right Nat.max m ns).
Proof.
  revert m. induction ns as [|n ns IH]; intro m; cbn [map fold_left fold_right];
    [reflexivity|].
  now rewrite max2_of_nat, IH, fold_right_max_init.
Qed.

Lemma iterations_of_nat (n : nat) :
  JSNumber.iterations (JSNumber.of_nat n) = Some n.
Proof.
  unfold JSNumber.iterations, JSNumber.of_nat, JSNumber.of_Z.
  now rewrite Qceiling_Z, Nat2Z.id.
Qed.

Lemma lookup_columns (cell : nat -> value) (n start j : nat) :
  start <= j < start + n ->
  lookup (JSONParser.columnKey j)
         (map (fun i => (JSONParser.columnKey i, cell i)) (seq start n))
  = Some (cell j).
Proof.
  revert start. induction n as [|n IH]; intros start Hj; [lia|].
  cbn [seq map lookup].
  destruct (JSString.eqb (JSONParser.columnKey start) (JSONParser.columnKey j)) eqn:Hk.
  - apply eqb_eq, columnKey_inj in Hk. now subst.
  - apply IH. apply eqb_neq in Hk.
    assert (start <> j) by (intro; subst; contradiction). lia.
Qed.

Lemma maxLen_bound (arrays : list (list value)) (arr : list value) :
  In arr arrays -> List.length arr <= Spec.maxLen arrays.
Proof.
  unfold Spec.maxLen. induction arrays as [|a arrays IH]; intro Hin;
    [contradiction|].
  cbn [map fold_right]. destruct Hin as [-> | Hin]; [lia|].
  specialize (IH Hin). lia.
Qed.

Lemma mapM_length_arrays {E : Engine} (arrays : list (list value)) :
  mapM (fun arr => Get arr (u "length")) (map VArr arrays)
  = Returns (map (fun l => Some (VNum (JSNumber.of_nat (List.length l)))) arrays).
Proof.
  induction arrays as [|l arrays IH]; cbn [map mapM]; [reflexivity|].
  rewrite IH. reflexivity.
Qed.

Lemma mapM_ToNumber_lengths {E : Engine} (arrays : list (list value)) :
  mapM ToNumber
       (map (fun l => Some (VNum (JSNumber.of_nat (List.length l)))) arrays)
  = Returns (map (fun l => JSNumber.of_nat (List.length l)) arrays).
Proof.
  induction arrays as [|l arrays IH]; cbn [map mapM]; [reflexivity|].
  rewrite IH. reflexivity.
Qed.

Lemma max_lengths_arrays (arrays : list (list value)) :
  arrays <> [] ->
  JSNumber.max (map (fun l => JSNumber.of_nat (List.length l)) arrays)
  = JSNumber.of_nat (Spec.maxLen arrays).
Proof.
  destruct arrays as [|l arrays]; [congruence|]. intros _.
  unfold JSNumber.max, Spec.maxLen. cbn [map fold_left].
  change (JSNumber.max2 NegInf (JSNumber.of_nat (List.length l)))
    with (JSNumber.of_nat (List.length l)).
  rewrite <- (map_map (@List.length value) JSNumber.of_nat).
  rewrite max_of_lengths. f_equal. cbn [fold_right].
  generalize (map (@List.length value) arrays). intro ns.
  induction ns as [|k ns IH]; cbn [fold_right]; [lia|]. rewrite IH. lia.
Qed.

(** C5: the claim fails on [[[1, 2], 5]].  The first element is an
    array, and the greatest length of an element array is 2; but
    [Math.max(2, undefined)] is [NaN], the loop over the columns never runs,
    and both rows consist of [_rowIndex] alone: the row of [[1, 2]] has no
    cell for [column_0] nor for [column_1]. *)
Theorem extractTableData_mixed_rows_without_columns :
  forall E : Engine,
    let items :=
      [VArr [VNum (JSNumber.of_Z 1); VNum (JSNumber.of_Z 2)];
       VNum (JSNumber.of_Z 5)] in
    JSONParser.extractTableData (VArr items)
    = Returns [VObj [(u "_rowIndex", VNum (JSNumber.of_nat 0))];
               VObj [(u "_rowIndex", VNum (JSNumber.of_nat 1))]]
    /\ Spec.maxLen (Spec.elementArrays items) = 2
    /\ ~ Spec.raggedRowsPadded items.
Proof.
  intros E items.
  assert (Hrows : JSONParser.extractTableData (VArr items)
                  = Returns [VObj [(u "_rowIndex", VNum (JSNumber.of_nat 0))];
                             VObj [(u "_rowIndex", VNum (JSNumber.of_nat 1))]])
    by reflexivity.
  split; [exact Hrows|]. split; [reflexivity|].
  unfold Spec.raggedRowsPadded. intro H.
  destruct (H eq_refl) as (rows & Hrows' & Hall).
  rewrite Hrows in Hrows'. injection Hrows' as <-.
  inversion Hall as [|row rest Hrow _]; subst.
  apply (Hrow 0); [vm_compute; lia | reflexivity].
Qed.

(** Where every element is an array the rows are as C5 states them: for a
    non-empty array all of whose elements are arrays,
    the rows are one record per element, in order; each has exactly the keys
    [_rowIndex], [column_0], ..., [column_{maxLen-1}], where [maxLen] is the
    greatest length of an element; [_rowIndex] is the position of the
    element; every element of a row array appears under its column, and the
    columns past the end of a shorter row hold [null]. *)
Theorem extractTableData_array_of_arrays :
  forall (E : Engine) (arrays : list (list value)),
    arrays <> [] ->
    let maxLength := Spec.maxLen arrays in
    let rows := mapi (Spec.paddedRow maxLength) arrays in
    JSONParser.extractTableData (VArr (map VArr arrays)) = Returns rows
    /\ List.length rows = List.length arrays
    /\ forall i arr, nth_error arrays i = Some arr ->
         exists row,
           nth_error rows i = Some row
           /\ own_keys row
              = u "_rowIndex" :: map JSONParser.columnKey (seq 0 maxLength)
           /\ get_own row (u "_rowIndex") = Some (VNum (JSNumber.of_nat i))
           /\ (forall j v, nth_error arr j = Some v ->
                 get_own row (JSONParser.columnKey j) = Some v)
           /\ (forall j, List.length arr <= j < maxLength ->
                 get_own row (JSONParser.columnKey j) = Some VNull).
Proof.
  intros E arrays Hne maxLength rows. split; [|split].
  - subst rows maxLength. unfold JSONParser.extractTableData.
    destruct arrays as [|l rest]; [congruence|].
    cbn [map isPlainObject isArray].
    change (VArr l :: map VArr rest) with (map VArr (l :: rest)).
    rewrite mapM_length_arrays. cbn [bind].
    rewrite mapM_ToNumber_lengths. cbn [bind].
    rewrite max_lengths_arrays by congruence.
    rewrite iterations_of_nat.
    unfold mapi. rewrite mapi_from_map. f_equal.
    apply mapi_from_ext. intros i a. apply arrayRow_paddedRow.
  - apply mapi_from_length.
  - intros i arr Hi. exists (Spec.paddedRow maxLength i arr).
    assert (Hlen : List.length arr <= maxLength).
    { apply maxLen_bound. eapply nth_error_In. exact Hi. }
    split; [|split; [|split; [|split]]].
    + unfold rows, mapi. rewrite mapi_from_nth_error, Hi. reflexivity.
    + unfold Spec.paddedRow, own_keys. cbn [map fst]. f_equal.
      rewrite map_map. reflexivity.
    + reflexivity.
    + intros j v Hj. unfold Spec.paddedRow, get_own. cbn [lookup fst].
      rewrite columnKey_not_rowIndex.
      assert (j < List.length arr) by (apply nth_error_Some; congruence).
      rewrite lookup_columns by lia. f_equal.
      now apply nth_error_nth.
    + intros j Hj. unfold Spec.paddedRow, get_own. cbn [lookup fst].
      rewrite columnKey_not_rowIndex.
      rewrite lookup_columns by lia. f_equal.
      now apply nth_overflow.
Qed.

(** The rows of [[[1, 2], [3]]]. *)
Lemma extractTableData_array_of_arrays_witness :
  @JSONParser.extractTableData Reference.engine
    (VArr (map VArr [[VNum (JSNumber.of_Z 1); VNum (JSNumber.of_Z 2)];
                     [VNum (JSNumber.of_Z 3)]]))
  = Returns
      (mapi (Spec.paddedRow
               (Spec.maxLen [[VNum (JSNumber.of_Z 1); VNum (JSNumber.of_Z 2)];
                             [VNum (JSNumber.of_Z 3)]]))
            [[VNum (JSNumber.of_Z 1); VNum (JSNumber.of_Z 2)];
             [VNum (JSNumber.of_Z 3)]]).
Proof.
  refine (proj1 (extractTableData_array_of_arrays Reference.engine
    [[VNum (JSNumber.of_Z 1); VNum (JSNumber.of_Z 2)]; [VNum (JSNumber.of_Z 3)]]
    _)).
  discriminate.
Defined.
(* ===================================================================== *)
(** ** parseJSON *)
(* ===================================================================== *)

Lemma mapi_from_plain_objects (f : nat -> value -> value) (start : nat)
  (l : list value) :
  (forall i v, isPlainObject (f i v) = true) ->
  Forall (fun row => isPlainObject row = true) (mapi_from f start l).
Proof.
  intro H. revert start. induction l as [|a l IH]; intro start; simpl;
    constructor; auto.
Qed.

(** The first row [extractTableData] returns is a plain object. *)
Lemma extractTableData_first_row {E : Engine} (data : value)
  (firstRow : value) (rows : list value) :
  JSONParser.extractTableData data = Returns (firstRow :: rows) ->
  isPlainObject firstRow = true.
Proof.
  assert (Hidx : forall l r rs, JSONParser.indexValueRows l = r :: rs ->
                                isPlainObject r = true).
  { intros l r rs H.
    pose proof (mapi_from_plain_objects
                  (fun index item =>
                     VObj [(u "index", VNum (JSNumber.of_nat index));
                           (u "value", item)]) 0 l (fun _ _ => eq_refl)) as Hall.
    unfold JSONParser.indexValueRows, mapi in H. rewrite H in Hall.
    now inversion Hall. }
  assert (Hobj : forall d r rs, JSONParser.objectRows d = r :: rs ->
                                isPlainObject r = true).
  { intros d r rs H. unfold JSONParser.objectRows in H.
    destruct (existsb isPlainObject (own_values d)).
    - unfold JSONParser.flattenObjectToTable in H. now injection H as <- _.
    - destruct (own_entries d); [discriminate|]. now injection H as <- _. }
  unfold JSONParser.extractTableData.
  destruct data as [| b | x | s | items | props].
  - intro H. now injection H as <- _.
  - intro H. now injection H as <- _.
  - intro H. now injection H as <- _.
  - intro H. now injection H as <- _.
  - destruct items as [|first items]; [discriminate|].
    destruct (isPlainObject first) eqn:Hfirst.
    + intro H. now injection H as <- _.
    + destruct (isArray first).
      * destruct (mapM _ _); cbn [bind]; try discriminate.
        destruct (mapM _ _); cbn [bind]; try discriminate.
        destruct (JSNumber.iterations _); try discriminate.
        unfold mapi. cbn [mapi_from]. intro H.
        injection H as <- _. reflexivity.
      * intro H. injection H as H; try (now apply Hidx in H); now subst.
  - destruct (JSONParser.arrayValues (VObj props)) as [|a0 rest].
    + intro H. injection H as H; try (now apply Hobj in H); now subst.
    + destruct (JSONParser.longestOf a0 rest) as [|first longest].
      * intro H. injection H as H; try (now apply Hobj in H); now subst.
      * destruct (isPlainObject first) eqn:Hfirst.
        -- intro H. now injection H as <- _.
        -- destruct (negb (typeofObject first)).
           ++ intro H. injection H as H; try (now apply Hidx in H); now subst.
           ++ intro H. injection H as H; try (now apply Hobj in H); now subst.
Qed.

Lemma formatErrorMessage_classes (message : jsstring) :
  In (JSONParser.formatErrorMessage message) Spec.classMessages
  \/ JSONParser.formatErrorMessage message = u "JSON 파싱 오류: " ++ message.
Proof.
  unfold JSONParser.formatErrorMessage, Spec.classMessages.
  destruct (JSString.includes message (u "Unexpected token"));
    [left; left; reflexivity|].
  destruct (JSString.includes message (u "Unexpected end of JSON input"));
    [left; right; left; reflexivity|].
  destruct (JSString.includes message (u "Unexpected string"));
    [left; do 2 right; left; reflexivity|].
  destruct (JSString.includes message (u "Unexpected number"));
    [left; do 3 right; left; reflexivity|].
  destruct (JSString.includes message (u "Unexpected identifier"));
    [left; do 4 right; left; reflexivity|].
  right. reflexivity.
Qed.

Lemma formatErrorMessage_not_noInput (message : jsstring) :
  JSONParser.formatErrorMessage message <> JSONParser.noInputMessage.
Proof.
  unfold JSONParser.formatErrorMessage.
  repeat match goal with
         | |- context [if ?c then _ else _] => destruct c
         end; intro H; vm_compute in H; discriminate.
Qed.

(** C7, as stated, fails: the parser rejects the empty text, and the result
    carries the message for missing input, not the classification of the
    message of the parser. *)
Lemma classifiedFailure_fails_on_empty_input :
  ~ @Spec.classifiedFailure Reference.engine [].
Proof.
  intro H.
  assert (Hparse : @JSON_parse Reference.engine []
                   = SyntaxError (u "Unexpected end of JSON input"))
    by (vm_compute; reflexivity).
  apply H in Hparse. vm_compute in Hparse. discriminate.
Qed.

(** C7, amended: [parseJSON] never throws.  For a blank input (empty or
    white space only) it returns a failure with the fixed message for
    missing input, which is none of the classified messages, without
    consulting the parser.  For any other input the parser rejects, it
    returns a failure ([success] false, [data] null, no rows and no columns)
    whose message is one of the five fixed class messages or the generic
    message that carries the message of the parser; this holds in particular
    for [{"a":}]. *)
Theorem parseJSON_failure :
  forall (E : Engine) (jsonString : jsstring),
    (forall message, JSONParser.parseJSON jsonString <> Throws message)
    /\ (isBlank jsonString = true ->
          JSONParser.parseJSON jsonString
          = Returns (Spec.failure JSONParser.noInputMessage)
          /\ forall message,
               JSONParser.formatErrorMessage message <> JSONParser.noInputMessage)
    /\ (isBlank jsonString = false ->
          forall message,
            JSON_parse jsonString = SyntaxError message ->
            JSONParser.parseJSON jsonString
            = Returns (Spec.failure (JSONParser.formatErrorMessage message))
            /\ (In (JSONParser.formatErrorMessage message) Spec.classMessages
                \/ JSONParser.formatErrorMessage message
                   = u "JSON 파싱 오류: " ++ message))
    /\ (forall message,
          JSON_parse Spec.missingValueText = SyntaxError message ->
          exists result,
            JSONParser.parseJSON Spec.missingValueText = Returns result
            /\ JSONParser.success result = false
            /\ JSONParser.data result = VNull
            /\ JSONParser.rowCount result = 0
            /\ JSONParser.error result
               = Some (JSONParser.formatErrorMessage message)).
Proof.
  intros E jsonString. split; [|split; [|split]].
  - intros message. unfold JSONParser.parseJSON.
    destruct (isBlank jsonString); [discriminate|].
    destruct (JSON_parse jsonString) as [v | m]; [|discriminate].
    destruct (JSONParser.extractTableData v) as [[|firstRow rows] | m |];
      try discriminate.
    destruct (Object_keys firstRow); discriminate.
  - intro Hblank. split.
    + unfold JSONParser.parseJSON. now rewrite Hblank.
    + apply formatErrorMessage_not_noInput.
  - intros Hblank message Hparse. split.
    + unfold JSONParser.parseJSON. now rewrite Hblank, Hparse.
    + apply formatErrorMessage_classes.
  - intros message Hparse.
    exists (Spec.failure (JSONParser.formatErrorMessage message)).
    split; [|repeat split].
    unfold JSONParser.parseJSON.
    replace (isBlank Spec.missingValueText) with false
      by (vm_compute; reflexivity).
    now rewrite Hparse.
Qed.

(** The amended C7 on [{"a":}] with the reference engine, whose parser
    reports an unexpected token. *)
Lemma parseJSON_failure_witness :
  @JSONParser.parseJSON Reference.engine Spec.missingValueText
  = Returns (Spec.failure
               (JSONParser.formatErrorMessage
                  (u "Unexpected token } in JSON at position 5")))
  /\ (In (JSONParser.formatErrorMessage
            (u "Unexpected token } in JSON at position 5")) Spec.classMessages
      \/ JSONParser.formatErrorMessage
           (u "Unexpected token } in JSON at position 5")
         = u "JSON 파싱 오류: " ++ u "Unexpected token } in JSON at position 5").
Proof.
  refine (proj1 (proj2 (proj2 (parseJSON_failure Reference.engine
                                 Spec.missingValueText))) _ _ _).
  - vm_compute. reflexivity.
  - vm_compute. reflexivity.
Defined.


(* ===================================================================== *)
(** ** Headers *)
(* ===================================================================== *)

Lemma Set_add_In (set : list jsstring) (key k : jsstring) :
  In k (TableRenderer.Set_add set key) <-> In k set \/ k = key.
Proof.
  unfold TableRenderer.Set_add.
  destruct (existsb (JSString.eqb key) set) eqn:Hmem.
  - split; [now left|]. intros [H | ->]; [exact H|].
    apply existsb_exists in Hmem. destruct Hmem as (x & Hx & Heq).
    apply eqb_eq in Heq. now subst.
  - rewrite in_app_iff. simpl. intuition.
Qed.

Lemma Set_add_NoDup (set : list jsstring) (key : jsstring) :
  NoDup set -> NoDup (TableRenderer.Set_add set key).
Proof.
  intro H. unfold TableRenderer.Set_add.
  destruct (existsb (JSString.eqb key) set) eqn:Hmem; [exact H|].
  apply NoDup_app; [exact H | repeat constructor; intros [] |].
  intros x Hx [Heq | []]. subst x.
  assert (Hex : existsb (JSString.eqb key) set = true).
  { apply existsb_exists. exists key. split; [exact Hx | apply eqb_refl]. }
  congruence.
Qed.

Lemma fold_Set_add_In (keys set : list jsstring) (k : jsstring) :
  In k (fold_left TableRenderer.Set_add keys set) <-> In k set \/ In k keys.
Proof.
  revert set. induction keys as [|key keys IH]; intro set; simpl.
  - tauto.
  - rewrite IH, Set_add_In. intuition.
Qed.

Lemma fold_Set_add_NoDup (keys set : list jsstring) :
  NoDup set -> NoDup (fold_left TableRenderer.Set_add keys set).
Proof.
  revert set. induction keys as [|key keys IH]; intros set H; simpl; [exact H|].
  apply IH. now apply Set_add_NoDup.
Qed.

Lemma headerSetFrom_In (data : list value) (set : list jsstring) (k : jsstring) :
  In k (headerSetFrom data set) <-> In k set \/ Spec.keyOfSomeRow data k.
Proof.
  unfold headerSetFrom, Spec.keyOfSomeRow.
  revert set. induction data as [|row data IH]; intro set; cbn [fold_left].
  - split; [now left|]. intros [H | (row & [] & _)]. exact H.
  - rewrite IH. destruct (TableRenderer.isObjectRow row) eqn:Hrow.
    + rewrite fold_Set_add_In. split.
      * intros [[H | H] | (r & Hr & Ho & Hk)]; auto.
        -- right. exists row. repeat split; auto. now left.
        -- right. exists r. repeat split; auto. now right.
      * intros [H | (r & [<- | Hr] & Ho & Hk)]; auto.
        right. exists r. now repeat split.
    + split.
      * intros [H | (r & Hr & Ho & Hk)]; auto.
        right. exists r. repeat split; auto. now right.
      * intros [H | (r & [<- | Hr] & Ho & Hk)]; auto; [congruence|].
        right. exists r. now repeat split.
Qed.

Lemma headerSetFrom_NoDup (data : list value) (set : list jsstring) :
  NoDup set -> NoDup (headerSetFrom data set).
Proof.
  unfold headerSetFrom. revert set.
  induction data as [|row data IH]; intros set H; cbn [fold_left]; [exact H|].
  apply IH. destruct (TableRenderer.isObjectRow row); [|exact H].
  now apply fold_Set_add_NoDup.
Qed.

Lemma extractHeaders_fromObjects (data : list value) :
  TableRenderer.extractHeaders data
  = Array_sort JSString.compare (headerSetFrom data []).
Proof.
  unfold TableRenderer.extractHeaders.
  destruct data as [|first data]; [reflexivity|].
  unfold TableRenderer.analyzeJSONStructure.
  destruct (isPlainObject first); [reflexivity|].
  destruct (isArray first); [reflexivity|].
  destruct (negb (typeofObject first)); reflexivity.
Qed.

Lemma sorted_distinct_strict (l : list jsstring) :
  Sorted (inOrder JSString.compare) l -> NoDup l -> StronglySorted JSString.lt l.
Proof.
  intros Hs Hnd. apply Sorted_StronglySorted.
  - intros a b c. apply compare_lt_trans.
  - induction Hs as [|x l Hs IH Hh]; constructor.
    + apply IH. now inversion Hnd.
    + destruct Hh as [|y l Hxy]; constructor.
      unfold inOrder in Hxy. unfold JSString.lt.
      rewrite compare_antisym in Hxy.
      destruct (JSString.compare x y) eqn:Hc; simpl in Hxy;
        [|reflexivity|congruence].
      apply compare_eq in Hc. subst y. inversion Hnd as [|? ? Hnotin _].
      exfalso. apply Hnotin. now left.
Qed.

Lemma extractHeaders_strictly_sorted (data : list value) :
  StronglySorted JSString.lt (TableRenderer.extractHeaders data).
Proof.
  rewrite extractHeaders_fromObjects. apply sorted_distinct_strict.
  - apply Array_sort_sorted. intros x y _ _ H.
    rewrite compare_antisym, H. discriminate.
  - eapply Permutation_NoDup.
    + symmetry. apply Array_sort_perm.
    + apply headerSetFrom_NoDup. constructor.
Qed.

Lemma extractHeaders_In (data : list value) (key : jsstring) :
  In key (TableRenderer.extractHeaders data) <-> Spec.keyOfSomeRow data key.
Proof.
  rewrite extractHeaders_fromObjects, Array_sort_In, headerSetFrom_In.
  simpl. tauto.
Qed.

(** C1: the headers are the keys that occur in some row, each once, in
    strictly increasing order of their code units.  They are therefore a
    function of that set of keys alone: reordering the rows, or moving keys
    between rows, does not change them.  For [[{"a": 1}, {"b": 2}]] they are
    [a] and [b]. *)
Theorem extractHeaders_sorted_union :
  forall data : list value,
    (forall key,
        In key (TableRenderer.extractHeaders data) <-> Spec.keyOfSomeRow data key)
    /\ StronglySorted JSString.lt (TableRenderer.extractHeaders data)
    /\ (forall data',
          (forall key, Spec.keyOfSomeRow data' key <-> Spec.keyOfSomeRow data key) ->
          TableRenderer.extractHeaders data' = TableRenderer.extractHeaders data)
    /\ (forall data',
          Permutation data data' ->
          TableRenderer.extractHeaders data' = TableRenderer.extractHeaders data)
    /\ TableRenderer.extractHeaders Spec.raggedRows = [u "a"; u "b"].
Proof.
  intro data.
  assert (Hset : forall data',
             (forall key, Spec.keyOfSomeRow data' key <-> Spec.keyOfSomeRow data key) ->
             TableRenderer.extractHeaders data' = TableRenderer.extractHeaders data).
  { intros data' Hkeys. apply strictly_sorted_unique.
    - apply extractHeaders_strictly_sorted.
    - apply extractHeaders_strictly_sorted.
    - intro k. rewrite !extractHeaders_In. apply Hkeys. }
  split; [|split; [|split; [|split]]].
  - apply extractHeaders_In.
  - apply extractHeaders_strictly_sorted.
  - exact Hset.
  - intros data' Hperm. apply Hset. intro key. unfold Spec.keyOfSomeRow.
    split; intros (row & Hin & Hrest); exists row; split; auto.
    + eapply Permutation_in; [symmetry; exact Hperm | exact Hin].
    + eapply Permutation_in; [exact Hperm | exact Hin].
  - vm_compute. reflexivity.
Qed.
(* ===================================================================== *)
(** ** sortTable *)
(* ===================================================================== *)

Lemma Qcompare_sub (x y : Q) : (Qred (x - y)%Q ?= 0)%Q = (x ?= y)%Q.
Proof.
  rewrite (Qcompare_comp (Qred (x - y)%Q) (x - y)%Q (Qred_correct _)
             0%Q 0%Q (Qeq_refl 0%Q)).
  destruct (x ?= y)%Q eqn:Hxy.
  - apply Qeq_alt in Hxy. apply Qeq_alt. rewrite Hxy. ring.
  - apply Qlt_alt in Hxy. apply Qlt_alt.
    apply (Qplus_lt_l _ _ y). ring_simplify. exact Hxy.
  - apply Qgt_alt in Hxy. apply Qgt_alt.
    apply (Qplus_lt_l _ _ y). ring_simplify. exact Hxy.
Qed.

Lemma Qcompare_antisym (x y : Q) : (y ?= x)%Q = CompOpp (x ?= y)%Q.
Proof. unfold Qcompare. apply Z.compare_antisym. Qed.

Lemma sign_sub_antisym (x y : number) :
  JSNumber.sign (JSNumber.sub y x) = CompOpp (JSNumber.sign (JSNumber.sub x y)).
Proof.
  destruct x as [p| | |], y as [q| | |]; try reflexivity.
  unfold JSNumber.sub, JSNumber.sign. rewrite !Qcompare_sub.
  apply Qcompare_antisym.
Qed.

(** The numeric order of numbers other than [NaN] is transitive. *)
Lemma sign_sub_le_trans (x y z : number) :
  x <> NaN -> y <> NaN -> z <> NaN ->
  JSNumber.sign (JSNumber.sub x y) <> Gt ->
  JSNumber.sign (JSNumber.sub y z) <> Gt ->
  JSNumber.sign (JSNumber.sub x z) <> Gt.
Proof.
  intros Hx Hy Hz.
  destruct x as [p| | |], y as [q| | |], z as [r| | |]; try congruence;
    cbn [JSNumber.sub JSNumber.sign]; try congruence.
  rewrite !Qcompare_sub. rewrite <- !Qle_alt. apply Qle_trans.
Qed.

(** A comparison that is antisymmetric and transitive orders consistently. *)
Lemma preorder_strictWeak {K : Type} (c : K -> K -> comparison) (domain : K -> Prop) :
  (forall a b, domain a -> domain b -> c b a = CompOpp (c a b)) ->
  (forall a b d, domain a -> domain b -> domain d ->
     c a b <> Gt -> c b d <> Gt -> c a d <> Gt) ->
  (forall a, domain a -> c a a <> Lt)
  /\ (forall a b d, domain a -> domain b -> domain d ->
        c a b = Lt -> c b d = Lt -> c a d = Lt)
  /\ (forall a b d, domain a -> domain b -> domain d ->
        c a b = Lt -> c a d = Lt \/ c d b = Lt).
Proof.
  intros Hanti Htrans. repeat split.
  - intros a Ha H. pose proof (Hanti a a Ha Ha) as Haa. rewrite H in Haa.
    discriminate Haa.
  - intros a b d Ha Hb Hd Hab Hbd.
    destruct (c a d) eqn:Had; [| reflexivity |]; exfalso.
    + assert (Hda : c d a <> Gt) by (rewrite (Hanti a d Ha Hd), Had; discriminate).
      assert (Hab' : c a b <> Gt) by (rewrite Hab; discriminate).
      pose proof (Htrans d a b Hd Ha Hb Hda Hab') as Hdb.
      rewrite (Hanti b d Hb Hd), Hbd in Hdb. now apply Hdb.
    + assert (Hda : c d a <> Gt) by (rewrite (Hanti a d Ha Hd), Had; discriminate).
      assert (Hab' : c a b <> Gt) by (rewrite Hab; discriminate).
      pose proof (Htrans d a b Hd Ha Hb Hda Hab') as Hdb.
      rewrite (Hanti b d Hb Hd), Hbd in Hdb. now apply Hdb.
  - intros a b d Ha Hb Hd Hab.
    destruct (c a d) eqn:Had; [| now left |];
      (destruct (c d b) eqn:Hdb; [| now right |]); exfalso.
    all: assert (Hda : c d a <> Gt)
           by (rewrite (Hanti a d Ha Hd), Had; discriminate);
         assert (Hbd : c b d <> Gt)
           by (rewrite (Hanti d b Hd Hb), Hdb; discriminate);
         pose proof (Htrans b d a Hb Hd Ha Hbd Hda) as Hba;
         rewrite (Hanti a b Ha Hb), Hab in Hba; now apply Hba.
Qed.

Section SortTable.
Context {E : Engine} {L : EngineLaws E}.
Variables column direction : jsstring.

(** For rows it can compare, the comparator of [sortTable] returns the
    comparison of the two rows. *)
Lemma compareRows_returns (a b : value) :
  comparableAt column a -> comparableAt column b ->
  TableRenderer.compareRows column direction a b
  = Returns (Spec.rowCompare column direction a b).
Proof.
  intros (Ha & Hia & Hsa) (Hb & Hib & Hsb).
  unfold TableRenderer.compareRows, Spec.rowCompare, Read.
  assert (Hra : Read a column
                = Returns match get_own a column with
                          | Some w => Own w
                          | None => Absent
                          end).
  { unfold Read. rewrite Hia. destruct a; try congruence; reflexivity. }
  assert (Hrb : Read b column
                = Returns match get_own b column with
                          | Some w => Own w
                          | None => Absent
                          end).
  { unfold Read. rewrite Hib. destruct b; try congruence; reflexivity. }
  unfold Read in Hra, Hrb. rewrite Hra, Hrb. cbn [bind].
  unfold TableRenderer.compareValues, cellCompare.
  destruct (get_own a column) as [v|]; [|reflexivity].
  destruct (get_own b column) as [w|].
  - cbn [hasStringFormOpt] in Hsa, Hsb.
    pose proof (ToString_value_stringOf v Hsa) as Hv.
    pose proof (ToString_value_stringOf w Hsb) as Hw.
    destruct v; try reflexivity; destruct w; try reflexivity;
      cbn [TableRenderer.isNullishProperty isNullish ToString_property
             stringOfOpt];
      rewrite ?Hv, ?Hw; reflexivity.
  - destruct v; reflexivity.
Qed.

Lemma compare_nullish_left (a b : value) :
  Spec.nullishAt column a -> Spec.rowCompare column direction a b = Gt.
Proof.
  unfold Spec.nullishAt, Spec.rowCompare, cellCompare.
  now intros ->.
Qed.

Lemma compare_nullish_right (a b : value) :
  ~ Spec.nullishAt column a -> Spec.nullishAt column b ->
  Spec.rowCompare column direction a b = Lt.
Proof.
  unfold Spec.nullishAt, Spec.rowCompare, cellCompare.
  intros Ha ->. destruct (isNullish (get_own a column)); congruence.
Qed.

(** The comparison of two values that are present, as the comparator
    makes it. *)
Lemma rowCompare_present (a b : value) (v w : value) :
  get_own a column = Some v -> get_own b column = Some w ->
  v <> VNull -> w <> VNull ->
  Spec.rowCompare column direction a b
  = match v, w with
    | VNum x, VNum y =>
      if JSString.eqb direction (u "asc")
      then JSNumber.sign (JSNumber.sub x y)
      else JSNumber.sign (JSNumber.sub y x)
    | _, _ =>
      if JSString.eqb direction (u "asc")
      then localeCompare (toLowerCase (stringOf v)) (toLowerCase (stringOf w))
      else localeCompare (toLowerCase (stringOf w)) (toLowerCase (stringOf v))
    end.
Proof.
  intros Ha Hb Hv Hw. unfold Spec.rowCompare, cellCompare. rewrite Ha, Hb.
  destruct v; try congruence; destruct w; try congruence; reflexivity.
Qed.

(** Rows whose values in the column are all numbers, or of which none is a
    number, are ordered consistently by the comparator. *)
Lemma rowCompare_strictWeak (data : list value) :
  numbersAt column data \/ textsAt column data ->
  strictWeakOrderOn (fun a b => Spec.rowCompare column direction a b = Lt) data.
Proof.
  intro Huniform.
  set (present := fun row : value => In row data /\ ~ Spec.nullishAt column row).
  assert (Hbase :
            (forall a b, present a -> present b ->
               Spec.rowCompare column direction b a
               = CompOpp (Spec.rowCompare column direction a b))
            /\ (forall a b d, present a -> present b -> present d ->
                  Spec.rowCompare column direction a b <> Gt ->
                  Spec.rowCompare column direction b d <> Gt ->
                  Spec.rowCompare column direction a d <> Gt)).
  { destruct Huniform as [Hnum | Htext].
    - unfold numbersAt in Hnum. rewrite Forall_forall in Hnum.
      assert (Hcell : forall r, present r ->
                        exists x, get_own r column = Some (VNum x) /\ x <> NaN).
      { intros r [Hin Hnn]. specialize (Hnum r Hin). unfold Spec.nullishAt in Hnn.
        destruct (get_own r column) as [[| |x| | |]|]; try contradiction;
          try (now destruct Hnn).
        exists x. split; [reflexivity|]. intros ->. exact Hnum. }
      split.
      + intros a b Ha Hb.
        destruct (Hcell a Ha) as (x & Hx & _), (Hcell b Hb) as (y & Hy & _).
        rewrite (rowCompare_present a b _ _ Hx Hy), (rowCompare_present b a _ _ Hy Hx)
          by discriminate.
        destruct (JSString.eqb direction (u "asc")); apply sign_sub_antisym.
      + intros a b d Ha Hb Hd.
        destruct (Hcell a Ha) as (x & Hx & Hxn), (Hcell b Hb) as (y & Hy & Hyn),
          (Hcell d Hd) as (z & Hz & Hzn).
        rewrite (rowCompare_present a b _ _ Hx Hy), (rowCompare_present b d _ _ Hy Hz),
          (rowCompare_present a d _ _ Hx Hz) by discriminate.
        destruct (JSString.eqb direction (u "asc")).
        * now apply sign_sub_le_trans.
        * intros H1 H2. now apply (sign_sub_le_trans z y x).
    - unfold textsAt in Htext. rewrite Forall_forall in Htext.
      assert (Hcell : forall r, present r ->
                        exists v, get_own r column = Some v /\ v <> VNull
                                  /\ isNumber v = false).
      { intros r [Hin Hnn]. specialize (Htext r Hin). unfold Spec.nullishAt in Hnn.
        destruct (get_own r column) as [v|]; [|now destruct Hnn].
        exists v. split; [reflexivity|].
        destruct v; try contradiction; try (now destruct Hnn);
          split; (discriminate || reflexivity). }
      assert (Htexts : forall a b v w,
                get_own a column = Some v -> get_own b column = Some w ->
                v <> VNull -> w <> VNull -> isNumber v = false ->
                Spec.rowCompare column direction a b
                = if JSString.eqb direction (u "asc")
                  then localeCompare (toLowerCase (stringOf v))
                                     (toLowerCase (stringOf w))
                  else localeCompare (toLowerCase (stringOf w))
                                     (toLowerCase (stringOf v))).
      { intros a b v w Ha Hb Hv Hw Hnum.
        rewrite (rowCompare_present a b v w Ha Hb Hv Hw).
        destruct v; try discriminate Hnum; reflexivity. }
      split.
      + intros a b Ha Hb.
        destruct (Hcell a Ha) as (v & Hv & Hvn & Hvt),
          (Hcell b Hb) as (w & Hw & Hwn & Hwt).
        rewrite (Htexts a b v w), (Htexts b a w v) by assumption.
        destruct (JSString.eqb direction (u "asc")); apply localeCompare_antisym.
      + intros a b d Ha Hb Hd.
        destruct (Hcell a Ha) as (v & Hv & Hvn & Hvt),
          (Hcell b Hb) as (w & Hw & Hwn & Hwt),
          (Hcell d Hd) as (x & Hx & Hxn & Hxt).
        rewrite (Htexts a b v w), (Htexts b d w x), (Htexts a d v x) by assumption.
        destruct (JSString.eqb direction (u "asc")).
        * apply localeCompare_trans.
        * intros H1 H2. exact (localeCompare_trans _ _ _ H2 H1). }
  destruct Hbase as [Hanti Htrans].
  destruct (preorder_strictWeak (Spec.rowCompare column direction) present
              Hanti Htrans) as (Hirr & Htr & Hneg).
  assert (Hdec : forall r, Spec.nullishAt column r \/ ~ Spec.nullishAt column r).
  { intro r. unfold Spec.nullishAt.
    destruct (isNullish (get_own r column)); [now left | right; discriminate]. }
  assert (Hfirst : forall a b,
            Spec.rowCompare column direction a b = Lt -> ~ Spec.nullishAt column a).
  { intros a b H Ha. rewrite (compare_nullish_left a b Ha) in H. discriminate H. }
  repeat split.
  - intros a Ha H. apply (Hirr a); [|exact H]. split; [exact Ha|].
    exact (Hfirst a a H).
  - intros a b d Ha Hb Hd Hab Hbd.
    pose proof (Hfirst a b Hab) as Hna. pose proof (Hfirst b d Hbd) as Hnb.
    destruct (Hdec d) as [Hnd | Hnd]; [now apply compare_nullish_right|].
    apply (Htr a b d); unfold present; auto.
  - intros a b d Ha Hb Hd Hab.
    pose proof (Hfirst a b Hab) as Hna.
    destruct (Hdec d) as [Hnd | Hnd];
      [left; now apply compare_nullish_right|].
    destruct (Hdec b) as [Hnb | Hnb];
      [right; now apply compare_nullish_right|].
    apply (Hneg a b d); unfold present; auto.
Qed.

(** Inserting a row keeps the rows without a value behind the others. *)
Lemma insert_nulls_last (x : value) (front back : list value) :
  Forall (fun row => ~ Spec.nullishAt column row) front ->
  Forall (Spec.nullishAt column) back ->
  exists front' back',
    insert (Spec.rowCompare column direction) x (front ++ back) = front' ++ back'
    /\ Forall (fun row => ~ Spec.nullishAt column row) front'
    /\ Forall (Spec.nullishAt column) back'.
Proof.
  intros Hfront Hback.
  induction Hfront as [|y front Hy Hfront IH]; cbn [app].
  - destruct (isNullish (get_own x column)) eqn:Hx.
    + exists [], (insert (Spec.rowCompare column direction) x back).
      split; [reflexivity|]. split; [constructor|].
      rewrite Forall_forall in *. intros z Hz.
      apply (Permutation_in _ (insert_perm _ x back)) in Hz.
      destruct Hz as [<- | Hz]; [exact Hx | now apply Hback].
    + exists [x], back. split; [|split; [|exact Hback]].
      * destruct back as [|z back]; [reflexivity|]. cbn [insert].
        inversion Hback as [|? ? Hz _]; subst.
        now rewrite (compare_nullish_left z x Hz).
      * constructor; [|constructor]. unfold Spec.nullishAt. congruence.
  - cbn [insert].
    destruct (Spec.rowCompare column direction y x) eqn:Hyx.
    + exists (x :: y :: front), back. split; [reflexivity|].
      split; [|exact Hback]. constructor; [|now constructor].
      intro Hx. rewrite (compare_nullish_right y x Hy Hx) in Hyx. discriminate.
    + destruct IH as (front' & back' & Heq & Hf & Hb).
      exists (y :: front'), back'. split; [now rewrite Heq|].
      split; [now constructor | exact Hb].
    + exists (x :: y :: front), back. split; [reflexivity|].
      split; [|exact Hback]. constructor; [|now constructor].
      intro Hx. rewrite (compare_nullish_right y x Hy Hx) in Hyx. discriminate.
Qed.

Lemma Array_sort_nulls_last (data : list value) :
  exists front back,
    Array_sort (Spec.rowCompare column direction) data = front ++ back
    /\ Forall (fun row => ~ Spec.nullishAt column row) front
    /\ Forall (Spec.nullishAt column) back.
Proof.
  induction data as [|x data IH]; cbn [Array_sort].
  - exists [], []. repeat split; constructor.
  - destruct IH as (front & back & -> & Hf & Hb).
    now apply insert_nulls_last.
Qed.

(** What [sortTable] renders for rows it can compare and orders
    consistently. *)
Lemma sortTable_returns (data : list value) :
  data <> [] ->
  Forall (comparableAt column) data ->
  strictWeakOrderOn (fun a b => Spec.rowCompare column direction a b = Lt) data ->
  TableRenderer.sortTable column direction data
  = Returns (Some (Array_sort (Spec.rowCompare column direction) data)).
Proof.
  intros Hne Hrows Hweak. unfold TableRenderer.sortTable.
  destruct data as [|row data]; [congruence|].
  rewrite (Array_sort_comparefn_sorts _ (Spec.rowCompare column direction));
    [reflexivity | | exact Hweak].
  rewrite Forall_forall in Hrows.
  intros a b Ha Hb. apply compareRows_returns; now apply Hrows.
Qed.

End SortTable.

(** In an arrangement the last row stands behind every other row. *)
Lemma before_last {A : Type} (init : list A) (z w : A) :
  In w (init ++ [z]) -> w <> z -> before (init ++ [z]) w z.
Proof.
  intros Hin Hne. apply in_app_or in Hin.
  destruct Hin as [Hin | [Heq | []]]; [|congruence].
  apply in_split in Hin. destruct Hin as (l1 & l2 & ->).
  exists l1, l2, []. now rewrite <- app_assoc.
Qed.




(** The three rows sorted in both directions: [null] stays last. *)
Example sortTable_example :
  @TableRenderer.sortTable Reference.engine (u "n") (u "asc") Spec.sortExample
  = Returns (Some [VObj [(u "n", VNum (JSNumber.of_Z 1))];
                   VObj [(u "n", VNum (JSNumber.of_Z 2))];
                   VObj [(u "n", VNull)]])
  /\ @TableRenderer.sortTable Reference.engine (u "n") (u "desc") Spec.sortExample
     = Returns (Some [VObj [(u "n", VNum (JSNumber.of_Z 2))];
                      VObj [(u "n", VNum (JSNumber.of_Z 1))];
                      VObj [(u "n", VNull)]]).
Proof. split; vm_compute; reflexivity. Qed.

(** What the amended C4 leaves out, with the reference engine: a [null] row
    makes the read of the column throw; a value that is an object with a
    member [toString] has no string form; and under the name of an
    inherited member the row without the column is compared by the text of
    that member, so that it comes first here. *)
Example sortTable_outside_the_claim :
  @TableRenderer.sortTable Reference.engine (u "n") (u "asc")
    [VObj [(u "n", VNum (JSNumber.of_Z 1))]; VNull]
  = Throws (@TypeError_message Reference.engine (u "n"))
  /\ @TableRenderer.sortTable Reference.engine (u "n") (u "asc")
       [VObj [(u "n", VObj [(u "toString", VNum (JSNumber.of_Z 1))])];
        VObj [(u "n", VStr (u "a"))]]
     = Throws (@TypeError_primitive Reference.engine)
  /\ @TableRenderer.sortTable Reference.engine (u "toString") (u "asc")
       [VObj [(u "toString", VStr (u "z"))];
        VObj [(u "a", VNum (JSNumber.of_Z 1))]]
     = Returns (Some [VObj [(u "a", VNum (JSNumber.of_Z 1))];
                      VObj [(u "toString", VStr (u "z"))]]).
Proof. repeat split; vm_compute; reflexivity. Qed.
(* ===================================================================== *)
(** ** searchTable *)
(* ===================================================================== *)

Lemma filterM_pure {A : Type} (f : A -> outcome bool) (g : A -> bool)
  (l : list A) :
  (forall x, In x l -> f x = Returns (g x)) ->
  filterM f l = Returns (filter g l).
Proof.
  induction l as [|x l IH]; intro H; simpl; [reflexivity|].
  rewrite H by now left. cbn [bind].
  rewrite IH by (intros y Hy; apply H; now right). reflexivity.
Qed.

Lemma someM_pure {A : Type} (f : A -> outcome bool) (g : A -> bool)
  (l : list A) :
  (forall x, In x l -> f x = Returns (g x)) ->
  someM f l = Returns (existsb g l).
Proof.
  induction l as [|x l IH]; intro H; cbn [someM existsb]; [reflexivity|].
  rewrite H by now left. cbn [bind].
  destruct (g x); [reflexivity|].
  apply IH. intros y Hy. apply H. now right.
Qed.

Section Search.
Context {E : Engine}.

Lemma keeps_rowContains (searchTerm : jsstring) (row : value) :
  keeps searchTerm row = true <-> Spec.rowContains searchTerm row.
Proof.
  unfold keeps, Spec.rowContains. rewrite existsb_exists. split.
  - intros (v & Hv & H). apply andb_prop in H. destruct H as [Hform H].
    exists v, (stringOf v). split; [exact Hv|].
    split; [now apply ToString_value_stringOf | now apply includes_spec].
  - intros (v & text & Hv & Htext & H). exists v. split; [exact Hv|].
    destruct (hasStringForm v) eqn:Hform.
    + rewrite (ToString_value_stringOf v Hform) in Htext.
      injection Htext as <-. now apply includes_spec.
    + rewrite (ToString_value_throws v Hform) in Htext. discriminate Htext.
Qed.

Lemma rowMatches_returns (searchTerm : jsstring) (row : value) :
  searchable row ->
  TableRenderer.rowMatches searchTerm row = Returns (keeps searchTerm row).
Proof.
  intros [Hrow Hvalues]. unfold TableRenderer.rowMatches, keeps.
  assert (Hobj : Object_values row = Returns (own_values row))
    by (destruct row; try congruence; reflexivity).
  rewrite Hobj. cbn [bind]. apply someM_pure.
  rewrite Forall_forall in Hvalues. intros v Hv.
  rewrite (ToString_value_stringOf v (Hvalues v Hv)), (Hvalues v Hv).
  reflexivity.
Qed.

End Search.

(** C9, as stated, fails: the term [" "] is not empty and does not occur
    in the row [{"a": "x"}], yet the row is displayed. *)
Lemma searchIsFilter_fails_on_blank_term :
  ~ @Spec.searchIsFilter Reference.engine (u " ") [VObj [(u "a", VStr (u "x"))]].
Proof.
  intros (keep & Hkeep & Hresult).
  vm_compute in Hresult. injection Hresult as Hresult.
  match type of Hresult with
  | _ = (if ?c then _ else _) => destruct c eqn:Hk
  end.
  - apply Hkeep in Hk. apply (@keeps_rowContains Reference.engine) in Hk.
    vm_compute in Hk. discriminate Hk.
  - discriminate Hresult.
Qed.

(** C9, amended: a blank term (empty or white space only) displays all
    rows unchanged.  Any other term, for rows none of which is [null] and
    whose values all have string forms, displays exactly the rows in which
    the string form of some column value contains the term, ignoring case,
    in their original order. *)
Theorem searchTable_filters :
  forall (E : Engine) (searchTerm : jsstring) (originalData : list value),
    (isBlank searchTerm = true ->
       TableRenderer.searchTable searchTerm originalData = Returns originalData)
    /\ TableRenderer.searchTable [] originalData = Returns originalData
    /\ (isBlank searchTerm = false ->
        Forall searchable originalData ->
        Spec.searchIsFilter searchTerm originalData
        /\ TableRenderer.searchTable searchTerm originalData
           = Returns (filter (keeps searchTerm) originalData)).
Proof.
  intros E searchTerm originalData. split; [|split].
  - intro Hblank. unfold TableRenderer.searchTable. now rewrite Hblank.
  - reflexivity.
  - intros Hblank Hrows.
    assert (Hresult : TableRenderer.searchTable searchTerm originalData
                      = Returns (filter (keeps searchTerm) originalData)).
    { unfold TableRenderer.searchTable. rewrite Hblank.
      apply filterM_pure. rewrite Forall_forall in Hrows.
      intros row Hrow. apply rowMatches_returns. now apply Hrows. }
    split; [|exact Hresult].
    exists (keeps searchTerm). split; [apply keeps_rowContains | exact Hresult].
Qed.

(** The amended C9 on the rows [{"a": "Xy"}] and [{"a": "z"}] and the term
    ["x"], with the reference engine: the first row is displayed. *)
Lemma searchTable_filters_witness :
  @TableRenderer.searchTable Reference.engine (u "x")
    [VObj [(u "a", VStr (u "Xy"))]; VObj [(u "a", VStr (u "z"))]]
  = Returns [VObj [(u "a", VStr (u "Xy"))]].
Proof.
  assert (Hrows : Forall searchable
                    [VObj [(u "a", VStr (u "Xy"))]; VObj [(u "a", VStr (u "z"))]]).
  { repeat (apply Forall_cons;
            [split; [discriminate | repeat constructor]|]).
    apply Forall_nil. }
  destruct (proj2 (proj2 (searchTable_filters Reference.engine (u "x")
              [VObj [(u "a", VStr (u "Xy"))]; VObj [(u "a", VStr (u "z"))]]))
              ltac:(vm_compute; reflexivity) Hrows)
    as [_ Hresult].
  rewrite Hresult. vm_compute. reflexivity.
Defined.
(* ===================================================================== *)
(** ** formatAsTime *)
(* ===================================================================== *)

Section Time.
Context {E : Engine} {L : EngineLaws E}.

(** The three fields of the clock time of a number of seconds within a
    day are the digits of the whole seconds divided as integers. *)
Lemma clock_of_seconds (q : Q) :
  (0 < q)%Q -> (q < inject_Z 86400)%Q ->
  let v := Finite q in
  let hours := JSNumber.floor (JSNumber.div v (JSNumber.of_Z 3600)) in
  let minutes :=
    JSNumber.floor
      (JSNumber.div (JSNumber.rem v (JSNumber.of_Z 3600)) (JSNumber.of_Z 60)) in
  let seconds := JSNumber.floor (JSNumber.rem v (JSNumber.of_Z 60)) in
  JSString.padStart2 (Number_toString 10 hours) ++ u ":"
  ++ JSString.padStart2 (Number_toString 10 minutes) ++ u ":"
  ++ JSString.padStart2 (Number_toString 10 seconds)
  = Spec.clockOf (Qfloor q).
Proof.
  intros Hpos Hlt v hours minutes seconds.
  assert (Hq0 : (0 <= q)%Q) by lra.
  assert (Hlo : (0 <= Qfloor q)%Z).
  { rewrite <- (Qfloor_Z 0). now apply Qfloor_resp_le. }
  assert (Hhi : (Qfloor q < 86400)%Z).
  { rewrite Zlt_Qlt. eapply Qle_lt_trans; [apply Qfloor_le | exact Hlt]. }
  assert (Hh : hours = JSNumber.of_Z (Qfloor q / 3600)).
  { unfold hours, v. now apply floor_div_pos. }
  destruct (floor_rem q 3600 Hq0 ltac:(lia)) as (r & Hr & Hr0 & Hfr).
  assert (Hm : minutes = JSNumber.of_Z (Qfloor q mod 3600 / 60)).
  { unfold minutes, v. rewrite Hr, floor_div_pos by lia. now rewrite Hfr. }
  destruct (floor_rem q 60 Hq0 ltac:(lia)) as (r' & Hr' & _ & Hfr').
  assert (Hs : seconds = JSNumber.of_Z (Qfloor q mod 60)).
  { unfold seconds, v. rewrite Hr'. unfold JSNumber.floor. now rewrite Hfr'. }
  rewrite Hh, Hm, Hs.
  pose proof (Z.mod_pos_bound (Qfloor q) 3600 ltac:(lia)).
  pose proof (Z.mod_pos_bound (Qfloor q) 60 ltac:(lia)).
  assert (Z.abs (Qfloor q / 3600) < 10 ^ 21)%Z.
  { assert (0 <= Qfloor q / 3600 < 24)%Z.
    { split; [apply Z.div_pos; lia | apply Z.div_lt_upper_bound; lia]. }
    lia. }
  assert (Z.abs (Qfloor q mod 3600 / 60) < 10 ^ 21)%Z.
  { assert (0 <= Qfloor q mod 3600 / 60 < 60)%Z.
    { split; [apply Z.div_pos; lia | apply Z.div_lt_upper_bound; lia]. }
    lia. }
  assert (Z.abs (Qfloor q mod 60) < 10 ^ 21)%Z by lia.
  rewrite !Number_toString_integer by assumption.
  reflexivity.
Qed.

(** From the magnitude tests on, [formatAsTime] and the stated branches
    agree for every number that is not 1e9. *)
Lemma formatAsTime_spec (v : number) :
  JSNumber.geb v (JSNumber.of_Z 0) = true ->
  Spec.numEq v (JSNumber.of_Z 1000000000) = false ->
  TableRenderer.formatAsTime (Some (VNum v)) = Returns (Spec.formatAsTimeSpec v).
Proof.
  intros Hge Hne.
  assert (Hdate : forall ms,
            match TableRenderer.newDate ms with
            | Some t => Returns (Date_toLocaleString t)
            | None => ToString (Some (VNum v))
            end = Returns (Spec.dateOrLiteral v ms)).
  { intro ms. unfold Spec.dateOrLiteral.
    destruct (TableRenderer.newDate ms); reflexivity. }
  unfold TableRenderer.formatAsTime, Spec.formatAsTimeSpec.
  rewrite Hge. rewrite !Hdate. clear Hdate.
  destruct v as [q| | |]; try discriminate Hge; [|reflexivity].
  assert (H1 : JSNumber.gtb (Finite q) (JSNumber.of_Z 1000000000)
               = JSNumber.leb (JSNumber.of_Z 1000000000) (Finite q)).
  { unfold Spec.numEq in Hne.
    unfold JSNumber.gtb, JSNumber.ltb, JSNumber.leb, JSNumber.of_Z,
      JSNumber.Qltb in *.
    destruct (Qle_bool q (inject_Z 1000000000)) eqn:Ha;
      destruct (Qle_bool (inject_Z 1000000000) q) eqn:Hb;
      try reflexivity; try discriminate Hne.
    apply Qle_bool_false in Ha, Hb. lra. }
  rewrite H1.
  destruct (JSNumber.leb (JSNumber.of_Z 1000000000) (Finite q)
            && JSNumber.ltb (Finite q) (JSNumber.of_Z 10000000000));
    [reflexivity|].
  change (JSNumber.gtb (Finite q) (JSNumber.of_Z 0))
    with (JSNumber.ltb (JSNumber.of_Z 0) (Finite q)).
  destruct (JSNumber.ltb (JSNumber.of_Z 0) (Finite q)
            && JSNumber.ltb (Finite q) (JSNumber.of_Z 86400)) eqn:Hclock.
  - apply andb_prop in Hclock. destruct Hclock as [Hpos Hday].
    apply Qltb_lt in Hpos, Hday.
    assert (H2 : JSNumber.gtb (Finite q) (JSNumber.of_Z 1000000000000) = false).
    { apply Qltb_ge. unfold inject_Z in *. lra. }
    assert (H3 : JSNumber.leb (JSNumber.of_Z 1000000000000) (Finite q) = false).
    { unfold JSNumber.leb, JSNumber.of_Z.
      destruct (Qle_bool (inject_Z 1000000000000) q) eqn:Hb; [|reflexivity].
      apply Qle_bool_iff in Hb. unfold inject_Z in *. lra. }
    rewrite H2, H3. cbn [andb]. f_equal.
    now apply clock_of_seconds.
  - destruct (JSNumber.gtb (Finite q) (JSNumber.of_Z 1000000000000)
              && JSNumber.ltb (Finite q) (JSNumber.of_Z 10000000000000));
      destruct (JSNumber.leb (JSNumber.of_Z 1000000000000) (Finite q)
                && JSNumber.ltb (Finite q) (JSNumber.of_Z 10000000000000));
      reflexivity.
Qed.

End Time.




(** Seconds, milliseconds, a clock time and a negative number with the
    reference engine. *)
Example formatAsTime_examples :
  @TableRenderer.formatAsTime Reference.engine
    (Some (VNum (JSNumber.of_Z 1700000000)))
  = Returns (u "2023. 11. 14. 22:13:20")
  /\ @TableRenderer.formatAsTime Reference.engine
       (Some (VNum (JSNumber.of_Z 1700000000000)))
     = Returns (u "2023. 11. 14. 22:13:20")
  /\ @TableRenderer.formatAsTime Reference.engine
       (Some (VNum (JSNumber.of_Z 3661)))
     = Returns (u "01:01:01")
  /\ @TableRenderer.formatAsTime Reference.engine
       (Some (VNum (JSNumber.of_Z (-5))))
     = Returns (u "-5").
Proof. repeat split; vm_compute; reflexivity. Qed.

(** The boundary that the amended C6 leaves aside: the test for seconds is
    [value > 1000000000], so 1e9, a number of ten digits, is not read as
    seconds (9 September 2001) but as milliseconds (12 January 1970). *)
Example formatAsTime_at_1e9 :
  @TableRenderer.formatAsTime Reference.engine
    (Some (VNum (JSNumber.of_Z 1000000000)))
  = Returns (u "1970. 01. 12. 13:46:40")
  /\ @Spec.formatAsTimeSpec Reference.engine (JSNumber.of_Z 1000000000)
     = u "2001. 09. 09. 01:46:40".
Proof. split; vm_compute; reflexivity. Qed.
(* ===================================================================== *)
(** ** formatAsHex, formatAsBinary *)
(* ===================================================================== *)

Section Radix.
Context {E : Engine} {L : EngineLaws E}.

Lemma isInteger_of_Z (z : Z) : JSNumber.isInteger (JSNumber.of_Z z) = true.
Proof.
  unfold JSNumber.isInteger, JSNumber.of_Z. rewrite Qfloor_Z.
  apply Qeq_bool_iff. reflexivity.
Qed.

(** An integer is rendered in radix 16, upper case, after [0x]. *)
Lemma formatAsHex_integer (z : Z) :
  (Z.abs z < 10 ^ 21)%Z ->
  TableRenderer.formatAsHex (Some (VNum (JSNumber.of_Z z)))
  = Returns (u "0x" ++ map JSString.asciiUpper (JSString.of_Z_radix 16 z)).
Proof.
  intro Hz. unfold TableRenderer.formatAsHex.
  now rewrite Number_toString_integer.
Qed.

(** An integer is rendered in radix 2 after [0b]. *)
Lemma formatAsBinary_integer (z : Z) :
  (Z.abs z < 10 ^ 21)%Z ->
  TableRenderer.formatAsBinary (Some (VNum (JSNumber.of_Z z)))
  = Returns (u "0b" ++ JSString.of_Z_radix 2 z).
Proof.
  intro Hz. unfold TableRenderer.formatAsBinary.
  rewrite isInteger_of_Z. now rewrite Number_toString_integer.
Qed.

(** [formatAsBinary] leaves a number that is not an integer as its string
    form. *)
Lemma formatAsBinary_non_integer (v : number) :
  JSNumber.isInteger v = false ->
  TableRenderer.formatAsBinary (Some (VNum v)) = ToString (Some (VNum v)).
Proof. intro H. unfold TableRenderer.formatAsBinary. now rewrite H. Qed.

(** For a value that is not a number the result of both is that of
    [String(value)]. *)
Lemma formatRadix_non_numeric (value : jsval) :
  (forall n, value <> Some (VNum n)) ->
  TableRenderer.formatAsHex value = ToString value
  /\ TableRenderer.formatAsBinary value = ToString value.
Proof.
  intro Hvalue. unfold TableRenderer.formatAsHex, TableRenderer.formatAsBinary.
  destruct value as [[| |n| | |]|]; try (split; reflexivity).
  now destruct (Hvalue n).
Qed.

End Radix.

(** C8: [formatAsHex] has no integer test.  It converts every number: 1.5
    is rendered as [0x1.8] and [NaN] as [0xNAN], where [formatAsBinary]
    returns the string forms [1.5] and [NaN]. *)
Theorem formatAsHex_converts_non_integers :
  (forall (E : Engine) (v : number),
      TableRenderer.formatAsHex (Some (VNum v))
      = Returns (u "0x" ++ map JSString.asciiUpper (Number_toString 16 v)))
  /\ JSNumber.isInteger (Finite (3 # 2)) = false
  /\ @TableRenderer.formatAsHex Reference.engine (Some (VNum (Finite (3 # 2))))
     = Returns (u "0x1.8")
  /\ @TableRenderer.formatAsBinary Reference.engine (Some (VNum (Finite (3 # 2))))
     = Returns (u "1.5")
  /\ @TableRenderer.formatAsHex Reference.engine (Some (VNum NaN))
     = Returns (u "0xNAN")
  /\ @TableRenderer.formatAsBinary Reference.engine (Some (VNum NaN))
     = Returns (u "NaN").
Proof.
  split; [reflexivity|].
  repeat split; vm_compute; reflexivity.
Qed.

(** 255 and 5 with the reference engine. *)
Example formatRadix_examples :
  @TableRenderer.formatAsHex Reference.engine (Some (VNum (JSNumber.of_Z 255)))
  = Returns (u "0xFF")
  /\ @TableRenderer.formatAsBinary Reference.engine
       (Some (VNum (JSNumber.of_Z 5)))
     = Returns (u "0b101")
  /\ @TableRenderer.formatAsHex Reference.engine (Some (VStr (u "abc")))
     = Returns (u "abc").
Proof. repeat split; vm_compute; reflexivity. Qed.
(* ===================================================================== *)
(** ** extractTableData: exceptions *)
(* ===================================================================== *)

Lemma In_null_dec (items : list value) : {In VNull items} + {~ In VNull items}.
Proof.
  induction items as [|x items [IH|IH]].
  - right. intros [].
  - left. now right.
  - destruct x; try (right; intros [H|H]; [discriminate H | exact (IH H)]).
    left. now left.
Defined.

Lemma mapM_Get_no_null {E : Engine} (key : jsstring) (items : list value) :
  ~ In VNull items ->
  mapM (fun arr => Get arr key) items
  = Returns (map (fun arr => get_own arr key) items).
Proof.
  induction items as [|x items IH]; intro H; simpl; [reflexivity|].
  assert (Hx : Get x key = Returns (get_own x key)).
  { destruct x; try reflexivity. exfalso. apply H. now left. }
  rewrite Hx. cbn [bind]. rewrite IH; [reflexivity|].
  intro Hin. apply H. now right.
Qed.

Lemma mapM_Get_null {E : Engine} (key : jsstring) (items : list value) :
  In VNull items ->
  mapM (fun arr => Get arr key) items = Throws (TypeError_message key).
Proof.
  induction items as [|x items IH]; intro H; [destruct H|].
  cbn [mapM]. destruct x; try reflexivity;
    (destruct H as [H|H]; [discriminate H|]);
    cbn [Get bind]; rewrite (IH H); reflexivity.
Qed.

(** A conversion to a number returns or throws the [TypeError] of a value
    without a primitive value. *)
Lemma ToNumber_cases {E : Engine} (v : jsval) :
  (exists n, ToNumber v = Returns n) \/ ToNumber v = Throws TypeError_primitive.
Proof.
  destruct v as [[| b | x | s | items | props]|]; cbn [ToNumber];
    try (left; eexists; reflexivity).
  - destruct (hasStringForm (VArr items)) eqn:Hform.
    + rewrite (ToString_value_stringOf _ Hform). left. eexists. reflexivity.
    + rewrite (ToString_value_throws _ Hform). now right.
  - destruct (lookup (u "toString") props); [now right | left; eexists; reflexivity].
Qed.

Lemma mapM_ToNumber_cases {E : Engine} (l : list jsval) :
  (exists ns, mapM ToNumber l = Returns ns
              /\ Forall (fun v => exists n, ToNumber v = Returns n) l)
  \/ (mapM ToNumber l = Throws TypeError_primitive
      /\ Exists (fun v => ToNumber v = Throws TypeError_primitive) l).
Proof.
  induction l as [|v l IH]; cbn [mapM].
  - left. exists []. split; [reflexivity | constructor].
  - destruct (ToNumber_cases v) as [[n Hn] | Hthrow].
    + rewrite Hn. cbn [bind].
      destruct IH as [(ns & Hns & Hall) | [Hthrows Hex]].
      * left. exists (n :: ns). rewrite Hns. split; [reflexivity|].
        constructor; [now exists n | exact Hall].
      * right. rewrite Hthrows. split; [reflexivity | now apply Exists_cons_tl].
    + right. rewrite Hthrow. split; [reflexivity | now apply Exists_cons_hd].
Qed.

(** X1: for an array whose first element is an array, a [null] element
    makes [extractTableData] throw the [TypeError] of reading [length] of
    [null]; an element whose [length] has no number, where none is [null],
    makes it throw as well; and whenever rows are returned, no element is
    [null] and the [length] of every element has a number. *)
Theorem extractTableData_throws_on_unreadable_lengths :
  forall (E : Engine) (first : value) (rest : list value),
    isArray first = true ->
    let items := first :: rest in
    (In VNull items ->
       JSONParser.extractTableData (VArr items)
       = Throws (TypeError_message (u "length")))
    /\ (~ In VNull items ->
        Exists (fun item => ToNumber (get_own item (u "length"))
                            = Throws TypeError_primitive) items ->
        exists message, JSONParser.extractTableData (VArr items) = Throws message)
    /\ (forall rows,
          JSONParser.extractTableData (VArr items) = Returns rows ->
          ~ In VNull items
          /\ Forall (fun item => exists n, ToNumber (get_own item (u "length"))
                                           = Returns n) items).
Proof.
  intros E first rest Harr items.
  assert (Hobj : isPlainObject first = false)
    by (destruct first; auto; discriminate).
  assert (Hunfold :
            JSONParser.extractTableData (VArr items)
            = (lengths <- mapM (fun arr => Get arr (u "length")) items ;;
               numbers <- mapM ToNumber lengths ;;
               match JSNumber.iterations (JSNumber.max numbers) with
               | None => Diverges
               | Some n => Returns (mapi (JSONParser.arrayRow n) items)
               end)).
  { unfold items. cbn [JSONParser.extractTableData]. now rewrite Hobj, Harr. }
  assert (Hnull : In VNull items ->
                  JSONParser.extractTableData (VArr items)
                  = Throws (TypeError_message (u "length"))).
  { intro Hin. rewrite Hunfold, (mapM_Get_null _ _ Hin). reflexivity. }
  assert (Hconvert :
            ~ In VNull items ->
            JSONParser.extractTableData (VArr items)
            = (numbers <- mapM ToNumber
                            (map (fun arr => get_own arr (u "length")) items) ;;
               match JSNumber.iterations (JSNumber.max numbers) with
               | None => Diverges
               | Some n => Returns (mapi (JSONParser.arrayRow n) items)
               end)).
  { intro Hnot. rewrite Hunfold, (mapM_Get_no_null _ _ Hnot). reflexivity. }
  split; [exact Hnull|]. split.
  - intros Hnot Hex. rewrite (Hconvert Hnot).
    destruct (mapM_ToNumber_cases
                (map (fun arr => get_own arr (u "length")) items))
      as [(ns & Hns & Hall) | [Hthrows _]].
    + exfalso. rewrite Forall_map in Hall. rewrite Forall_forall in Hall.
      apply Exists_exists in Hex. destruct Hex as (item & Hitem & Hthrow).
      destruct (Hall item Hitem) as [n Hn]. congruence.
    + rewrite Hthrows. now exists TypeError_primitive.
  - intros rows Hrows.
    destruct (In_null_dec items) as [Hin | Hnot];
      [rewrite (Hnull Hin) in Hrows; discriminate Hrows|].
    split; [exact Hnot|].
    rewrite (Hconvert Hnot) in Hrows.
    destruct (mapM_ToNumber_cases
                (map (fun arr => get_own arr (u "length")) items))
      as [(ns & Hns & Hall) | [Hthrows _]].
    + now rewrite Forall_map in Hall.
    + rewrite Hthrows in Hrows. discriminate Hrows.
Qed.

(** X1 on [[[1], null]], with the reference engine. *)
Lemma extractTableData_throws_on_unreadable_lengths_witness :
  @JSONParser.extractTableData Reference.engine
    (VArr [VArr [VNum (JSNumber.of_Z 1)]; VNull])
  = Throws (@TypeError_message Reference.engine (u "length")).
Proof.
  apply (proj1 (extractTableData_throws_on_unreadable_lengths Reference.engine
                  (VArr [VNum (JSNumber.of_Z 1)]) [VNull] eq_refl)).
  right. now left.
Defined.

(** An element whose [length] is an object with a property [toString]:
    [[[1], {"length": {"toString": 1}}]] throws the [TypeError] of the
    conversion. *)
Example extractTableData_length_without_number :
  @JSONParser.extractTableData Reference.engine
    (VArr [VArr [VNum (JSNumber.of_Z 1)];
           VObj [(u "length", VObj [(u "toString", VNum (JSNumber.of_Z 1))])]])
  = Throws (@TypeError_primitive Reference.engine).
Proof. vm_compute. reflexivity. Qed.
(* ===================================================================== *)
(** ** flattenObjectToTable and getNestedValue *)
(* ===================================================================== *)

Lemma flatten_fold (props : list (jsstring * value)) (prefix : jsstring)
  (acc : JSONParser.Flattened) :
  JSONParser.flatten (VObj props) prefix acc
  = fold_left (flattenEntry prefix) props acc.
Proof.
  revert acc. induction props as [|[key v] props IH]; intro acc; [reflexivity|].
  cbn [fold_left]. rewrite <- IH. reflexivity.
Qed.

Lemma flattenObjectKeys_fold (props : list (jsstring * value))
  (keySet : list jsstring) (prefix : jsstring) :
  TableRenderer.flattenObjectKeys (VObj props) keySet prefix
  = fold_left (flattenKeysEntry prefix) props keySet.
Proof.
  revert keySet. induction props as [|[key v] props IH]; intro keySet;
    [reflexivity|].
  cbn [fold_left]. rewrite <- IH. reflexivity.
Qed.

Lemma flatten_not_object (v : value) (prefix : jsstring)
  (acc : JSONParser.Flattened) :
  isPlainObject v = false -> JSONParser.flatten v prefix acc = acc.
Proof. destruct v; try reflexivity. discriminate. Qed.

Lemma eqb_sym (a b : jsstring) : JSString.eqb a b = JSString.eqb b a.
Proof.
  destruct (JSString.eqb a b) eqn:Hab; symmetry.
  - apply eqb_eq in Hab. subst. apply eqb_refl.
  - apply eqb_neq. apply eqb_neq in Hab. congruence.
Qed.

Lemma assign_keys (acc : list (jsstring * value)) (key : jsstring) (v : value) :
  map fst (assign acc key v) = TableRenderer.Set_add (map fst acc) key.
Proof.
  unfold TableRenderer.Set_add.
  induction acc as [|[k w] acc IH]; [reflexivity|].
  cbn [assign map fst existsb]. rewrite (eqb_sym key k).
  destruct (JSString.eqb k key); cbn [orb map fst]; [reflexivity|].
  rewrite IH. now destruct (existsb (JSString.eqb key) (map fst acc)).
Qed.

Lemma assign_leafValued (acc : list (jsstring * value)) (key : jsstring)
  (v : value) :
  leafValued acc -> isPlainObject v = false -> leafValued (assign acc key v).
Proof.
  unfold leafValued. intros Hacc Hv.
  induction acc as [|[k w] acc IH]; cbn [assign].
  - now constructor.
  - inversion Hacc as [|? ? Hw Hrest]; subst.
    destruct (JSString.eqb k key); constructor; auto.
Qed.

(** An assignment to [flattened] leaves its keys as they are or adds the
    key. *)
Lemma setProperty_keys (acc : JSONParser.Flattened) (key : jsstring) (v : value) :
  map fst (JSONParser.cells (JSONParser.setProperty acc key v))
  = if JSString.eqb key (u "__proto__") && JSONParser.inheritsProto acc
    then map fst (JSONParser.cells acc)
    else TableRenderer.Set_add (map fst (JSONParser.cells acc)) key.
Proof.
  unfold JSONParser.setProperty.
  destruct (JSString.eqb key (u "__proto__") && JSONParser.inheritsProto acc);
    [reflexivity | apply assign_keys].
Qed.

Lemma setProperty_NoDup (acc : JSONParser.Flattened) (key : jsstring) (v : value) :
  NoDup (map fst (JSONParser.cells acc)) ->
  NoDup (map fst (JSONParser.cells (JSONParser.setProperty acc key v))).
Proof.
  intro H. rewrite setProperty_keys.
  destruct (JSString.eqb key (u "__proto__") && JSONParser.inheritsProto acc);
    [exact H | now apply Set_add_NoDup].
Qed.

Lemma setProperty_leafValued (acc : JSONParser.Flattened) (key : jsstring)
  (v : value) :
  leafValued (JSONParser.cells acc) -> isPlainObject v = false ->
  leafValued (JSONParser.cells (JSONParser.setProperty acc key v)).
Proof.
  intros Hacc Hv. unfold JSONParser.setProperty.
  destruct (JSString.eqb key (u "__proto__") && JSONParser.inheritsProto acc);
    [exact Hacc | now apply assign_leafValued].
Qed.

Lemma flatten_NoDup (v : value) :
  forall (prefix : jsstring) (acc : JSONParser.Flattened),
    NoDup (map fst (JSONParser.cells acc)) ->
    NoDup (map fst (JSONParser.cells (JSONParser.flatten v prefix acc))).
Proof.
  induction v as [| | | | |props IH] using value_nested_ind;
    intros prefix acc Hacc; try exact Hacc.
  rewrite flatten_fold.
  revert acc Hacc. induction props as [|[key w] props IHprops]; intros acc Hacc;
    [exact Hacc|].
  inversion IH as [|? ? Hw Hrest]; subst. cbn [fold_left].
  apply (IHprops Hrest). unfold flattenEntry. cbn [fst snd] in *.
  destruct (isPlainObject w); [now apply Hw | now apply setProperty_NoDup].
Qed.

Lemma flatten_leafValued (v : value) :
  forall (prefix : jsstring) (acc : JSONParser.Flattened),
    leafValued (JSONParser.cells acc) ->
    leafValued (JSONParser.cells (JSONParser.flatten v prefix acc)).
Proof.
  induction v as [| | | | |props IH] using value_nested_ind;
    intros prefix acc Hacc; try exact Hacc.
  rewrite flatten_fold.
  revert acc Hacc. induction props as [|[key w] props IHprops]; intros acc Hacc;
    [exact Hacc|].
  inversion IH as [|? ? Hw Hrest]; subst. cbn [fold_left].
  apply (IHprops Hrest). unfold flattenEntry. cbn [fst snd] in *.
  destruct (isPlainObject w) eqn:Hobj;
    [now apply Hw | now apply setProperty_leafValued].
Qed.

Lemma flattenObjectKeys_NoDup (v : value) :
  forall (prefix : jsstring) (keySet : list jsstring),
    isPlainObject v = true ->
    NoDup keySet -> NoDup (TableRenderer.flattenObjectKeys v keySet prefix).
Proof.
  induction v as [| | | | |props IH] using value_nested_ind;
    intros prefix keySet Hobj Hset; try discriminate Hobj.
  rewrite flattenObjectKeys_fold. clear Hobj.
  revert keySet Hset.
  induction props as [|[key w] props IHprops]; intros keySet Hset; [exact Hset|].
  inversion IH as [|? ? Hw Hrest]; subst. cbn [fold_left].
  apply (IHprops Hrest). unfold flattenKeysEntry. cbn [fst snd] in *.
  destruct (isPlainObject w) eqn:Hobj; [now apply Hw | now apply Set_add_NoDup].
Qed.

(** The keys of the cells are among the keys [flattenObjectKeys] collects,
    and hold all of them except, possibly, [__proto__]. *)
Lemma flatten_keys (v : value) :
  forall (prefix : jsstring) (acc : JSONParser.Flattened)
    (keySet : list jsstring),
    isPlainObject v = true ->
    cellsFor (JSONParser.cells acc) keySet ->
    cellsFor (JSONParser.cells (JSONParser.flatten v prefix acc))
             (TableRenderer.flattenObjectKeys v keySet prefix).
Proof.
  induction v as [| | | | |props IH] using value_nested_ind;
    intros prefix acc keySet Hobj Hinv; try discriminate Hobj.
  rewrite flatten_fold, flattenObjectKeys_fold. clear Hobj.
  revert acc keySet Hinv.
  induction props as [|[key w] props IHprops]; intros acc keySet Hinv;
    [exact Hinv|].
  inversion IH as [|? ? Hw Hrest]; subst. cbn [fold_left].
  apply (IHprops Hrest).
  unfold flattenEntry, flattenKeysEntry. cbn [fst snd] in *.
  destruct (isPlainObject w) eqn:Hobj; [now apply Hw|].
  destruct Hinv as [Hincl Hother]. unfold cellsFor.
  rewrite setProperty_keys. split.
  - intros k Hk. apply Set_add_In.
    destruct (JSString.eqb (TableRenderer.fullKey prefix key) (u "__proto__")
              && JSONParser.inheritsProto acc).
    + left. now apply Hincl.
    + apply Set_add_In in Hk. destruct Hk as [Hk | Hk]; [left; now apply Hincl|].
      now right.
  - intros k Hne Hk. apply Set_add_In in Hk.
    destruct (JSString.eqb (TableRenderer.fullKey prefix key) (u "__proto__")
              && JSONParser.inheritsProto acc) eqn:Hsetter.
    + destruct Hk as [Hk | ->]; [now apply Hother|].
      apply andb_prop in Hsetter. destruct Hsetter as [Heq _].
      apply eqb_eq in Heq. contradiction.
    + apply Set_add_In. destruct Hk as [Hk | ->]; [left; now apply Hother|].
      now right.
Qed.

(** A flat object with distinct keys, none of them [__proto__], is its own
    flattened row. *)
Lemma flatten_flat (props acc : list (jsstring * value)) (inherits : bool) :
  leafValued props ->
  NoDup (map fst (acc ++ props)) ->
  ~ In (u "__proto__") (map fst props) ->
  fold_left (flattenEntry []) props
            {| JSONParser.cells := acc; JSONParser.inheritsProto := inherits |}
  = {| JSONParser.cells := acc ++ props; JSONParser.inheritsProto := inherits |}.
Proof.
  revert acc. induction props as [|[key w] props IH]; intros acc Hleaf Hnodup Hproto.
  - now rewrite app_nil_r.
  - inversion Hleaf as [|? ? Hw Hrest]; subst. cbn [fold_left].
    unfold flattenEntry at 2. cbn [fst snd TableRenderer.fullKey] in *.
    rewrite Hw. unfold JSONParser.setProperty.
    cbn [JSONParser.cells JSONParser.inheritsProto].
    assert (Hkey : JSString.eqb key (u "__proto__") = false).
    { apply eqb_neq. intros ->. apply Hproto. now left. }
    rewrite Hkey. cbn [andb]. rewrite assign_fresh.
    + rewrite IH; [now rewrite <- app_assoc | exact Hrest | |].
      * now rewrite <- app_assoc.
      * intro Hin. apply Hproto. now right.
    + rewrite map_app in Hnodup. cbn [map fst] in Hnodup.
      apply NoDup_remove_2 in Hnodup.
      apply Forall_forall. intros [k x] Hin. cbn [fst].
      apply eqb_neq. intros ->. apply Hnodup.
      apply in_or_app. left. apply in_map_iff. now exists (key, x).
Qed.

Lemma lookup_None_keys (props : list (jsstring * value)) (key : jsstring) :
  lookup key props = None -> ~ In key (map fst props).
Proof.
  induction props as [|[k w] props IH]; cbn [lookup map fst]; [intros _ []|].
  destruct (JSString.eqb k key) eqn:Hk; [discriminate|].
  intros H [Heq | Hin]; [|now apply IH].
  apply eqb_neq in Hk. contradiction.
Qed.

(** X2: [flattenObjectToTable] returns exactly one row.  Its keys are
    distinct and none of its values is a plain object.  Flattening the row
    again returns the same row, unless the row has a cell [__proto__]: such
    a cell only comes about after the prototype of the row was removed, and
    flattening again does not create it. *)
Theorem flattenObjectToTable_single_leaf_row :
  forall obj : value,
    let row :=
      JSONParser.cells (JSONParser.flatten obj [] JSONParser.emptyObject) in
    JSONParser.flattenObjectToTable obj = [VObj row]
    /\ NoDup (own_keys (VObj row))
    /\ Forall (fun v => isPlainObject v = false) (own_values (VObj row))
    /\ (get_own (VObj row) (u "__proto__") = None ->
        JSONParser.flattenObjectToTable (VObj row) = [VObj row]).
Proof.
  intros obj row.
  assert (Hleaf : leafValued row) by (apply flatten_leafValued; constructor).
  assert (Hnodup : NoDup (map fst row)) by (apply flatten_NoDup; constructor).
  split; [reflexivity|]. split; [exact Hnodup|]. split.
  - cbn [own_values]. apply Forall_map. exact Hleaf.
  - intro Hproto. cbn [get_own] in Hproto. apply lookup_None_keys in Hproto.
    unfold JSONParser.flattenObjectToTable. f_equal. f_equal.
    rewrite flatten_fold. unfold JSONParser.emptyObject.
    now rewrite (flatten_flat row [] true).
Qed.

(** X2 on [{"a": {"b": 1}}]: its row [{"a.b": 1}] is its own flattened
    row. *)
Lemma flattenObjectToTable_single_leaf_row_witness :
  JSONParser.flattenObjectToTable (VObj [(u "a.b", VNum (JSNumber.of_Z 1))])
  = [VObj [(u "a.b", VNum (JSNumber.of_Z 1))]].
Proof.
  apply (proj2 (proj2 (proj2 (flattenObjectToTable_single_leaf_row
                                (VObj [(u "a", VObj [(u "b", VNum (JSNumber.of_Z 1))])]))))).
  reflexivity.
Defined.

(** An object with the member [__proto__] holding [null], followed by a
    member with the empty key holding [{"__proto__": 5}]: the first
    assignment removes the prototype of [flattened] and with it the setter,
    so the second one creates the property [__proto__]; flattening this row
    again loses it. *)
Example flattenObjectToTable_own_proto :
  JSONParser.flattenObjectToTable
    (VObj [(u "__proto__", VNull);
           ([], VObj [(u "__proto__", VNum (JSNumber.of_Z 5))])])
  = [VObj [(u "__proto__", VNum (JSNumber.of_Z 5))]]
  /\ JSONParser.flattenObjectToTable
       (VObj [(u "__proto__", VNum (JSNumber.of_Z 5))])
     = [VObj []].
Proof. split; vm_compute; reflexivity. Qed.

Lemma fold_Set_add_fresh (keys set : list jsstring) :
  NoDup (set ++ keys) -> fold_left TableRenderer.Set_add keys set = set ++ keys.
Proof.
  revert set. induction keys as [|k keys IH]; intros set H; cbn [fold_left].
  - now rewrite app_nil_r.
  - assert (Hk : TableRenderer.Set_add set k = set ++ [k]).
    { unfold TableRenderer.Set_add.
      destruct (existsb (JSString.eqb k) set) eqn:Hex; [|reflexivity].
      apply existsb_exists in Hex. destruct Hex as (x & Hx & Heq).
      apply eqb_eq in Heq. subst x. apply NoDup_remove_2 in H.
      exfalso. apply H. apply in_or_app. now left. }
    rewrite Hk, IH; rewrite <- app_assoc; [reflexivity | exact H].
Qed.

Lemma nestedHeaders_strictly_sorted (props : list (jsstring * value)) :
  StronglySorted JSString.lt
    (TableRenderer.extractHeadersFromNestedStructure [VObj props]).
Proof.
  unfold TableRenderer.extractHeadersFromNestedStructure.
  cbn [fold_left TableRenderer.isObjectRow].
  apply sorted_distinct_strict.
  - apply Array_sort_sorted. intros x y _ _ H.
    rewrite compare_antisym, H. discriminate.
  - eapply Permutation_NoDup.
    + symmetry. apply Array_sort_perm.
    + apply flattenObjectKeys_NoDup; [reflexivity | constructor].
Qed.

(** X3: the headers [extractHeaders] derives from the flattened table
    of an object are among the headers [extractHeadersFromNestedStructure]
    collects from the object itself, and hold all of them except, possibly,
    [__proto__], for which the flattened row may have no cell.  When
    [__proto__] is not among the collected headers, the two lists are
    equal. *)
Theorem extractHeaders_flattened :
  forall props : list (jsstring * value),
    let flat :=
      TableRenderer.extractHeaders
        (JSONParser.flattenObjectToTable (VObj props)) in
    let nested := TableRenderer.extractHeadersFromNestedStructure [VObj props] in
    incl flat nested
    /\ (forall header, header <> u "__proto__" -> In header nested ->
          In header flat)
    /\ (~ In (u "__proto__") nested -> flat = nested).
Proof.
  intros props flat nested.
  pose proof (flatten_keys (VObj props) [] JSONParser.emptyObject [] eq_refl)
    as Hkeys.
  destruct Hkeys as [Hincl Hother].
  { split; [intros k [] | intros k _ []]. }
  assert (Hflat : forall k,
            In k flat
            <-> In k (map fst (JSONParser.cells
                                 (JSONParser.flatten (VObj props) []
                                    JSONParser.emptyObject)))).
  { intro k. unfold flat. rewrite extractHeaders_In.
    unfold Spec.keyOfSomeRow, JSONParser.flattenObjectToTable. split.
    - intros (row & [<- | []] & _ & Hk). exact Hk.
    - intro Hk. eexists. split; [now left|]. split; [reflexivity | exact Hk]. }
  assert (Hnested : forall k,
            In k nested
            <-> In k (TableRenderer.flattenObjectKeys (VObj props) [] [])).
  { intro k. unfold nested, TableRenderer.extractHeadersFromNestedStructure.
    cbn [fold_left TableRenderer.isObjectRow]. apply Array_sort_In. }
  split; [|split].
  - intros k Hk. apply Hnested. apply Hincl. now apply Hflat.
  - intros k Hne Hk. apply Hflat. apply Hother; [exact Hne|]. now apply Hnested.
  - intro Hproto. apply strictly_sorted_unique.
    + apply extractHeaders_strictly_sorted.
    + apply nestedHeaders_strictly_sorted.
    + intro k. split.
      * intro Hk. apply Hnested. apply Hincl. now apply Hflat.
      * intro Hk. apply Hflat. apply Hother; [|now apply Hnested].
        intros ->. contradiction.
Qed.

(** X3 on [{"a": {"b": 1}, "c": 2}]. *)
Lemma extractHeaders_flattened_witness :
  TableRenderer.extractHeaders
    (JSONParser.flattenObjectToTable
       (VObj [(u "a", VObj [(u "b", VNum (JSNumber.of_Z 1))]);
              (u "c", VNum (JSNumber.of_Z 2))]))
  = TableRenderer.extractHeadersFromNestedStructure
      [VObj [(u "a", VObj [(u "b", VNum (JSNumber.of_Z 1))]);
             (u "c", VNum (JSNumber.of_Z 2))]].
Proof.
  apply (proj2 (proj2 (extractHeaders_flattened
                         [(u "a", VObj [(u "b", VNum (JSNumber.of_Z 1))]);
                          (u "c", VNum (JSNumber.of_Z 2))]))).
  vm_compute. intros [H | [H | []]]; discriminate H.
Defined.

(** The headers of [{"__proto__": 5, "a": {"b": 1}}]: the flattened row has
    no cell for [__proto__]. *)
Example extractHeaders_flattened_proto :
  TableRenderer.extractHeaders
    (JSONParser.flattenObjectToTable
       (VObj [(u "__proto__", VNum (JSNumber.of_Z 5));
              (u "a", VObj [(u "b", VNum (JSNumber.of_Z 1))])]))
  = [u "a.b"]
  /\ TableRenderer.extractHeadersFromNestedStructure
       [VObj [(u "__proto__", VNum (JSNumber.of_Z 5));
              (u "a", VObj [(u "b", VNum (JSNumber.of_Z 1))])]]
     = [u "__proto__"; u "a.b"].
Proof. split; vm_compute; reflexivity. Qed.

(* ---- split ---- *)
Lemma split_not_nil (sep : N) (s : jsstring) : JSText.split sep s <> [].
Proof.
  induction s as [|c s IH]; cbn [JSText.split]; [discriminate|].
  destruct (c =? sep)%N; [discriminate|].
  destruct (JSText.split sep s); discriminate.
Qed.

Lemma split_without_separator (sep : N) (s : jsstring) :
  ~ In sep s -> JSText.split sep s = [s].
Proof.
  induction s as [|c s IH]; intro H; cbn [JSText.split]; [reflexivity|].
  destruct (c =? sep)%N eqn:Hc.
  - apply N.eqb_eq in Hc. subst c. exfalso. apply H. now left.
  - rewrite IH; [reflexivity|]. intro Hin. apply H. now right.
Qed.

Lemma split_app_separator (sep : N) (p key : jsstring) :
  ~ In sep key ->
  JSText.split sep (p ++ sep :: key) = JSText.split sep p ++ [key].
Proof.
  intro Hkey. induction p as [|c p IH]; cbn [app JSText.split].
  - rewrite N.eqb_refl. now rewrite split_without_separator.
  - destruct (c =? sep)%N; rewrite IH; [reflexivity|].
    pose proof (split_not_nil sep p) as Hne.
    destruct (JSText.split sep p); [congruence | reflexivity].
Qed.

Lemma includes_separator (sep : N) (s : jsstring) :
  JSString.includes s [sep] = false -> ~ In sep s.
Proof.
  intros H Hin. apply in_split in Hin. destruct Hin as (pre & post & ->).
  assert (Hinc : JSString.includes (pre ++ sep :: post) [sep] = true).
  { apply includes_spec. now exists pre, post. }
  congruence.
Qed.

Lemma plainKey_spec (key : jsstring) :
  plainKey key = true <-> key <> [] /\ ~ In 46%N key.
Proof.
  unfold plainKey. rewrite andb_true_iff, !negb_true_iff. split.
  - intros [Hne Hdot]. split; [now destruct key|].
    intro Hin. assert (H : existsb (N.eqb 46) key = true).
    { apply existsb_exists. exists 46%N. split; [exact Hin | apply N.eqb_refl]. }
    congruence.
  - intros [Hne Hdot]. split; [now destruct key|].
    destruct (existsb (N.eqb 46) key) eqn:H; [|reflexivity].
    apply existsb_exists in H. destruct H as (c & Hc & Heq).
    apply N.eqb_eq in Heq. subst c. contradiction.
Qed.

Lemma fullKey_nonempty (prefix key : jsstring) :
  key <> [] -> TableRenderer.fullKey prefix key <> [].
Proof.
  intro H. unfold TableRenderer.fullKey. destruct prefix; [exact H | discriminate].
Qed.

(** The segments of a key built from plain keys are those keys. *)
Lemma split_pathKey_from (prefix : jsstring) (segments : list jsstring) :
  prefix <> [] ->
  Forall (fun key => plainKey key = true) segments ->
  JSText.split 46 (pathKey prefix segments) = JSText.split 46 prefix ++ segments.
Proof.
  revert prefix. induction segments as [|key segments IH]; intros prefix Hne Hkeys.
  - now rewrite app_nil_r.
  - inversion Hkeys as [|? ? Hkey Hrest]; subst.
    apply plainKey_spec in Hkey. destruct Hkey as [Hkne Hdot].
    unfold pathKey. cbn [fold_left]. fold (pathKey (TableRenderer.fullKey prefix key) segments).
    rewrite IH; [|now apply fullKey_nonempty | exact Hrest].
    unfold TableRenderer.fullKey. destruct prefix as [|c prefix]; [congruence|].
    change (u ".") with [46%N]. cbn [app].
    change (c :: prefix ++ 46%N :: key) with ((c :: prefix) ++ 46%N :: key).
    rewrite split_app_separator by exact Hdot. now rewrite <- app_assoc.
Qed.

Lemma split_pathKey (segments : list jsstring) :
  segments <> [] ->
  Forall (fun key => plainKey key = true) segments ->
  JSText.split 46 (pathKey [] segments) = segments.
Proof.
  destruct segments as [|key segments]; [congruence|]. intros _ Hkeys.
  inversion Hkeys as [|? ? Hkey Hrest]; subst.
  pose proof Hkey as Hkey'. apply plainKey_spec in Hkey'. destruct Hkey' as [Hkne Hdot].
  unfold pathKey. cbn [fold_left TableRenderer.fullKey].
  fold (pathKey key segments).
  rewrite split_pathKey_from by assumption.
  now rewrite split_without_separator.
Qed.

Lemma pathKey_nonempty (prefix : jsstring) (segments : list jsstring) :
  segments <> [] ->
  Forall (fun key => plainKey key = true) segments ->
  pathKey prefix segments <> [].
Proof.
  revert prefix. induction segments as [|key segments IH]; intros prefix Hne Hkeys;
    [congruence|].
  inversion Hkeys as [|? ? Hkey Hrest]; subst.
  apply plainKey_spec in Hkey. destruct Hkey as [Hkne Hdot].
  unfold pathKey. cbn [fold_left]. fold (pathKey (TableRenderer.fullKey prefix key) segments).
  destruct segments as [|key' segments'].
  - cbn. now apply fullKey_nonempty.
  - apply IH; [discriminate | exact Hrest].
Qed.

(* ---- lookup ---- *)
Lemma lookup_assign (acc : list (jsstring * value)) (key k : jsstring) (v : value) :
  lookup k (assign acc key v)
  = if JSString.eqb key k then Some v else lookup k acc.
Proof.
  induction acc as [|[k' w] acc IH]; cbn [assign lookup].
  - reflexivity.
  - destruct (JSString.eqb k' key) eqn:Hk'; cbn [lookup].
    + apply eqb_eq in Hk'. subst k'. now destruct (JSString.eqb key k).
    + destruct (JSString.eqb k' k) eqn:Hkk; [|exact IH].
      apply eqb_eq in Hkk. subst k'. now rewrite eqb_sym, Hk'.
Qed.

Lemma distinct_NoDup (keys : list jsstring) :
  distinct keys = true <-> NoDup keys.
Proof.
  induction keys as [|k keys IH]; cbn [distinct].
  - split; [constructor | reflexivity].
  - rewrite andb_true_iff, negb_true_iff, IH. split.
    + intros [Hk Hrest]. constructor; [|exact Hrest].
      intro Hin. assert (H : existsb (JSString.eqb k) keys = true).
      { apply existsb_exists. exists k. split; [exact Hin | apply eqb_refl]. }
      congruence.
    + intro H. inversion H as [|? ? Hk Hrest]; subst. split; [|exact Hrest].
      destruct (existsb (JSString.eqb k) keys) eqn:Hex; [|reflexivity].
      apply existsb_exists in Hex. destruct Hex as (x & Hx & Heq).
      apply eqb_eq in Heq. subst x. contradiction.
Qed.

Lemma lookup_NoDup_In (props : list (jsstring * value)) (key : jsstring) (v : value) :
  NoDup (map fst props) -> In (key, v) props -> lookup key props = Some v.
Proof.
  induction props as [|[k w] props IH]; intros Hnodup Hin; [destruct Hin|].
  cbn [map fst] in Hnodup. inversion Hnodup as [|? ? Hk Hrest]; subst.
  cbn [lookup]. destruct Hin as [Heq|Hin].
  - injection Heq as -> ->. now rewrite eqb_refl.
  - destruct (JSString.eqb k key) eqn:Hkk; [|now apply IH].
    apply eqb_eq in Hkk. subst k. exfalso. apply Hk.
    apply in_map_iff. now exists (key, v).
Qed.

Lemma plainKeys_props (props : list (jsstring * value)) :
  plainKeys (VObj props) = true ->
  NoDup (map fst props)
  /\ Forall (fun entry => plainKey (fst entry) = true
                          /\ plainKeys (snd entry) = true) props.
Proof.
  cbn [plainKeys]. rewrite andb_true_iff, distinct_NoDup.
  intros [Hnodup Heach]. split; [exact Hnodup|]. clear Hnodup.
  induction props as [|[key w] props IH]; constructor.
  - cbn [fst snd]. apply andb_prop in Heach. destruct Heach as [Hkw _].
    now apply andb_prop in Hkw.
  - apply IH. apply andb_prop in Heach. now destruct Heach.
Qed.

Lemma member_get_own (v : value) (key : jsstring) :
  Renderer.member (Some v) key = get_own v key.
Proof. now destruct v. Qed.

Lemma fold_member_undefined (segments : list jsstring) :
  fold_left Renderer.member segments None = None.
Proof. induction segments as [|key segments IH]; [reflexivity | exact IH]. Qed.

Lemma leafAt_fold (segments : list jsstring) :
  forall (v x : value),
    leafAt v segments x -> fold_left Renderer.member segments (Some v) = Some x.
Proof.
  induction segments as [|key segments IH]; intros v x H; [destruct H|].
  cbn [fold_left]. rewrite member_get_own. cbn [leafAt] in H.
  destruct segments as [|key' segments'].
  - destruct H as [H _]. now rewrite H.
  - destruct H as (w & Hw & _ & Hrest). rewrite Hw. now apply IH.
Qed.

(** What [flatten] writes: every entry of the result was in [flattened]
    before, or is the leaf found in [current] along a path of plain keys
    whose key it carries. *)
Lemma flatten_sound (current : value) :
  forall (prefix : jsstring) (flattened : JSONParser.Flattened)
    (k : jsstring) (x : value),
    plainKeys current = true ->
    lookup k (JSONParser.cells (JSONParser.flatten current prefix flattened))
    = Some x ->
    lookup k (JSONParser.cells flattened) = Some x
    \/ exists segments,
         Forall (fun key => plainKey key = true) segments
         /\ k = pathKey prefix segments
         /\ leafAt current segments x.
Proof.
  induction current as [| | | | |props IH] using value_nested_ind;
    intros prefix flattened k x Hkeys Hlookup; try (left; exact Hlookup).
  rewrite flatten_fold in Hlookup.
  apply plainKeys_props in Hkeys. destruct Hkeys as [Hnodup Hentries].
  assert (Hin : forall entry, In entry props -> In entry props) by auto.
  revert Hin Hlookup. generalize props at 1 3 as ps. intro ps.
  revert flattened. induction ps as [|[key w] ps IHps];
    intros flattened Hin Hlookup; [left; exact Hlookup|].
  cbn [fold_left] in Hlookup.
  apply IHps in Hlookup; [|intros e He; apply Hin; now right].
  destruct Hlookup as [Hlookup|Hpath]; [|right; exact Hpath].
  assert (Hkw : In (key, w) props) by (apply Hin; now left).
  rewrite Forall_forall in IH, Hentries.
  specialize (IH _ Hkw). specialize (Hentries _ Hkw).
  cbn [fst snd] in IH, Hentries. destruct Hentries as [Hkey Hw].
  assert (Hget : get_own (VObj props) key = Some w).
  { cbn [get_own]. now apply lookup_NoDup_In. }
  unfold flattenEntry in Hlookup. cbn [fst snd] in Hlookup.
  destruct (isPlainObject w) eqn:Hobj.
  - apply IH in Hlookup; [|exact Hw].
    destruct Hlookup as [Hlookup|(segments & Hplain & -> & Hleaf)];
      [left; exact Hlookup|].
    right. exists (key :: segments). repeat split.
    + now constructor.
    + destruct segments as [|key' segments']; [destruct Hleaf|].
      exists w. now repeat split.
  - unfold JSONParser.setProperty in Hlookup.
    destruct (JSString.eqb (TableRenderer.fullKey prefix key) (u "__proto__")
              && JSONParser.inheritsProto flattened);
      [left; exact Hlookup|].
    cbn [JSONParser.cells] in Hlookup. rewrite lookup_assign in Hlookup.
    destruct (JSString.eqb (TableRenderer.fullKey prefix key) k) eqn:Hk;
      [|left; exact Hlookup].
    apply eqb_eq in Hk. injection Hlookup as <-.
    right. exists [key]. repeat split.
    + now constructor.
    + now symmetry.
    + exact Hget.
    + exact Hobj.
Qed.

Lemma leafAt_nonempty (v : value) (segments : list jsstring) (x : value) :
  leafAt v segments x -> segments <> [].
Proof. destruct segments; [intros [] | discriminate]. Qed.

(** For an object and a path that is not empty, [getNestedValue] follows
    the segments of the path. *)
Lemma getNestedValue_fold (v : value) (path : jsstring) :
  Renderer.truthy (Some v) = true -> path <> [] ->
  Renderer.getNestedValue (Some v) path
  = fold_left Renderer.member (JSText.split 46 path) (Some v).
Proof.
  intros Htruthy Hpath. unfold Renderer.getNestedValue. rewrite Htruthy.
  destruct path as [|c path]; [congruence|]. cbn [negb orb JSText.isEmpty].
  change (u ".") with [46%N].
  destruct (JSString.includes (c :: path) [46%N]) eqn:Hinc; [reflexivity|].
  apply includes_separator in Hinc.
  rewrite split_without_separator by exact Hinc.
  cbn [negb fold_left Renderer.member]. now destruct v.
Qed.

(** X4: for an object whose keys, and those of the plain objects nested
    in it, are distinct, not empty and free of dots, every cell of the
    flattened row is the value [getNestedValue] reads from the original
    object at the cell's dotted header. *)
Theorem getNestedValue_flattened :
  forall (props : list (jsstring * value)) (header : jsstring) (cell : value),
    plainKeys (VObj props) = true ->
    (exists row,
        JSONParser.flattenObjectToTable (VObj props) = [row]
        /\ get_own row header = Some cell) ->
    Renderer.getNestedValue (Some (VObj props)) header = Some cell.
Proof.
  intros props header cell Hkeys (row & Hrow & Hcell).
  assert (Hr : row = VObj (JSONParser.cells
                            (JSONParser.flatten (VObj props) []
                               JSONParser.emptyObject))).
  { unfold JSONParser.flattenObjectToTable in Hrow. congruence. }
  subst row. clear Hrow. cbn [get_own] in Hcell.
  apply flatten_sound in Hcell; [|exact Hkeys].
  destruct Hcell as [Hcell|(segments & Hplain & -> & Hleaf)];
    [discriminate Hcell|].
  pose proof (leafAt_nonempty _ _ _ Hleaf) as Hne.
  rewrite getNestedValue_fold.
  - rewrite split_pathKey by assumption. now apply leafAt_fold.
  - reflexivity.
  - now apply pathKey_nonempty.
Qed.

(** X5: read from the flattened row itself, as [updateColumnDisplay]
    does with the rows on display, [getNestedValue] finds the cell of a
    header without a dot and yields [undefined] for every dotted header,
    although the row has a cell under that header.  The keys are as for X4,
    and the top-level keys are none of the names inherited from
    [Object.prototype], which [get_own] does not model. *)
Theorem getNestedValue_of_flattened_row :
  forall (props : list (jsstring * value)) (row : value) (header : jsstring)
    (cell : value),
    plainKeys (VObj props) = true ->
    Forall (fun entry =>
              existsb (JSString.eqb (fst entry)) Renderer.inheritedNames = false)
           props ->
    JSONParser.flattenObjectToTable (VObj props) = [row] ->
    get_own row header = Some cell ->
    Renderer.getNestedValue (Some row) header
    = if JSString.includes header (u ".") then None else Some cell.
Proof.
  intros props row header cell Hkeys _ Hrow Hcell.
  assert (Hr : row = VObj (JSONParser.cells
                            (JSONParser.flatten (VObj props) []
                               JSONParser.emptyObject))).
  { unfold JSONParser.flattenObjectToTable in Hrow. congruence. }
  subst row. clear Hrow. cbn [get_own] in Hcell.
  pose proof Hcell as Hpath.
  apply flatten_sound in Hpath; [|exact Hkeys].
  destruct Hpath as [Hpath|(segments & Hplain & -> & Hleaf)];
    [discriminate Hpath|].
  pose proof (leafAt_nonempty _ _ _ Hleaf) as Hne.
  rewrite getNestedValue_fold;
    [|reflexivity | now apply pathKey_nonempty].
  rewrite split_pathKey by assumption.
  destruct segments as [|key rest]; [congruence|].
  destruct rest as [|key' rest].
  - (* a top-level key: no dot *)
    pose proof (Forall_inv Hplain) as Hkey. cbn beta in Hkey.
    apply plainKey_spec in Hkey. destruct Hkey as [_ Hdot].
    change (pathKey [] [key]) with key in *.
    replace (JSString.includes key (u ".")) with false.
    + cbn [fold_left]. rewrite member_get_own. exact Hcell.
    + symmetry. change (u ".") with [46%N].
      destruct (JSString.includes key [46%N]) eqn:Hinc; [|reflexivity].
      apply includes_spec in Hinc. destruct Hinc as (pre & post & ->).
      exfalso. apply Hdot. apply in_or_app. right. now left.
  - (* a nested key: the first segment is no key of the row *)
    replace (JSString.includes (pathKey [] (key :: key' :: rest)) (u "."))
      with true.
    + cbn [fold_left]. rewrite member_get_own. cbn [get_own].
      destruct (lookup key (JSONParser.cells
                              (JSONParser.flatten (VObj props) []
                                 JSONParser.emptyObject))) as [y|] eqn:Hy;
        [|apply fold_member_undefined].
      exfalso. apply flatten_sound in Hy; [|exact Hkeys].
      destruct Hy as [Hy|(segments' & Hplain' & Hkey' & Hleaf')];
        [discriminate Hy|].
      pose proof (leafAt_nonempty _ _ _ Hleaf') as Hne'.
      pose proof (Forall_inv Hplain) as Hkey. cbn beta in Hkey.
      pose proof Hkey as Hkey2. apply plainKey_spec in Hkey2.
      destruct Hkey2 as [_ Hdot].
      assert (Hsegs : segments' = [key]).
      { rewrite <- (split_pathKey segments') by assumption.
        rewrite <- Hkey'. now apply split_without_separator. }
      subst segments'. cbn [leafAt] in Hleaf, Hleaf'.
      destruct Hleaf as (w & Hw & Hobj & _). destruct Hleaf' as [Hy Hleafy].
      congruence.
    + symmetry. apply includes_spec. change (u ".") with [46%N].
      assert (Hgen : forall segments p,
                 Spec.occursIn [46%N] p ->
                 Spec.occursIn [46%N] (pathKey p segments)).
      { clear. induction segments as [|k segments IH]; intros p Hp; [exact Hp|].
        unfold pathKey. cbn [fold_left]. apply IH.
        destruct Hp as (pre & post & ->).
        unfold TableRenderer.fullKey.
        destruct (pre ++ [46%N] ++ post) eqn:Heq.
        - destruct pre; discriminate Heq.
        - rewrite <- Heq. exists pre, (post ++ u "." ++ k).
          now rewrite <- !app_assoc. }
      unfold pathKey. cbn [fold_left]. apply (Hgen rest).
      pose proof (Forall_inv Hplain) as Hkey. cbn beta in Hkey.
      apply plainKey_spec in Hkey. destruct Hkey as [Hkne _].
      cbn [TableRenderer.fullKey].
      destruct key as [|c key]; [congruence|].
      change (u ".") with [46%N]. now exists (c :: key), key'.
Qed.

(** X4 on [{"user": {"name": "A"}, "id": 1}] and the header [user.name]. *)
Lemma getNestedValue_flattened_witness :
  Renderer.getNestedValue
    (Some (VObj [(u "user", VObj [(u "name", VStr (u "A"))]);
                 (u "id", VNum (JSNumber.of_Z 1))]))
    (u "user.name")
  = Some (VStr (u "A")).
Proof.
  apply getNestedValue_flattened.
  - vm_compute. reflexivity.
  - eexists. split; [reflexivity|]. vm_compute. reflexivity.
Defined.

(** X5 on the flattened row of [{"user": {"name": "A"}, "id": 1}]. *)
Lemma getNestedValue_of_flattened_row_witness :
  Renderer.getNestedValue
    (Some (VObj [(u "user.name", VStr (u "A")); (u "id", VNum (JSNumber.of_Z 1))]))
    (u "user.name")
  = if JSString.includes (u "user.name") (u ".") then None
    else Some (VStr (u "A")).
Proof.
  apply (getNestedValue_of_flattened_row
           [(u "user", VObj [(u "name", VStr (u "A"))]);
            (u "id", VNum (JSNumber.of_Z 1))]).
  - vm_compute. reflexivity.
  - repeat constructor.
  - vm_compute. reflexivity.
  - vm_compute. reflexivity.
Defined.

(* ===================================================================== *)
(** ** parseJSON and the rows of an array *)
(* ===================================================================== *)

(** X6: when the text parses to an array whose first element is an
    array and which holds a [null] element, [parseJSON] returns a result
    with [success] true and an error message at once: [data] is the parsed
    array itself and both counts are 0.  Every result with [success] true
    and an error comes from an exception of [extractTableData] on the parsed
    value: its [data] is the parsed value, its error the formatted
    exception, its type the type of the parsed value and both counts are
    0. *)
Theorem parseJSON_success_with_error :
  forall (E : Engine) (jsonString : jsstring),
    isBlank jsonString = false ->
    (forall first rest,
        JSON_parse jsonString = ParseOk (VArr (first :: rest)) ->
        isArray first = true ->
        In VNull rest ->
        JSONParser.parseJSON jsonString
        = Returns {| JSONParser.success := true;
                     JSONParser.data := VArr (first :: rest);
                     JSONParser.error :=
                       Some (JSONParser.formatErrorMessage
                               (TypeError_message (u "length")));
                     JSONParser.type := Some (u "array");
                     JSONParser.rowCount := 0;
                     JSONParser.columnCount := 0 |})
    /\ (forall result,
          JSONParser.parseJSON jsonString = Returns result ->
          JSONParser.success result = true ->
          JSONParser.error result <> None ->
          exists parsedData message,
            JSON_parse jsonString = ParseOk parsedData
            /\ JSONParser.extractTableData parsedData = Throws message
            /\ result
               = {| JSONParser.success := true;
                    JSONParser.data := parsedData;
                    JSONParser.error :=
                      Some (JSONParser.formatErrorMessage message);
                    JSONParser.type := Some (JSONParser.getDataType parsedData);
                    JSONParser.rowCount := 0;
                    JSONParser.columnCount := 0 |}).
Proof.
  intros E jsonString Hblank. split.
  - intros first rest Hparse Harr Hnull.
    unfold JSONParser.parseJSON. rewrite Hblank, Hparse.
    assert (Hthrows : JSONParser.extractTableData (VArr (first :: rest))
                      = Throws (TypeError_message (u "length"))).
    { cbn [JSONParser.extractTableData].
      assert (Hobj : isPlainObject first = false)
        by (destruct first; auto; discriminate).
      rewrite Hobj, Harr. rewrite mapM_Get_null by now right. reflexivity. }
    rewrite Hthrows. reflexivity.
  - intros result Hresult Hsuccess Herror.
    unfold JSONParser.parseJSON in Hresult. rewrite Hblank in Hresult.
    destruct (JSON_parse jsonString) as [parsedData|message] eqn:Hparse.
    + destruct (JSONParser.extractTableData parsedData) as [rows|message|]
        eqn:Hrows.
      * destruct rows as [|firstRow rows].
        -- injection Hresult as <-. now destruct Herror.
        -- apply extractTableData_first_row in Hrows.
           destruct firstRow; try discriminate Hrows.
           cbn [Object_keys bind] in Hresult.
           injection Hresult as <-. now destruct Herror.
      * exists parsedData, message. injection Hresult as <-. now repeat split.
      * discriminate Hresult.
    + injection Hresult as <-. discriminate Hsuccess.
Qed.

(** X6 on the text [[[1],null]], with the reference engine. *)
Lemma parseJSON_success_with_error_witness :
  @JSONParser.parseJSON Reference.engine (u "[[1],null]")
  = Returns {| JSONParser.success := true;
               JSONParser.data := VArr [VArr [VNum (JSNumber.of_Z 1)]; VNull];
               JSONParser.error :=
                 Some (JSONParser.formatErrorMessage
                         (@TypeError_message Reference.engine (u "length")));
               JSONParser.type := Some (u "array");
               JSONParser.rowCount := 0;
               JSONParser.columnCount := 0 |}.
Proof.
  refine (proj1 (parseJSON_success_with_error Reference.engine (u "[[1],null]") _)
            (VArr [VNum (JSNumber.of_Z 1)]) [VNull] _ _ _).
  - vm_compute. reflexivity.
  - vm_compute. reflexivity.
  - reflexivity.
  - now left.
Defined.

(** X7: for every array, [extractTableData] returns one row per
    element.  When the first element is a plain object the rows are the
    elements themselves; when it is neither a plain object nor an array
    ([null] included), row [i] is [{index: i, value: element}] whatever the
    later elements are. *)
Theorem extractTableData_one_row_per_element :
  forall (E : Engine) (items rows : list value),
    JSONParser.extractTableData (VArr items) = Returns rows ->
    List.length rows = List.length items
    /\ (forall first rest,
          items = first :: rest -> isPlainObject first = true -> rows = items)
    /\ (forall first rest,
          items = first :: rest ->
          isPlainObject first = false -> isArray first = false ->
          forall i item,
            nth_error items i = Some item ->
            nth_error rows i
            = Some (VObj [(u "index", VNum (JSNumber.of_nat i));
                          (u "value", item)])).
Proof.
  intros E items rows Hrows. cbn [JSONParser.extractTableData] in Hrows.
  destruct items as [|first rest].
  - injection Hrows as <-. repeat split; intros; discriminate.
  - destruct (isPlainObject first) eqn:Hobj.
    + injection Hrows as <-. repeat split; congruence.
    + destruct (isArray first) eqn:Harr.
      * split; [|split; intros; congruence].
        destruct (mapM _ (first :: rest)) as [lengths|m|]; try discriminate Hrows.
        cbn [bind] in Hrows.
        destruct (mapM _ lengths) as [numbers|m|]; try discriminate Hrows.
        cbn [bind] in Hrows.
        destruct (JSNumber.iterations _); [|discriminate Hrows].
        injection Hrows as <-. apply mapi_from_length.
      * injection Hrows as <-. unfold JSONParser.indexValueRows, mapi.
        split; [apply mapi_from_length|]. split; [intros; congruence|].
        intros first' rest' _ _ _ i item Hitem.
        rewrite mapi_from_nth_error, Hitem. reflexivity.
Qed.

(** X7 on the array [[null, {"a": true}]]. *)
Lemma extractTableData_one_row_per_element_witness :
  List.length [VObj [(u "index", VNum (JSNumber.of_nat 0)); (u "value", VNull)];
               VObj [(u "index", VNum (JSNumber.of_nat 1));
                     (u "value", VObj [(u "a", VBool true)])]]
  = List.length [VNull; VObj [(u "a", VBool true)]].
Proof.
  refine (proj1 (extractTableData_one_row_per_element Reference.engine
                   [VNull; VObj [(u "a", VBool true)]] _ _)).
  vm_compute. reflexivity.
Defined.

(* ===================================================================== *)
(** ** Text and column widths *)
(* ===================================================================== *)

(* ---- integers as numbers ---- *)
Lemma Qred_inject_Z (z : Z) : Qred (inject_Z z) = inject_Z z.
Proof.
  unfold Qred, inject_Z.
  pose proof (Z.ggcd_gcd z 1) as Hg.
  pose proof (Z.ggcd_correct_divisors z 1) as Hd.
  destruct (Z.ggcd z 1) as [g [aa bb]]. cbn [fst snd] in *.
  rewrite Z.gcd_1_r in Hg. subst g. destruct Hd as [Ha Hb].
  rewrite Z.mul_1_l in Ha, Hb. subst aa bb. reflexivity.
Qed.

Lemma add_of_Z (a b : Z) :
  JSNumber.add (JSNumber.of_Z a) (JSNumber.of_Z b) = JSNumber.of_Z (a + b).
Proof.
  unfold JSNumber.add, JSNumber.of_Z. f_equal.
  rewrite <- (Qred_inject_Z (a + b)). apply Qred_complete.
  rewrite inject_Z_plus. reflexivity.
Qed.

Lemma Qltb_inject_Z (a b : Z) :
  JSNumber.Qltb (inject_Z a) (inject_Z b) = (a <? b)%Z.
Proof.
  destruct (a <? b)%Z eqn:H.
  - apply Qltb_lt. rewrite <- Zlt_Qlt. now apply Z.ltb_lt.
  - apply Qltb_ge. rewrite <- Zle_Qle. apply Z.ltb_ge in H. exact H.
Qed.

Lemma max2_of_Z (a b : Z) :
  JSNumber.max2 (JSNumber.of_Z a) (JSNumber.of_Z b) = JSNumber.of_Z (Z.max a b).
Proof.
  unfold JSNumber.max2, JSNumber.of_Z, JSNumber.ltb. rewrite Qltb_inject_Z.
  destruct (a <? b)%Z eqn:H; f_equal; f_equal.
  - apply Z.ltb_lt in H. lia.
  - apply Z.ltb_ge in H. lia.
Qed.

Lemma Math_min_of_Z (a b : Z) :
  Renderer.Math_min (JSNumber.of_Z a) (JSNumber.of_Z b) = JSNumber.of_Z (Z.min a b).
Proof.
  unfold Renderer.Math_min, JSNumber.of_Z, JSNumber.ltb. rewrite Qltb_inject_Z.
  destruct (b <? a)%Z eqn:H; f_equal; f_equal.
  - apply Z.ltb_lt in H. lia.
  - apply Z.ltb_ge in H. lia.
Qed.

(* ---- text widths ---- *)
Lemma fold_add_of_Z (f : N -> Z) (text : jsstring) (start : Z) :
  fold_left (fun width code => JSNumber.add width (JSNumber.of_Z (f code)))
            text (JSNumber.of_Z start)
  = JSNumber.of_Z (fold_left (fun width code => (width + f code)%Z) text start).
Proof.
  revert start. induction text as [|c text IH]; intro start; [reflexivity|].
  cbn [fold_left]. now rewrite add_of_Z, IH.
Qed.

Lemma fold_pixels_bounds (f : N -> Z) (lo hi : Z) (text : jsstring) (start : Z) :
  (forall c, lo <= f c <= hi)%Z ->
  (start + lo * Z.of_nat (List.length text)
   <= fold_left (fun width code => (width + f code)%Z) text start
   <= start + hi * Z.of_nat (List.length text))%Z.
Proof.
  intro Hf. revert start. induction text as [|c text IH]; intro start.
  - cbn. lia.
  - cbn [fold_left List.length]. specialize (IH (start + f c)%Z).
    specialize (Hf c). lia.
Qed.

Lemma charWidth_bounds (c : N) : (8 <= Renderer.charWidth c <= 14)%Z.
Proof.
  unfold Renderer.charWidth.
  repeat match goal with
         | |- context [if ?b then _ else _] => destruct b
         end; lia.
Qed.

Lemma numericCharWidth_bounds (c : N) : (4 <= Renderer.numericCharWidth c <= 6)%Z.
Proof.
  unfold Renderer.numericCharWidth.
  repeat match goal with
         | |- context [if ?b then _ else _] => destruct b
         end; lia.
Qed.

Lemma calculateTextWidth_pixels (text : jsstring) :
  text <> [] ->
  Renderer.calculateTextWidth text = JSNumber.of_Z (Z.max (textPixels text) 20).
Proof.
  intro H. unfold Renderer.calculateTextWidth, textPixels.
  destruct text as [|c text]; [congruence|]. cbn [JSText.isEmpty].
  now rewrite fold_add_of_Z, max2_of_Z.
Qed.

Lemma calculateNumericTextWidth_pixels (text : jsstring) :
  text <> [] ->
  Renderer.calculateNumericTextWidth text
  = JSNumber.of_Z (Z.max (numericTextPixels text) 15).
Proof.
  intro H. unfold Renderer.calculateNumericTextWidth, numericTextPixels.
  destruct text as [|c text]; [congruence|]. cbn [JSText.isEmpty].
  now rewrite fold_add_of_Z, max2_of_Z.
Qed.

(** X8: for a text of [n > 0] code units, [calculateTextWidth] lies
    between [max(20, 8n)] and [max(20, 14n)], [calculateNumericTextWidth]
    between [max(15, 4n)] and [max(15, 6n)], and the numeric width is
    strictly smaller than the text width. *)
Theorem calculateTextWidth_bounds :
  forall text : jsstring,
    text <> [] ->
    let n := Z.of_nat (List.length text) in
    exists width numericWidth : Z,
      Renderer.calculateTextWidth text = JSNumber.of_Z width
      /\ Renderer.calculateNumericTextWidth text = JSNumber.of_Z numericWidth
      /\ (Z.max 20 (8 * n) <= width <= Z.max 20 (14 * n))%Z
      /\ (Z.max 15 (4 * n) <= numericWidth <= Z.max 15 (6 * n))%Z
      /\ (numericWidth < width)%Z.
Proof.
  intros text Hne n.
  exists (Z.max (textPixels text) 20), (Z.max (numericTextPixels text) 15).
  split; [now apply calculateTextWidth_pixels|].
  split; [now apply calculateNumericTextWidth_pixels|].
  pose proof (fold_pixels_bounds _ 8 14 text 0 charWidth_bounds) as Ht.
  pose proof (fold_pixels_bounds _ 4 6 text 0 numericCharWidth_bounds) as Hn.
  fold (textPixels text) in Ht. fold (numericTextPixels text) in Hn.
  fold n in Ht, Hn.
  assert (0 < n)%Z by (destruct text; [congruence | subst n; cbn [List.length]; lia]).
  lia.
Qed.

(** X8 on the text [42]. *)
Lemma calculateTextWidth_bounds_witness :
  exists width numericWidth : Z,
    Renderer.calculateTextWidth (u "42") = JSNumber.of_Z width
    /\ Renderer.calculateNumericTextWidth (u "42") = JSNumber.of_Z numericWidth
    /\ (Z.max 20 (8 * 2) <= width <= Z.max 20 (14 * 2))%Z
    /\ (Z.max 15 (4 * 2) <= numericWidth <= Z.max 15 (6 * 2))%Z
    /\ (numericWidth < width)%Z.
Proof.
  refine (calculateTextWidth_bounds (u "42") _). vm_compute. discriminate.
Defined.

(* ---- finite numbers ---- *)
Lemma max2_finite (x y : Q) :
  exists w, JSNumber.max2 (Finite x) (Finite y) = Finite w
            /\ (x <= w)%Q /\ (y <= w)%Q /\ (w = x \/ w = y).
Proof.
  unfold JSNumber.max2, JSNumber.ltb.
  destruct (JSNumber.Qltb x y) eqn:H.
  - exists y. apply Qltb_lt in H. repeat split; auto; lra.
  - exists x. apply Qltb_ge in H. repeat split; auto; lra.
Qed.

Lemma Math_min_finite (x y : Q) :
  exists w, Renderer.Math_min (Finite x) (Finite y) = Finite w
            /\ (w <= x)%Q /\ (w <= y)%Q /\ (w = x \/ w = y).
Proof.
  unfold Renderer.Math_min, JSNumber.ltb.
  destruct (JSNumber.Qltb y x) eqn:H.
  - exists y. apply Qltb_lt in H. repeat split; auto; lra.
  - exists x. apply Qltb_ge in H. repeat split; auto; lra.
Qed.

Lemma calculateTextWidth_of_Z (text : jsstring) :
  exists w, Renderer.calculateTextWidth text = JSNumber.of_Z w.
Proof.
  destruct text as [|c text]; [now exists 0%Z|].
  eexists. now apply calculateTextWidth_pixels.
Qed.

Lemma calculateNumericTextWidth_of_Z (text : jsstring) :
  exists w, Renderer.calculateNumericTextWidth text = JSNumber.of_Z w.
Proof.
  destruct text as [|c text]; [now exists 0%Z|].
  eexists. now apply calculateNumericTextWidth_pixels.
Qed.

Section OptimalWidth.
Context {E : Engine}.

(** The optimal width of a column, between the minimum and the cap. *)
Lemma calculateOptimalColumnWidth_capped :
  forall (settings : TableRenderer.TableSettings) (header : Renderer.Element)
    (cells : list Renderer.Cell) (a b : Q),
    TableRenderer.minColumnWidth settings = Finite a ->
    TableRenderer.maxColumnWidth settings = Finite b ->
    let cap := if Renderer.isNumericColumn header cells then 120%Q else b in
    exists w,
      Renderer.calculateOptimalColumnWidth settings header cells = Finite w
      /\ (a <= w)%Q
      /\ (w = a \/ (w <= cap)%Q).
Proof.
  intros settings header cells a b Hmin Hmax cap.
  unfold Renderer.calculateOptimalColumnWidth. cbv zeta. rewrite Hmin, Hmax.
  set (isNumeric := Renderer.isNumericColumn header cells) in *.
  match goal with
  | |- context [JSNumber.max2 (JSNumber.add ?h _) (fold_left ?f ?l ?s)] =>
    assert (Hcells : exists m, fold_left f l s = JSNumber.of_Z m)
  end.
  { generalize (firstn 10 cells) as sample. generalize 0%Z as start.
    intros start sample. revert start.
    induction sample as [|cell sample IH]; intro start; [now exists start|].
    cbn [fold_left].
    destruct (calculateTextWidth_of_Z
                (Renderer.getCellDisplayText (Some cell))) as [t Ht].
    destruct (calculateNumericTextWidth_of_Z
                (Renderer.getCellDisplayText (Some cell))) as [n Hn].
    rewrite Ht, Hn.
    destruct isNumeric, (Renderer.isLongContent _);
      rewrite !add_of_Z, ?Math_min_of_Z, max2_of_Z; apply IH. }
  destruct Hcells as [m Hm]. rewrite Hm.
  destruct (calculateTextWidth_of_Z (Renderer.getTextContent (Some header)))
    as [h Hh].
  rewrite Hh, add_of_Z, max2_of_Z.
  assert (Hcap : (if isNumeric then JSNumber.of_Z 120 else Finite b) = Finite cap).
  { subst cap. fold isNumeric. now destruct isNumeric. }
  rewrite Hcap. unfold JSNumber.of_Z.
  destruct (Math_min_finite cap (inject_Z (Z.max (h + 40) m)))
    as (x & -> & Hx1 & Hx2 & Hx).
  destruct (max2_finite a x) as (w & -> & Hw1 & Hw2 & Hw).
  exists w. split; [reflexivity|]. split; [exact Hw1|].
  destruct Hw as [->| ->]; [now left | now right].
Qed.

(** X9: with finite minimum and maximum column widths, the optimal
    width of a column is a finite number not below the minimum; it is the
    minimum itself or at most the cap, which is 120 for a numeric column and
    the maximum column width otherwise. *)
Theorem calculateOptimalColumnWidth_range :
  forall (settings : TableRenderer.TableSettings) (header : Renderer.Element)
    (cells : list Renderer.Cell) (a b : Q),
    TableRenderer.minColumnWidth settings = Finite a ->
    TableRenderer.maxColumnWidth settings = Finite b ->
    let cap := if Renderer.isNumericColumn header cells then 120%Q else b in
    exists w,
      Renderer.calculateOptimalColumnWidth settings header cells = Finite w
      /\ (a <= w)%Q
      /\ (w = a \/ (w <= cap)%Q).
Proof.
  intros settings header cells a b Hmin Hmax cap.
  destruct (calculateOptimalColumnWidth_capped settings header cells a b Hmin Hmax)
    as (w & Hw & Hlo & Hhi).
  exists w. split; [exact Hw|]. split; [exact Hlo | exact Hhi].
Qed.

End OptimalWidth.

(** X9 on a column [name] with the cell [Alice], at the default settings. *)
Lemma calculateOptimalColumnWidth_range_witness :
  exists w,
    @Renderer.calculateOptimalColumnWidth Reference.engine
      TableRenderer.tableSettings
      {| Renderer.textContent := u "name"; Renderer.innerText := u "name" |}
      [{| Renderer.cellElement :=
            {| Renderer.textContent := u "Alice"; Renderer.innerText := u "Alice" |};
          Renderer.cellContent := None |}]
    = Finite w
    /\ (100 <= w)%Q
    /\ (w = 100%Q
        \/ (w <= if @Renderer.isNumericColumn Reference.engine
                      {| Renderer.textContent := u "name";
                         Renderer.innerText := u "name" |}
                      [{| Renderer.cellElement :=
                            {| Renderer.textContent := u "Alice";
                               Renderer.innerText := u "Alice" |};
                          Renderer.cellContent := None |}]
                 then 120 else 300)%Q).
Proof.
  refine (@calculateOptimalColumnWidth_range Reference.engine
            TableRenderer.tableSettings _ _ 100%Q 300%Q _ _);
    reflexivity.
Defined.

Lemma total_positive (qs : list Q) (s : Q) :
  Forall (fun q => (0 < q)%Q) qs ->
  exists t,
    fold_left JSNumber.add (map Finite qs) (Finite s) = Finite t
    /\ (s <= t)%Q /\ (qs <> [] -> (s < t)%Q).
Proof.
  revert s. induction qs as [|q qs IH]; intros s Hpos; cbn [map fold_left].
  - exists s. split; [reflexivity|]. split; [lra | congruence].
  - inversion Hpos as [|? ? Hq Hrest]; subst.
    destruct (IH (Qred (s + q)) Hrest) as (t & Ht & Hle & _).
    exists t. cbn [JSNumber.add]. split; [exact Ht|].
    rewrite Qred_correct in Hle. split; [lra | intros _; lra].
Qed.

(** The widths assigned to columns whose optimal widths lie between the
    minimum and a bound lie between them as well. *)
Lemma adjustColumnWidths_within (settings : TableRenderer.TableSettings)
  (qs : list Q) (c a bound : Q) :
  TableRenderer.minColumnWidth settings = Finite a ->
  (0 < a)%Q ->
  Forall (fun q => (a <= q <= bound)%Q) qs ->
  Forall (fun w => exists x, w = Finite x /\ (a <= x <= bound)%Q)
         (TableRenderer.adjustColumnWidths settings (map Finite qs) (Finite c)).
Proof.
  intros Hmin Ha Hqs.
  unfold TableRenderer.adjustColumnWidths. cbv zeta.
  assert (Hpos : Forall (fun q => (0 < q)%Q) qs).
  { eapply Forall_impl; [|exact Hqs]. cbv beta. intros q Hq. lra. }
  destruct (total_positive qs (inject_Z 0) Hpos) as (t & Ht & Ht0 & Htpos).
  change (JSNumber.of_Z 0) with (Finite (inject_Z 0)). rewrite Ht.
  destruct (JSNumber.leb (Finite t) (JSNumber.sub (Finite c) (JSNumber.of_Z 60)))
    eqn:Hfit.
  - apply Forall_map. eapply Forall_impl; [|exact Hqs].
    cbv beta. intros q Hq. now exists q.
  - rewrite map_map. apply Forall_map.
    rewrite Forall_forall in Hqs. apply Forall_forall. intros q Hin.
    specialize (Hqs q Hin). rewrite Hmin.
    assert (Htq : (0 < t)%Q).
    { unfold inject_Z in *. apply Htpos. intro Hnil. subst qs. destruct Hin. }
    unfold JSNumber.sub, JSNumber.of_Z, JSNumber.leb in Hfit.
    apply Qle_bool_false in Hfit. rewrite Qred_correct in Hfit.
    unfold JSNumber.sub, JSNumber.of_Z, JSNumber.div.
    assert (Ht0' : Qeq_bool t 0 = false).
    { destruct (Qeq_bool t 0) eqn:Hb; [|reflexivity].
      apply Qeq_bool_iff in Hb. lra. }
    rewrite Ht0'. cbn [JSNumber.mul JSNumber.floor]. unfold JSNumber.of_Z.
    destruct (max2_finite a
                (inject_Z (Qfloor (Qred (q * Qred (Qred (c - inject_Z 60) / t))))))
      as (w & -> & Hw1 & Hw2 & Hw).
    exists w. split; [reflexivity|]. split; [exact Hw1|].
    destruct Hw as [->| ->]; [lra|].
    set (rho := (Qred (c - inject_Z 60) / t)%Q) in *.
    assert (Hratio : (rho < 1)%Q).
    { subst rho. apply Qlt_shift_div_r; [exact Htq|]. rewrite Qred_correct. lra. }
    assert (Hprod : (q * rho <= q * 1)%Q).
    { rewrite !(Qmult_comm q). apply Qmult_le_compat_r; lra. }
    eapply Qle_trans; [apply Qfloor_le|].
    rewrite (Qred_correct (q * Qred rho)), (Qred_correct rho).
    eapply Qle_trans; [exact Hprod|]. lra.
Qed.

Section AssignedWidths.
Context {E : Engine}.

(** X10: with settings [0 < min <= max] and [120 <= max], the widths
    [adjustColumnWidths] assigns to the optimal widths of the columns are
    one per column and all lie between the minimum and the maximum column
    width, whatever the width of the container. *)
Theorem adjustColumnWidths_of_optimal_widths :
  forall (settings : TableRenderer.TableSettings)
    (columns : list (Renderer.Element * list Renderer.Cell)) (a b c : Q),
    TableRenderer.minColumnWidth settings = Finite a ->
    TableRenderer.maxColumnWidth settings = Finite b ->
    (0 < a <= b)%Q -> (120 <= b)%Q ->
    let columnWidths :=
      map (fun column =>
             Renderer.calculateOptimalColumnWidth settings (fst column) (snd column))
          columns in
    let adjusted :=
      TableRenderer.adjustColumnWidths settings columnWidths (Finite c) in
    List.length adjusted = List.length columns
    /\ Forall (fun w => exists x, w = Finite x /\ (a <= x <= b)%Q) adjusted.
Proof.
  intros settings columns a b c Hmin Hmax Hab Hb columnWidths adjusted.
  assert (Hqs : exists qs,
             columnWidths = map Finite qs
             /\ Forall (fun q => (a <= q <= b)%Q) qs).
  { subst columnWidths. clear adjusted.
    induction columns as [|[header cells] columns IH].
    - exists []. split; [reflexivity | constructor].
    - destruct IH as (qs & Heq & Hall).
      destruct (calculateOptimalColumnWidth_capped settings header cells a b
                  Hmin Hmax) as (w & Hw & Hlo & Hhi).
      exists (w :: qs). cbn [map fst snd]. rewrite Hw, Heq.
      split; [reflexivity|]. constructor; [|exact Hall].
      destruct Hhi as [->|Hhi]; [lra|].
      destruct (Renderer.isNumericColumn header cells); lra. }
  destruct Hqs as (qs & Heq & Hall). subst adjusted. rewrite Heq. split.
  - unfold TableRenderer.adjustColumnWidths. cbv zeta.
    assert (Hlen : List.length qs = List.length columns).
    { apply (f_equal (@List.length _)) in Heq. subst columnWidths.
      now rewrite !length_map in Heq. }
    destruct (JSNumber.leb _ _); now rewrite !length_map.
  - now apply adjustColumnWidths_within.
Qed.

End AssignedWidths.

(** X10 on the columns [name] and [age] in a container of 200 pixels, at the default settings. *)
Lemma adjustColumnWidths_of_optimal_widths_witness :
  Forall (fun w => exists x, w = Finite x /\ (100 <= x <= 300)%Q)
    (TableRenderer.adjustColumnWidths TableRenderer.tableSettings
       (map (fun column =>
               @Renderer.calculateOptimalColumnWidth Reference.engine
                 TableRenderer.tableSettings (fst column) (snd column))
            [({| Renderer.textContent := u "name"; Renderer.innerText := [] |},
              [{| Renderer.cellElement :=
                    {| Renderer.textContent := u "Alice"; Renderer.innerText := [] |};
                  Renderer.cellContent := None |}]);
             ({| Renderer.textContent := u "age"; Renderer.innerText := [] |},
              [{| Renderer.cellElement :=
                    {| Renderer.textContent := u "42"; Renderer.innerText := [] |};
                  Renderer.cellContent := None |}])])
       (Finite 200)).
Proof.
  refine (proj2 (@adjustColumnWidths_of_optimal_widths Reference.engine
                   TableRenderer.tableSettings _ 100%Q 300%Q 200%Q _ _ _ _)).
  - reflexivity.
  - reflexivity.
  - split; [reflexivity | discriminate].
  - discriminate.
Defined.

(* ===================================================================== *)
(** ** Numeric values and columns *)
(* ===================================================================== *)

(* ---- regular expressions ---- *)
Lemma Matches_void_inv (s : jsstring) : ~ Matches RegExp.Void s.
Proof. intro H. inversion H. Qed.

Lemma Matches_eps_inv (s : jsstring) : Matches RegExp.Eps s -> s = [].
Proof. intro H. now inversion H. Qed.

Lemma Matches_chr_inv (d : N) (s : jsstring) : Matches (RegExp.Chr d) s -> s = [d].
Proof. intro H. now inversion H. Qed.

Lemma Matches_digit_inv (s : jsstring) :
  Matches RegExp.Digit s -> exists c, s = [c] /\ RegExp.isDigit c = true.
Proof. intro H. inversion H; subst. now eexists. Qed.

Lemma Matches_seq_inv (r t : RegExp.regex) (s : jsstring) :
  Matches (RegExp.Seq r t) s ->
  exists x y, s = x ++ y /\ Matches r x /\ Matches t y.
Proof. intro H. inversion H; subst. now eexists _, _. Qed.

Lemma Matches_alt_inv (r t : RegExp.regex) (s : jsstring) :
  Matches (RegExp.Alt r t) s -> Matches r s \/ Matches t s.
Proof. intro H. inversion H; subst; [now left | now right]. Qed.

Lemma nullable_spec (r : RegExp.regex) :
  RegExp.nullable r = true <-> Matches r [].
Proof.
  induction r as [| | c | | r IHr s IHs | r IHr s IHs | r IHr];
    cbn [RegExp.nullable].
  - split; [discriminate | intro H; now apply Matches_void_inv in H].
  - split; [constructor | reflexivity].
  - split; [discriminate | intro H; apply Matches_chr_inv in H; discriminate].
  - split; [discriminate|]. intro H. apply Matches_digit_inv in H.
    destruct H as (c & H & _). discriminate.
  - rewrite andb_true_iff, IHr, IHs. split.
    + intros [Hr Hs]. exact (MatchesSeq _ _ [] [] Hr Hs).
    + intro H. apply Matches_seq_inv in H. destruct H as (x & y & Heq & Hx & Hy).
      symmetry in Heq. apply app_eq_nil in Heq. destruct Heq as [-> ->]. now split.
  - rewrite orb_true_iff, IHr, IHs. split.
    + intros [H|H]; [now apply MatchesAltL | now apply MatchesAltR].
    + apply Matches_alt_inv.
  - split; [constructor | reflexivity].
Qed.

Lemma Matches_star_cons (r : RegExp.regex) (c : N) (s : jsstring) :
  Matches (RegExp.Star r) (c :: s) ->
  exists x y, s = x ++ y /\ Matches r (c :: x) /\ Matches (RegExp.Star r) y.
Proof.
  intro H. remember (RegExp.Star r) as star eqn:Hstar.
  remember (c :: s) as cs eqn:Hcs.
  revert s Hcs.
  induction H as [| | | | | | |r' x y Hx _ Hy IHy]; intros w Hcs;
    try discriminate Hstar; [discriminate Hcs|].
  injection Hstar as ->.
  destruct x as [|d x].
  - cbn [app] in Hcs. now apply IHy.
  - cbn [app] in Hcs. injection Hcs as Hd Hw. subst d w. now exists x, y.
Qed.

Lemma derive_spec (r : RegExp.regex) :
  forall (c : N) (s : jsstring),
    Matches (RegExp.derive c r) s <-> Matches r (c :: s).
Proof.
  induction r as [| | d | | r IHr t IHt | r IHr t IHt | r IHr];
    intros c s; cbn [RegExp.derive].
  - split; intro H; now apply Matches_void_inv in H.
  - split; intro H; [now apply Matches_void_inv in H|].
    apply Matches_eps_inv in H. discriminate.
  - destruct (c =? d)%N eqn:Hc.
    + apply N.eqb_eq in Hc. subst d. split; intro H.
      * apply Matches_eps_inv in H. subst s. constructor.
      * apply Matches_chr_inv in H. injection H as ->. constructor.
    + split; intro H; [now apply Matches_void_inv in H|].
      apply Matches_chr_inv in H. injection H as -> _.
      rewrite N.eqb_refl in Hc. discriminate.
  - destruct (RegExp.isDigit c) eqn:Hc.
    + split; intro H.
      * apply Matches_eps_inv in H. subst s. now constructor.
      * apply Matches_digit_inv in H. destruct H as (d & H & _).
        injection H as _ ->. constructor.
    + split; intro H; [now apply Matches_void_inv in H|].
      apply Matches_digit_inv in H. destruct H as (d & H & Hd).
      injection H as -> _. congruence.
  - assert (Hcons : Matches (RegExp.Seq (RegExp.derive c r) t) s
                    <-> exists x y, s = x ++ y /\ Matches r (c :: x) /\ Matches t y).
    { split.
      - intro H. apply Matches_seq_inv in H. destruct H as (x & y & -> & Hx & Hy).
        exists x, y. split; [reflexivity|]. split; [now apply IHr | exact Hy].
      - intros (x & y & -> & Hx & Hy). constructor; [now apply IHr | exact Hy]. }
    assert (Hseq : Matches (RegExp.Seq r t) (c :: s)
                   <-> (Matches r [] /\ Matches t (c :: s))
                       \/ exists x y, s = x ++ y /\ Matches r (c :: x) /\ Matches t y).
    { split.
      - intro H. apply Matches_seq_inv in H. destruct H as (x & y & Heq & Hx & Hy).
        destruct x as [|d x].
        + left. cbn [app] in Heq. subst y. now split.
        + right. cbn [app] in Heq. injection Heq as -> ->. now exists x, y.
      - intros [[Hr Ht]|(x & y & -> & Hx & Hy)].
        + exact (MatchesSeq _ _ [] (c :: s) Hr Ht).
        + exact (MatchesSeq _ _ (c :: x) y Hx Hy). }
    rewrite Hseq. destruct (RegExp.nullable r) eqn:Hnull.
    + apply nullable_spec in Hnull. split.
      * intro H. apply Matches_alt_inv in H. destruct H as [H|H].
        -- right. now apply Hcons.
        -- left. split; [exact Hnull | now apply IHt].
      * intros [[_ Ht]|H].
        -- apply MatchesAltR. now apply IHt.
        -- apply MatchesAltL. now apply Hcons.
    + rewrite Hcons. split; [now right|].
      intros [[Hr _]|H]; [|exact H].
      apply nullable_spec in Hr. congruence.
  - split; intro H; apply Matches_alt_inv in H; destruct H as [H|H];
      [apply MatchesAltL; now apply IHr | apply MatchesAltR; now apply IHt
       | apply MatchesAltL; now apply IHr | apply MatchesAltR; now apply IHt].
  - split.
    + intro H. apply Matches_seq_inv in H. destruct H as (x & y & -> & Hx & Hy).
      apply IHr in Hx. exact (MatchesStarApp _ (c :: x) y Hx Hy).
    + intro H. apply Matches_star_cons in H.
      destruct H as (x & y & -> & Hx & Hy).
      constructor; [now apply IHr | exact Hy].
Qed.

(** [test] decides membership in the language. *)
Lemma test_spec (s : jsstring) :
  forall r : RegExp.regex, RegExp.test r s = true <-> Matches r s.
Proof.
  induction s as [|c s IH]; intro r; cbn [RegExp.test].
  - apply nullable_spec.
  - rewrite IH. apply derive_spec.
Qed.

Lemma Matches_consumes (r : RegExp.regex) (s : jsstring) :
  Matches r s -> Forall (fun c => consumes r c = true) s.
Proof.
  induction 1 as [|c|c Hc|r t x y _ IHx _ IHy|r t x _ IH|r t x _ IH|r
                  |r x y _ IHx _ IHy]; cbn [consumes] in *.
  - constructor.
  - constructor; [apply N.eqb_refl | constructor].
  - constructor; [exact Hc | constructor].
  - apply Forall_app. split.
    + eapply Forall_impl; [|exact IHx]. cbv beta. intros c Hc. now rewrite Hc.
    + eapply Forall_impl; [|exact IHy]. cbv beta. intros c Hc.
      rewrite Hc. apply orb_true_r.
  - eapply Forall_impl; [|exact IH]. cbv beta. intros c Hc. now rewrite Hc.
  - eapply Forall_impl; [|exact IH]. cbv beta. intros c Hc.
    rewrite Hc. apply orb_true_r.
  - constructor.
  - apply Forall_app. now split.
Qed.

Lemma Matches_needsDigit (r : RegExp.regex) (s : jsstring) :
  Matches r s -> needsDigit r = true ->
  Exists (fun c => RegExp.isDigit c = true) s.
Proof.
  induction 1 as [|c|c Hc|r t x y _ IHx _ IHy|r t x _ IH|r t x _ IH|r
                  |r x y _ IHx _ IHy]; cbn [needsDigit]; intro Hneeds;
    try discriminate Hneeds.
  - now constructor.
  - apply Exists_app. apply orb_prop in Hneeds. destruct Hneeds as [H|H]; auto.
  - apply IH. now apply andb_prop in Hneeds.
  - apply IH. now apply andb_prop in Hneeds.
Qed.

Lemma Matches_plus_digits (s : jsstring) :
  s <> [] -> forallb RegExp.isDigit s = true ->
  Matches (RegExp.Plus RegExp.Digit) s.
Proof.
  intros Hne Hdigits. destruct s as [|c s]; [congruence|]. clear Hne.
  cbn [forallb] in Hdigits. apply andb_prop in Hdigits.
  destruct Hdigits as [Hc Hs].
  apply (MatchesSeq _ _ [c] s); [now constructor|].
  induction s as [|d s IH]; [constructor|].
  cbn [forallb] in Hs. apply andb_prop in Hs. destruct Hs as [Hd Hs].
  apply (MatchesStarApp _ [d] s); [now constructor | now apply IH].
Qed.

Lemma numericPatterns_consume (c : N) :
  Forall (fun pattern => consumes pattern c = true -> numericChar c = true)
         Renderer.numericPatterns.
Proof.
  unfold Renderer.numericPatterns, numericChar, Renderer.fraction,
    RegExp.Plus, RegExp.Opt.
  cbn [RegExp.Times existsb].
  repeat constructor; cbn [consumes];
    destruct (RegExp.isDigit c), (c =? 46)%N, (c =? 44)%N, (c =? 45)%N,
      (c =? 58)%N, (c =? 37)%N, (c =? 36)%N; cbn; intro H;
      reflexivity || discriminate H.
Qed.

Lemma numericPatterns_needDigit :
  forallb needsDigit Renderer.numericPatterns = true.
Proof. reflexivity. Qed.

(** X11: a text [isNumericValue] accepts is not empty, consists of
    digits and the characters [. , - : % $] only, and holds a digit; every
    text of digits only is accepted. *)
Theorem isNumericValue_alphabet :
  forall value : jsstring,
    (Renderer.isNumericValue value = true ->
     value <> []
     /\ Forall (fun c => numericChar c = true) value
     /\ Exists (fun c => RegExp.isDigit c = true) value)
    /\ (value <> [] -> forallb RegExp.isDigit value = true ->
        Renderer.isNumericValue value = true).
Proof.
  intro value. split.
  - unfold Renderer.isNumericValue. intro H.
    destruct value as [|c0 value]; [discriminate H|]. cbn [JSText.isEmpty] in H.
    apply existsb_exists in H. destruct H as (pattern & Hin & Htest).
    apply test_spec in Htest. split; [discriminate|]. split.
    + pose proof (numericPatterns_consume) as Hall.
      apply Forall_forall. intros c Hc.
      specialize (Hall c). rewrite Forall_forall in Hall.
      apply (Hall pattern Hin).
      pose proof (Matches_consumes _ _ Htest) as Hcons.
      rewrite Forall_forall in Hcons. now apply Hcons.
    + apply (Matches_needsDigit pattern); [exact Htest|].
      pose proof numericPatterns_needDigit as Hneed.
      rewrite forallb_forall in Hneed. now apply Hneed.
  - intros Hne Hdigits. unfold Renderer.isNumericValue.
    destruct value as [|c value]; [congruence|]. cbn [JSText.isEmpty].
    apply existsb_exists. exists (RegExp.Plus RegExp.Digit). split; [now left|].
    apply test_spec. now apply Matches_plus_digits.
Qed.

(* ---- numeric columns ---- *)
Lemma count_fold {A : Type} (p : A -> bool) (l : list A) (start : nat) :
  fold_left (fun count a => if p a then S count else count) l start
  = start + List.length (filter p l).
Proof.
  revert start. induction l as [|a l IH]; intro start; cbn [fold_left filter].
  - cbn. lia.
  - rewrite IH. destruct (p a); cbn [List.length]; lia.
Qed.

(** [count / size >= 0.7] for a count of at most [size]. *)
Lemma ratio_threshold (count size : nat) :
  count <= size ->
  JSNumber.geb (JSNumber.div (JSNumber.of_nat count) (JSNumber.of_nat size))
               (Finite (7 # 10))
  = (negb (size =? 0)) && (7 * size <=? 10 * count).
Proof.
  intro Hle. unfold JSNumber.geb, JSNumber.div, JSNumber.of_nat, JSNumber.of_Z.
  destruct size as [|size'].
  - assert (count = 0) by lia. subst count. reflexivity.
  - set (size := S size') in *.
    assert (Hsize : (0 < inject_Z (Z.of_nat size))%Q).
    { change 0%Q with (inject_Z 0). rewrite <- Zlt_Qlt. lia. }
    assert (Hnz : Qeq_bool (inject_Z (Z.of_nat size)) 0 = false).
    { destruct (Qeq_bool (inject_Z (Z.of_nat size)) 0) eqn:Hb; [|reflexivity].
      apply Qeq_bool_iff in Hb. lra. }
    rewrite Hnz. cbn [JSNumber.leb negb Nat.eqb andb]. subst size.
    cbn [Nat.eqb negb andb]. set (size := S size') in *.
    destruct (7 * size <=? 10 * count) eqn:Hcmp.
    + apply Nat.leb_le in Hcmp. apply Qle_bool_iff. rewrite Qred_correct.
      apply Qle_shift_div_l; [exact Hsize|].
      assert (H : (inject_Z 7 * inject_Z (Z.of_nat size)
                   <= inject_Z 10 * inject_Z (Z.of_nat count))%Q).
      { rewrite <- !inject_Z_mult, <- Zle_Qle. lia. }
      unfold inject_Z at 1 3 in H. lra.
    + apply Nat.leb_gt in Hcmp.
      destruct (Qle_bool (7 # 10)
                  (Qred (inject_Z (Z.of_nat count) / inject_Z (Z.of_nat size))))
        eqn:Hb; [|reflexivity].
      exfalso. apply Qle_bool_iff in Hb. rewrite Qred_correct in Hb.
      assert (Hmul : ((7 # 10) * inject_Z (Z.of_nat size)
                      <= inject_Z (Z.of_nat count))%Q).
      { apply (Qmult_le_r _ _ (/ inject_Z (Z.of_nat size))).
        - now apply Qinv_lt_0_compat.
        - rewrite <- Qmult_assoc, Qmult_inv_r by lra. rewrite Qmult_1_r.
          exact Hb. }
      assert (H : (inject_Z 10 * inject_Z (Z.of_nat count)
                   < inject_Z 7 * inject_Z (Z.of_nat size))%Q).
      { rewrite <- !inject_Z_mult, <- Zlt_Qlt. lia. }
      unfold inject_Z at 1 3 in H. lra.
Qed.

Section NumericColumn.
Context {E : Engine}.

(** X12: a column whose lower-cased header text contains one of the
    keywords is numeric whatever its cells are.  Otherwise only the first
    five cells count: the column is numeric exactly when there is a cell and
    at least 70% of the sampled cells are numeric values; a column without
    cells is not numeric. *)
Theorem isNumericColumn_threshold :
  forall (header : Renderer.Element) (cells : list Renderer.Cell),
    let headerText := toLowerCase (Renderer.getTextContent (Some header)) in
    let sample := firstn 5 cells in
    let numeric :=
      filter (fun cell =>
                Renderer.isNumericValue (Renderer.getCellDisplayText (Some cell)))
             sample in
    ((exists keyword,
         In keyword Renderer.numericKeywords /\ Spec.occursIn keyword headerText) ->
     Renderer.isNumericColumn header cells = true)
    /\ ((forall keyword,
            In keyword Renderer.numericKeywords ->
            ~ Spec.occursIn keyword headerText) ->
        (Renderer.isNumericColumn header cells = true
         <-> sample <> [] /\ 7 * List.length sample <= 10 * List.length numeric)).
Proof.
  intros header cells headerText sample numeric.
  unfold Renderer.isNumericColumn. cbv zeta. fold headerText. fold sample.
  split.
  - intros (keyword & Hin & Hoccurs).
    assert (H : existsb (fun keyword => JSString.includes headerText keyword)
                        Renderer.numericKeywords = true).
    { apply existsb_exists. exists keyword. split; [exact Hin|].
      now apply includes_spec. }
    now rewrite H.
  - intro Hnone.
    assert (H : existsb (fun keyword => JSString.includes headerText keyword)
                        Renderer.numericKeywords = false).
    { destruct (existsb _ Renderer.numericKeywords) eqn:Hex; [|reflexivity].
      apply existsb_exists in Hex. destruct Hex as (keyword & Hin & Hinc).
      apply includes_spec in Hinc. now destruct (Hnone keyword Hin). }
    rewrite H, count_fold. cbn [Nat.add]. fold numeric.
    rewrite ratio_threshold by apply filter_length_le.
    rewrite andb_true_iff, negb_true_iff, Nat.eqb_neq, Nat.leb_le.
    split; intros [Hne Hle]; (split; [|exact Hle]).
    + intro Hnil. apply Hne. now rewrite Hnil.
    + intro Hlen. apply Hne. now apply length_zero_iff_nil.
Qed.

End NumericColumn.

(** X11 on the text [1,234.5]. *)
Lemma isNumericValue_alphabet_witness :
  u "1,234.5" <> []
  /\ Forall (fun c => numericChar c = true) (u "1,234.5")
  /\ Exists (fun c => RegExp.isDigit c = true) (u "1,234.5").
Proof.
  apply (proj1 (isNumericValue_alphabet (u "1,234.5"))).
  vm_compute. reflexivity.
Defined.

(** X12 on the header [User ID] without cells. *)
Lemma isNumericColumn_threshold_witness :
  @Renderer.isNumericColumn Reference.engine
    {| Renderer.textContent := u "User ID"; Renderer.innerText := [] |} []
  = true.
Proof.
  apply (proj1 (@isNumericColumn_threshold Reference.engine
                  {| Renderer.textContent := u "User ID";
                     Renderer.innerText := [] |} [])).
  exists (u "id"). split.
  - left. reflexivity.
  - exists (u "user "), []. vm_compute. reflexivity.
Defined.

(* ===================================================================== *)
(** ** getColumnIndex and the exceptions of searchTable *)
(* ===================================================================== *)

(* ---- getColumnIndex ---- *)
Lemma columnIndexFrom_spec (attributes : list (option jsstring))
  (columnName : jsstring) (start : Z) :
  let i := Renderer.columnIndexFrom start attributes columnName in
  (0 <= start)%Z ->
  (i = (-1)%Z /\ ~ In (Some columnName) attributes)
  \/ (exists n,
        i = (start + Z.of_nat n)%Z
        /\ nth_error attributes n = Some (Some columnName)
        /\ forall m, m < n -> nth_error attributes m <> Some (Some columnName)).
Proof.
  revert start. induction attributes as [|attribute attributes IH];
    intros start i Hstart; subst i; cbn [Renderer.columnIndexFrom].
  - left. split; [reflexivity | intros []].
  - assert (Hnext : forall other,
               other <> Some columnName -> attribute = other ->
               (Renderer.columnIndexFrom (start + 1) attributes columnName = (-1)%Z
                /\ ~ In (Some columnName) (attribute :: attributes))
               \/ (exists n,
                     Renderer.columnIndexFrom (start + 1) attributes columnName
                     = (start + Z.of_nat n)%Z
                     /\ nth_error (attribute :: attributes) n = Some (Some columnName)
                     /\ forall m, m < n ->
                          nth_error (attribute :: attributes) m
                          <> Some (Some columnName))).
    { intros other Hother ->.
      destruct (IH (start + 1)%Z ltac:(lia)) as [[Hi Hnot]|(n & Hi & Hn & Hfirst)].
      - left. split; [exact Hi|]. intros [Heq|Hin]; [congruence | contradiction].
      - right. exists (S n). split; [rewrite Hi; lia|]. split; [exact Hn|].
        intros [|m] Hm; cbn [nth_error]; [congruence|]. apply Hfirst. lia. }
    destruct attribute as [name|].
    + destruct (JSString.eqb name columnName) eqn:Hname.
      * apply eqb_eq in Hname. subst name. right. exists 0.
        split; [lia|]. split; [reflexivity|]. intros m Hm. lia.
      * apply eqb_neq in Hname. apply (Hnext (Some name)); congruence.
    + apply (Hnext None); congruence.
Qed.

(** X13: [getColumnIndex] returns [-1] without a table head and exactly
    when no header cell carries the column name; otherwise it returns the
    position of the first header cell that carries it, which is within
    bounds. *)
Theorem getColumnIndex_first_match :
  forall (columnName : jsstring),
    Renderer.getColumnIndex None columnName = (-1)%Z
    /\ forall attributes : list (option jsstring),
         let i := Renderer.getColumnIndex (Some attributes) columnName in
         (i = (-1)%Z <-> ~ In (Some columnName) attributes)
         /\ (i <> (-1)%Z ->
             (0 <= i < Z.of_nat (List.length attributes))%Z
             /\ nth_error attributes (Z.to_nat i) = Some (Some columnName)
             /\ forall m, m < Z.to_nat i ->
                  nth_error attributes m <> Some (Some columnName)).
Proof.
  intro columnName. split; [reflexivity|]. intros attributes i. subst i.
  cbn [Renderer.getColumnIndex].
  destruct (columnIndexFrom_spec attributes columnName 0 ltac:(lia))
    as [[Hi Hnot]|(n & Hi & Hn & Hfirst)]; rewrite Hi.
  - split; [tauto | congruence].
  - cbn [Z.add]. rewrite Nat2Z.id. split.
    + split; [lia|]. intro Hnot. exfalso. apply Hnot.
      eapply nth_error_In. exact Hn.
    + intros _. split; [|split; [exact Hn | exact Hfirst]].
      assert (n < List.length attributes).
      { apply nth_error_Some. congruence. }
      lia.
Qed.

(* ---- searchTable ---- *)
Lemma someM_first_throw {A : Type} (f : A -> outcome bool) (g : A -> bool)
  (message : jsstring) (before : list A) (a : A) (rest : list A) :
  (forall x, In x before -> f x = Returns (g x)) ->
  f a = Throws message ->
  someM f (before ++ a :: rest)
  = if existsb g before then Returns true else Throws message.
Proof.
  intros Hbefore Ha. induction before as [|x before IH];
    cbn [app someM existsb].
  - now rewrite Ha.
  - rewrite Hbefore by now left. cbn [bind].
    destruct (g x); [reflexivity|].
    apply IH. intros y Hy. apply Hbefore. now right.
Qed.

Lemma filterM_first_throw {A : Type} (f : A -> outcome bool) (g : A -> bool)
  (message : jsstring) (before : list A) (a : A) (rest : list A) :
  (forall x, In x before -> f x = Returns (g x)) ->
  f a = Throws message ->
  filterM f (before ++ a :: rest) = Throws message.
Proof.
  intros Hbefore Ha. induction before as [|x before IH]; cbn [app filterM].
  - now rewrite Ha.
  - rewrite Hbefore by now left. cbn [bind].
    rewrite IH; [reflexivity|]. intros y Hy. apply Hbefore. now right.
Qed.

Lemma someM_completes {A : Type} (f : A -> outcome bool) (l : list A) :
  (forall x, In x l -> f x <> Diverges) -> someM f l <> Diverges.
Proof.
  induction l as [|x l IH]; intro H; cbn [someM]; [discriminate|].
  destruct (f x) as [[|]|message|] eqn:Hx; cbn [bind]; try discriminate.
  - apply IH. intros y Hy. apply H. now right.
  - exfalso. apply (H x); [now left | exact Hx].
Qed.

Section SearchErrors.
Context {E : Engine}.

Lemma rowMatches_completes (searchTerm : jsstring) (row : value) :
  TableRenderer.rowMatches searchTerm row <> Diverges.
Proof.
  unfold TableRenderer.rowMatches.
  destruct (Object_values row) as [values|message|] eqn:Hvalues;
    cbn [bind]; try discriminate.
  - apply someM_completes. intros v _.
    destruct (hasStringForm v) eqn:Hform.
    + rewrite (ToString_value_stringOf v Hform). discriminate.
    + rewrite (ToString_value_throws v Hform). discriminate.
  - destruct row; discriminate Hvalues.
Qed.

Lemma filterM_rowMatches_null (searchTerm : jsstring) (data : list value) :
  In VNull data ->
  exists message,
    filterM (TableRenderer.rowMatches searchTerm) data = Throws message.
Proof.
  induction data as [|row data IH]; [intros []|].
  intros [Hrow | Hin]; cbn [filterM].
  - subst row. eexists. reflexivity.
  - destruct (TableRenderer.rowMatches searchTerm row) as [found|message|]
      eqn:Hfound; cbn [bind].
    + destruct (IH Hin) as [message ->]. now exists message.
    + now exists message.
    + now apply rowMatches_completes in Hfound.
Qed.

(** X14: with a term that is not blank, [searchTable] raises an
    exception as soon as some row is [null]; when the rows before the
    first [null] row are objects whose values have string forms, it is the
    [TypeError] of [Object.values(null)].  A row whose value has no string
    form (an object with a member [toString]) raises the [TypeError] of
    [String(value)], unless an earlier value of the row contains the
    term. *)
Theorem searchTable_throws :
  forall (searchTerm : jsstring),
    isBlank searchTerm = false ->
    (forall originalData : list value,
        In VNull originalData ->
        exists message,
          TableRenderer.searchTable searchTerm originalData = Throws message)
    /\ (forall before rest : list value,
          Forall searchable before ->
          TableRenderer.searchTable searchTerm (before ++ VNull :: rest)
          = Throws (u "Cannot convert undefined or null to object"))
    /\ (forall (row : value) (earlier : list value) (v : value)
          (later : list value),
          row <> VNull ->
          own_values row = earlier ++ v :: later ->
          Forall (fun w => hasStringForm w = true) earlier ->
          hasStringForm v = false ->
          TableRenderer.rowMatches searchTerm row
          = if existsb
                 (fun w => JSString.includes (toLowerCase (stringOf w))
                                             (toLowerCase searchTerm))
                 earlier
            then Returns true
            else Throws TypeError_primitive).
Proof.
  intros searchTerm Hblank. unfold TableRenderer.searchTable.
  rewrite Hblank. split; [|split].
  - intros originalData Hin. now apply filterM_rowMatches_null.
  - intros before rest Hbefore.
    apply (filterM_first_throw _ (keeps searchTerm)); [|reflexivity].
    rewrite Forall_forall in Hbefore. intros row Hrow.
    apply rowMatches_returns. now apply Hbefore.
  - intros row earlier v later Hrow Hvalues Hearlier Hv.
    unfold TableRenderer.rowMatches.
    assert (Hobj : Object_values row = Returns (own_values row))
      by (destruct row; try congruence; reflexivity).
    rewrite Hobj, Hvalues. cbn [bind]. apply someM_first_throw.
    + rewrite Forall_forall in Hearlier. intros w Hw.
      now rewrite (ToString_value_stringOf w (Hearlier w Hw)).
    + now rewrite (ToString_value_throws v Hv).
Qed.

End SearchErrors.

(** X14 on the term [x] and the rows [{"a": {"toString": 1}}] and
    [null], with the reference engine. *)
Lemma searchTable_throws_witness :
  @TableRenderer.rowMatches Reference.engine (u "x")
    (VObj [(u "a", VObj [(u "toString", VNum (JSNumber.of_Z 1))])])
  = Throws (@TypeError_primitive Reference.engine)
  /\ @TableRenderer.searchTable Reference.engine (u "x")
       [VObj [(u "a", VStr (u "x"))]; VNull]
     = Throws (u "Cannot convert undefined or null to object").
Proof.
  assert (Hblank : isBlank (u "x") = false) by (vm_compute; reflexivity).
  destruct (@searchTable_throws Reference.engine (u "x") Hblank)
    as (_ & Hnull & Hvalue).
  split.
  - apply (Hvalue _ [] (VObj [(u "toString", VNum (JSNumber.of_Z 1))]) []).
    + discriminate.
    + reflexivity.
    + constructor.
    + reflexivity.
  - apply (Hnull [VObj [(u "a", VStr (u "x"))]] []).
    constructor; [|constructor]. split; [discriminate|].
    constructor; [reflexivity | constructor].
Defined.
(* ===================================================================== *)
(** ** The state manager *)
(* ===================================================================== *)

(* ---- StateManager ---- *)
Lemma own_entries_object (props : list (jsstring * value)) :
  own_entries (VObj props) = props.
Proof.
  unfold own_entries. cbn [own_keys own_values].
  induction props as [|[k v] props IH]; [reflexivity|].
  cbn [map combine fst snd]. now rewrite IH.
Qed.

Lemma validateState_object (state : jsval) :
  StateManager.validateState state = true ->
  exists props jsonInput,
    state = Some (VObj props)
    /\ lookup (u "jsonInput") props = Some (VStr jsonInput)
    /\ (Renderer.truthy (lookup (u "tableOptions") props)
        && negb (StateManager.isObjectType (lookup (u "tableOptions") props))
        = false).
Proof.
  unfold StateManager.validateState.
  destruct state as [[|b|n|s|items|props]|]; [| | | | | |discriminate].
  1-4: cbn [Renderer.truthy StateManager.isObjectType typeofObject negb orb];
    rewrite ?orb_true_r; discriminate.
  - unfold StateManager.hasField.
    cbn [Renderer.truthy StateManager.isObjectType typeofObject negb orb forallb
           get_own].
    replace (JSString.eqb (u "jsonInput") (u "length")) with false
      by (vm_compute; reflexivity).
    replace (JSString.to_index (u "jsonInput")) with (@None nat)
      by (vm_compute; reflexivity).
    cbn [andb negb]. discriminate.
  - unfold StateManager.hasField.
    cbn [Renderer.truthy StateManager.isObjectType typeofObject negb orb forallb
           get_own andb].
    destruct (lookup (u "jsonInput") props) as [[| | |jsonInput| |]|]
      eqn:Hinput; cbn [negb andb]; try discriminate.
    intro H. exists props, jsonInput.
    split; [reflexivity|]. split; [exact Hinput|].
    now destruct (Renderer.truthy (lookup (u "tableOptions") props)
                  && negb (StateManager.isObjectType
                             (lookup (u "tableOptions") props))).
Qed.

Lemma validateState_of_object (props : list (jsstring * value))
  (jsonInput : jsstring) :
  lookup (u "jsonInput") props = Some (VStr jsonInput) ->
  Renderer.truthy (lookup (u "tableOptions") props)
  && negb (StateManager.isObjectType (lookup (u "tableOptions") props)) = false ->
  StateManager.validateState (Some (VObj props)) = true.
Proof.
  intros Hinput Hoptions.
  unfold StateManager.validateState, StateManager.hasField.
  cbn [Renderer.truthy StateManager.isObjectType typeofObject negb orb forallb
         get_own andb].
  rewrite Hinput. cbn [negb]. now rewrite Hoptions.
Qed.

(** X15: the default state and every state [getCurrentState] builds
    pass [validateState].  A state that passes is an object whose
    [jsonInput] is a string, and it still passes after [saveState] has added
    its time stamp. *)
Theorem validateState_of_states :
  forall (state : jsval) (now jsonInput : jsstring),
    StateManager.validateState (Some (StateManager.createDefaultState now)) = true
    /\ StateManager.validateState
         (Some (JSONTableViewer.getCurrentState jsonInput)) = true
    /\ (StateManager.validateState state = true ->
        exists props text,
          state = Some (VObj props)
          /\ get_own (VObj props) (u "jsonInput") = Some (VStr text)
          /\ StateManager.validateState
               (Some (StateManager.stateWithTimestamp (VObj props) now)) = true).
Proof.
  intros state now jsonInput. split; [|split].
  - vm_compute. reflexivity.
  - vm_compute. reflexivity.
  - intro Hvalid. apply validateState_object in Hvalid.
    destruct Hvalid as (props & text & -> & Hinput & Hoptions).
    exists props, text. split; [reflexivity|]. split; [exact Hinput|].
    unfold StateManager.stateWithTimestamp. rewrite own_entries_object.
    apply (validateState_of_object _ text).
    + rewrite lookup_assign.
      replace (JSString.eqb (u "lastUpdated") (u "jsonInput")) with false
        by (vm_compute; reflexivity).
      exact Hinput.
    + rewrite lookup_assign.
      replace (JSString.eqb (u "lastUpdated") (u "tableOptions")) with false
        by (vm_compute; reflexivity).
      exact Hoptions.
Qed.

Section SaveAndLoad.
Context {E : Engine} {H : Host}.

(** X16: a [saveState] that returns false leaves the storage as it
    was.  One that returns true was given a valid state and has written the
    serialization of the time-stamped state, which is valid and within the
    size limit; if the storage returns that text and parsing it gives the
    state back, [loadState] returns the time-stamped state. *)
Theorem saveState_then_loadState :
  forall (store store' : Storage) (state : jsval) (now : jsstring) (saved : bool),
    StateManager.saveState store state now = (saved, store') ->
    (saved = false -> store' = store)
    /\ (saved = true ->
        exists s,
          let stamped := StateManager.stateWithTimestamp s now in
          let text := JSON_stringify stamped in
          state = Some s
          /\ StateManager.validateState state = true
          /\ StateManager.validateState (Some stamped) = true
          /\ (N.of_nat (List.length text) <= StateManager.maxStorageSize)%N
          /\ setItem store StateManager.storageKey text = Done store'
          /\ (getItem store' StateManager.storageKey = Done (Some text) ->
              text <> [] ->
              JSON_parse text = ParseOk stamped ->
              StateManager.loadState store' = (Some stamped, store'))).
Proof.
  intros store store' state now saved Hsave.
  unfold StateManager.saveState in Hsave.
  destruct (StateManager.validateState state) eqn:Hvalid; cbn [negb] in Hsave.
  - destruct state as [s|]; [|discriminate Hvalid].
    cbv zeta in Hsave.
    destruct (StateManager.maxStorageSize
              <? N.of_nat (List.length
                             (JSON_stringify (StateManager.stateWithTimestamp s now))))%N
      eqn:Hsize.
    + injection Hsave as <- <-. split; [reflexivity | discriminate].
    + destruct (setItem store StateManager.storageKey
                  (JSON_stringify (StateManager.stateWithTimestamp s now)))
        as [written|] eqn:Hset.
      * injection Hsave as <- <-. split; [discriminate|]. intros _.
        exists s. cbv zeta.
        assert (Hstamped : StateManager.validateState
                             (Some (StateManager.stateWithTimestamp s now)) = true).
        { destruct (validateState_object _ Hvalid)
            as (props & text & Hs & Hinput & Hoptions).
          injection Hs as ->.
          unfold StateManager.stateWithTimestamp. rewrite own_entries_object.
          apply (validateState_of_object _ text); rewrite lookup_assign.
          - replace (JSString.eqb (u "lastUpdated") (u "jsonInput")) with false
              by (vm_compute; reflexivity).
            exact Hinput.
          - replace (JSString.eqb (u "lastUpdated") (u "tableOptions")) with false
              by (vm_compute; reflexivity).
            exact Hoptions. }
        repeat split; try assumption.
        -- now apply N.ltb_ge.
        -- intros Hget Hne Hparse. unfold StateManager.loadState.
           rewrite Hget.
           destruct (JSON_stringify (StateManager.stateWithTimestamp s now))
             as [|c text] eqn:Htext; [congruence|].
           cbn [JSText.isEmpty]. rewrite Hparse, Hstamped. reflexivity.
      * injection Hsave as <- <-. split; [reflexivity | discriminate].
  - injection Hsave as <- <-. split; [reflexivity | discriminate].
Qed.

End SaveAndLoad.

(** X16 on the current state of the input [[1]], saved to an empty reference storage. *)
Lemma saveState_then_loadState_witness :
  @StateManager.loadState Reference.engine ReferenceHost.host
    (snd (@StateManager.saveState ReferenceHost.host []
            (Some (JSONTableViewer.getCurrentState (u "[1]")))
            (u "2024-01-01T00:00:00.000Z")))
  = (Some (StateManager.stateWithTimestamp
             (JSONTableViewer.getCurrentState (u "[1]"))
             (u "2024-01-01T00:00:00.000Z")),
     snd (@StateManager.saveState ReferenceHost.host []
            (Some (JSONTableViewer.getCurrentState (u "[1]")))
            (u "2024-01-01T00:00:00.000Z"))).
Proof.
  destruct (proj2 (@saveState_then_loadState Reference.engine ReferenceHost.host
                     []
                     (snd (@StateManager.saveState ReferenceHost.host []
                             (Some (JSONTableViewer.getCurrentState (u "[1]")))
                             (u "2024-01-01T00:00:00.000Z")))
                     (Some (JSONTableViewer.getCurrentState (u "[1]")))
                     (u "2024-01-01T00:00:00.000Z") true
                     ltac:(vm_compute; reflexivity)) eq_refl)
    as (s & Hs & _ & _ & _ & _ & Hload).
  injection Hs as <-. apply Hload.
  - vm_compute. reflexivity.
  - vm_compute. discriminate.
  - vm_compute. reflexivity.
Defined.

(** X15 on the current state of the input [[1]]. *)
Lemma validateState_of_states_witness :
  exists props text,
    Some (JSONTableViewer.getCurrentState (u "[1]")) = Some (VObj props)
    /\ get_own (VObj props) (u "jsonInput") = Some (VStr text)
    /\ StateManager.validateState
         (Some (StateManager.stateWithTimestamp (VObj props)
                  (u "2024-01-01T00:00:00.000Z"))) = true.
Proof.
  apply (proj2 (proj2 (validateState_of_states
                         (Some (JSONTableViewer.getCurrentState (u "[1]")))
                         (u "2024-01-01T00:00:00.000Z") []))).
  vm_compute. reflexivity.
Defined.

(* ===================================================================== *)
(** ** File names *)
(* ===================================================================== *)

(* ---- files ---- *)
Lemma last_app_singleton {A : Type} (l : list A) (x d : A) : last (l ++ [x]) d = x.
Proof.
  induction l as [|a l IH]; [reflexivity|].
  cbn [app]. destruct (l ++ [x]) eqn:Heq; [destruct l; discriminate Heq|].
  cbn [last]. exact IH.
Qed.

Lemma endsWith_spec (s suffix : jsstring) :
  JSText.endsWith s suffix = true <-> exists pre, s = pre ++ suffix.
Proof.
  unfold JSText.endsWith. rewrite startsWith_spec. split.
  - intros (post & Hrev). exists (rev post).
    rewrite <- (rev_involutive s), Hrev, rev_app_distr. now rewrite rev_involutive.
  - intros (pre & ->). exists (rev pre). apply rev_app_distr.
Qed.

(** The segment after the last dot of a name that ends with a dot and an
    extension without dots is that extension. *)
Lemma pop_split_extension (s extension : jsstring) :
  ~ In 46%N extension ->
  JSText.endsWith s (46%N :: extension) = true ->
  JSText.pop (JSText.split 46 s) = extension.
Proof.
  intros Hdot Hends. apply endsWith_spec in Hends. destruct Hends as (pre & ->).
  rewrite split_app_separator by exact Hdot.
  unfold JSText.pop. apply last_app_singleton.
Qed.

Section Files.
Context {E : Engine}.
Variables processJSONL processGeoJSON : jsstring -> jsstring.

Lemma processFileContent_extensions (content fileName : jsstring) :
  let lowerName := toLowerCase fileName in
  let processed :=
    JSONTableViewer.processFileContent processJSONL processGeoJSON
      content fileName in
  (JSText.endsWith lowerName (u ".jsonl") = true -> processed = processJSONL content)
  /\ (JSText.endsWith lowerName (u ".ndjson") = true ->
      processed = processJSONL content)
  /\ (JSText.endsWith lowerName (u ".geojson") = true ->
      processed = processGeoJSON content)
  /\ (JSText.endsWith lowerName (u ".json") = true -> processed = content)
  /\ (JSText.endsWith lowerName (u ".txt") = true -> processed = content).
Proof.
  intros lowerName processed. subst processed.
  unfold JSONTableViewer.processFileContent. cbv zeta. fold lowerName.
  assert (Hext : forall extension,
             existsb (N.eqb 46) extension = false ->
             JSText.endsWith lowerName (46%N :: extension) = true ->
             JSText.pop (JSText.split 46 lowerName) = extension).
  { intros extension Hdot. apply pop_split_extension.
    intro Hin. assert (Hex : existsb (N.eqb 46) extension = true).
    { apply existsb_exists. exists 46%N. split; [exact Hin | apply N.eqb_refl]. }
    congruence. }
  repeat split; intro Hends.
  - rewrite (Hext (u "jsonl")); [reflexivity | reflexivity | exact Hends].
  - rewrite (Hext (u "ndjson")); [reflexivity | reflexivity | exact Hends].
  - rewrite (Hext (u "geojson")); [reflexivity | reflexivity | exact Hends].
  - rewrite (Hext (u "json")); [reflexivity | reflexivity | exact Hends].
  - rewrite (Hext (u "txt")); [reflexivity | reflexivity | exact Hends].
Qed.

(** X17: a file name that ends, ignoring case, with one of the
    extensions [isValidFileType] accepts is processed by that extension:
    [.jsonl] and [.ndjson] by [processJSONL], [.geojson] by
    [processGeoJSON], [.json] and [.txt] unchanged.  A name that is just
    [jsonl], without a dot, is processed as JSON lines as well. *)
Theorem processFileContent_by_extension :
  forall (file : JSONTableViewer.File) (content : jsstring),
    let lowerName := toLowerCase (JSONTableViewer.name file) in
    let processed :=
      JSONTableViewer.processFileContent processJSONL processGeoJSON
        content (JSONTableViewer.name file) in
    (JSONTableViewer.isValidFileType file = true ->
     existsb (JSString.eqb (JSONTableViewer.type file)) JSONTableViewer.validTypes
     = false ->
     (processed = processJSONL content
      /\ (JSText.endsWith lowerName (u ".jsonl") = true
          \/ JSText.endsWith lowerName (u ".ndjson") = true))
     \/ (processed = processGeoJSON content
         /\ JSText.endsWith lowerName (u ".geojson") = true)
     \/ (processed = content
         /\ (JSText.endsWith lowerName (u ".json") = true
             \/ JSText.endsWith lowerName (u ".txt") = true)))
    /\ (lowerName = u "jsonl" ->
        processed = processJSONL content
        /\ existsb (fun ext => JSText.endsWith lowerName ext)
                   JSONTableViewer.validExtensions = false).
Proof.
  intros file content lowerName processed.
  destruct (processFileContent_extensions content (JSONTableViewer.name file))
    as (Hjsonl & Hndjson & Hgeojson & Hjson & Htxt).
  fold lowerName in Hjsonl, Hndjson, Hgeojson, Hjson, Htxt.
  fold processed in Hjsonl, Hndjson, Hgeojson, Hjson, Htxt.
  split.
  - intros Hvalid Htype. unfold JSONTableViewer.isValidFileType in Hvalid.
    rewrite Htype in Hvalid. cbv zeta in Hvalid. fold lowerName in Hvalid.
    unfold JSONTableViewer.validExtensions in Hvalid. cbn [existsb] in Hvalid.
    destruct (JSText.endsWith lowerName (u ".json")) eqn:H1;
      [right; right; split; [now apply Hjson | now left]|].
    destruct (JSText.endsWith lowerName (u ".jsonl")) eqn:H2;
      [left; split; [now apply Hjsonl | now left]|].
    destruct (JSText.endsWith lowerName (u ".geojson")) eqn:H3;
      [right; left; split; [now apply Hgeojson | reflexivity]|].
    destruct (JSText.endsWith lowerName (u ".ndjson")) eqn:H4;
      [left; split; [now apply Hndjson | now right]|].
    destruct (JSText.endsWith lowerName (u ".txt")) eqn:H5;
      [right; right; split; [now apply Htxt | now right]|].
    discriminate Hvalid.
  - intro Hname. subst processed.
    unfold JSONTableViewer.processFileContent. cbv zeta. fold lowerName.
    rewrite Hname. split; vm_compute; reflexivity.
Qed.

End Files.

(** X17 on the file name [Data.JSONL]. *)
Lemma processFileContent_by_extension_witness :
  (@JSONTableViewer.processFileContent Reference.engine
     (fun content => u "[" ++ content ++ u "]") (fun content => content)
     (u "{}") (u "Data.JSONL")
   = u "[" ++ u "{}" ++ u "]"
   /\ (JSText.endsWith (u "data.jsonl") (u ".jsonl") = true
       \/ JSText.endsWith (u "data.jsonl") (u ".ndjson") = true))
  \/ (@JSONTableViewer.processFileContent Reference.engine
        (fun content => u "[" ++ content ++ u "]") (fun content => content)
        (u "{}") (u "Data.JSONL")
      = u "{}"
      /\ JSText.endsWith (u "data.jsonl") (u ".geojson") = true)
  \/ (@JSONTableViewer.processFileContent Reference.engine
        (fun content => u "[" ++ content ++ u "]") (fun content => content)
        (u "{}") (u "Data.JSONL")
      = u "{}"
      /\ (JSText.endsWith (u "data.jsonl") (u ".json") = true
          \/ JSText.endsWith (u "data.jsonl") (u ".txt") = true)).
Proof.
  refine (proj1 (@processFileContent_by_extension Reference.engine
                   (fun content => u "[" ++ content ++ u "]")
                   (fun content => content)
                   {| JSONTableViewer.name := u "Data.JSONL";
                      JSONTableViewer.type := [] |}
                   (u "{}")) _ _).
  - vm_compute. reflexivity.
  - vm_compute. reflexivity.
Defined.

(* ===================================================================== *)
(** ** Rows of objects and headers of tables *)
(* ===================================================================== *)

(* ---- objects whose longest array holds arrays ---- *)
Lemma longestOf_selected (props : list (jsstring * value)) (a : list value) :
  Spec.firstLongest (JSONParser.arrayValues (VObj props)) a ->
  exists a0 rest,
    JSONParser.arrayValues (VObj props) = a0 :: rest
    /\ JSONParser.longestOf a0 rest = a.
Proof.
  intro Ha. destruct (JSONParser.arrayValues (VObj props)) as [|a0 rest] eqn:Harr.
  - destruct Ha as (p & q & Hnil & _). now destruct p.
  - exists a0, rest. split; [reflexivity|].
    eapply firstLongest_unique; [apply longestOf_firstLongest | exact Ha].
Qed.

Section ObjectRows.
Context {E : Engine}.

(** X18: an object whose longest array starts with an array or with
    [null] is not turned into the rows of that array: it is flattened into
    one row when a property value is a plain object, and gives one
    [{key, value}] row per property otherwise. *)
Theorem extractTableData_object_with_nested_arrays :
  forall (props : list (jsstring * value)) (a : list value) (first : value)
    (rest : list value),
    Spec.firstLongest (JSONParser.arrayValues (VObj props)) a ->
    a = first :: rest ->
    isPlainObject first = false ->
    typeofObject first = true ->
    let rows := JSONParser.objectRows (VObj props) in
    JSONParser.extractTableData (VObj props) = Returns rows
    /\ (existsb isPlainObject (map snd props) = true ->
        rows = JSONParser.flattenObjectToTable (VObj props))
    /\ (existsb isPlainObject (map snd props) = false ->
        rows = map (fun entry =>
                      VObj [(u "key", VStr (fst entry)); (u "value", snd entry)])
                   props).
Proof.
  intros props a first rest Ha -> Hobj Htype rows. subst rows.
  destruct (longestOf_selected props _ Ha) as (a0 & others & Harr & Hsel).
  split.
  - unfold JSONParser.extractTableData. rewrite Harr, Hsel. cbv iota beta.
    now rewrite Hobj, Htype.
  - unfold JSONParser.objectRows. cbn [own_values].
    split; intros ->; [reflexivity|]. now rewrite own_entries_object.
Qed.

End ObjectRows.

(** X18 on [{"matrix": [[1], []]}]. *)
Lemma extractTableData_object_with_nested_arrays_witness :
  @JSONParser.extractTableData Reference.engine
    (VObj [(u "matrix", VArr [VArr [VNum (JSNumber.of_Z 1)]; VArr []])])
  = Returns
      (JSONParser.objectRows
         (VObj [(u "matrix", VArr [VArr [VNum (JSNumber.of_Z 1)]; VArr []])])).
Proof.
  refine (proj1 (@extractTableData_object_with_nested_arrays Reference.engine
                   [(u "matrix", VArr [VArr [VNum (JSNumber.of_Z 1)]; VArr []])]
                   [VArr [VNum (JSNumber.of_Z 1)]; VArr []]
                   (VArr [VNum (JSNumber.of_Z 1)]) [VArr []] _ _ _ _)).
  - exists [], []. repeat split; constructor.
  - reflexivity.
  - reflexivity.
  - reflexivity.
Defined.

(* ---- headers of a table of arrays ---- *)
Lemma fold_Set_add_present (keys set : list jsstring) :
  (forall k, In k keys -> In k set) ->
  fold_left TableRenderer.Set_add keys set = set.
Proof.
  induction keys as [|k keys IH]; intro H; [reflexivity|]. cbn [fold_left].
  assert (Hk : TableRenderer.Set_add set k = set).
  { unfold TableRenderer.Set_add.
    destruct (existsb (JSString.eqb k) set) eqn:Hex; [reflexivity|]. exfalso.
    assert (Htrue : existsb (JSString.eqb k) set = true).
    { apply existsb_exists. exists k. split; [apply H; now left | apply eqb_refl]. }
    congruence. }
  rewrite Hk. apply IH. intros k' Hk'. apply H. now right.
Qed.

Lemma NoDup_map_injective {A B : Type} (f : A -> B) (l : list A) :
  (forall x y, f x = f y -> x = y) -> NoDup l -> NoDup (map f l).
Proof.
  intros Hinj Hl. induction Hl as [|x l Hx Hl IH]; cbn [map]; constructor;
    [|exact IH].
  intro Hin. apply in_map_iff in Hin. destruct Hin as (y & Heq & Hy).
  apply Hinj in Heq. now subst y.
Qed.

Lemma createdKeys_NoDup (n : nat) :
  NoDup (u "_rowIndex" :: map JSONParser.columnKey (seq 0 n)).
Proof.
  constructor.
  - intro Hin. apply in_map_iff in Hin. destruct Hin as (i & Hi & _).
    pose proof (columnKey_not_rowIndex i) as Hne. apply eqb_neq in Hne. congruence.
  - apply NoDup_map_injective; [|apply seq_NoDup].
    intros i j. apply columnKey_inj.
Qed.

Lemma headerSetFrom_same_keys (keys : list jsstring) (rows : list value) :
  Forall (fun row => TableRenderer.isObjectRow row = true /\ own_keys row = keys)
         rows ->
  rows <> [] -> NoDup keys ->
  headerSetFrom rows [] = keys.
Proof.
  intros Hrows Hne Hnodup.
  assert (Hrest : forall rs, Forall (fun row => TableRenderer.isObjectRow row = true
                                               /\ own_keys row = keys) rs ->
                             headerSetFrom rs keys = keys).
  { induction rs as [|r rs IH]; intro H; [reflexivity|].
    inversion H as [|? ? [Hobj Hkeys] Hrs]; subst.
    unfold headerSetFrom in *. cbn [fold_left]. rewrite Hobj.
    rewrite fold_Set_add_present by auto. now apply IH. }
  destruct rows as [|row rows]; [congruence|].
  inversion Hrows as [|? ? [Hobj Hkeys] Hrs]; subst.
  unfold headerSetFrom. cbn [fold_left]. rewrite Hobj.
  rewrite (fold_Set_add_fresh _ []) by exact Hnodup. cbn [app].
  now apply Hrest.
Qed.

Lemma sorted_before (l : list jsstring) (a b : jsstring) :
  StronglySorted JSString.lt l -> In a l -> In b l -> JSString.lt a b ->
  before l a b.
Proof.
  intros Hsorted. induction Hsorted as [|x l Hl IH Hx]; intros Ha Hb Hab;
    [destruct Ha|].
  rewrite Forall_forall in Hx.
  destruct Ha as [->|Ha], Hb as [Hb|Hb].
  - subst b. exfalso. revert Hab. apply lt_irrefl.
  - apply before_cons. left. now split.
  - subst b. exfalso. apply (lt_asym a x); [exact Hab | now apply Hx].
  - apply before_cons. right. now apply IH.
Qed.

Lemma paddedRows_keys (n start : nat) (arrays : list (list value)) :
  Forall (fun row =>
            TableRenderer.isObjectRow row = true
            /\ own_keys row
               = u "_rowIndex" :: map JSONParser.columnKey (seq 0 n))
         (mapi_from (Spec.paddedRow n) start arrays).
Proof.
  revert start. induction arrays as [|arr arrays IH]; intro start;
    cbn [mapi_from]; constructor; [|apply IH].
  split; [reflexivity|]. unfold Spec.paddedRow. cbn [own_keys map fst].
  rewrite map_map. reflexivity.
Qed.

Section ArrayHeaders.
Context {E : Engine}.

(** X19: the headers of the table of an array of arrays are
    [_rowIndex] and the column keys in the order of their code units.  Up to
    ten columns that is the order of the columns; with more, [column_10]
    stands before [column_2]. *)
Theorem extractHeaders_of_array_rows :
  forall arrays : list (list value),
    arrays <> [] ->
    let n := Spec.maxLen arrays in
    let created := u "_rowIndex" :: map JSONParser.columnKey (seq 0 n) in
    exists rows,
      JSONParser.extractTableData (VArr (map VArr arrays)) = Returns rows
      /\ TableRenderer.extractHeaders rows = Array_sort JSString.compare created
      /\ (n <= 10 -> TableRenderer.extractHeaders rows = created)
      /\ (10 < n ->
          TableRenderer.extractHeaders rows <> created
          /\ before (TableRenderer.extractHeaders rows)
                    (JSONParser.columnKey 10) (JSONParser.columnKey 2)).
Proof.
  intros arrays Hne n created.
  exists (mapi (Spec.paddedRow n) arrays).
  assert (Hrows : JSONParser.extractTableData (VArr (map VArr arrays))
                  = Returns (mapi (Spec.paddedRow n) arrays)).
  { destruct arrays as [|first rest]; [congruence|].
    cbn [map JSONParser.extractTableData isPlainObject isArray].
    change (VArr first :: map VArr rest) with (map VArr (first :: rest)).
    rewrite mapM_length_arrays. cbn [bind].
    rewrite mapM_ToNumber_lengths. cbn [bind].
    rewrite max_lengths_arrays by discriminate.
    rewrite iterations_of_nat. unfold mapi. rewrite mapi_from_map.
    f_equal. apply mapi_from_ext. intros i arr. apply arrayRow_paddedRow. }
  assert (Hheaders : TableRenderer.extractHeaders (mapi (Spec.paddedRow n) arrays)
                     = Array_sort JSString.compare created).
  { rewrite extractHeaders_fromObjects. f_equal.
    apply headerSetFrom_same_keys.
    - apply paddedRows_keys.
    - destruct arrays; [congruence | discriminate].
    - apply createdKeys_NoDup. }
  split; [exact Hrows|]. split; [exact Hheaders|]. split.
  - intro Hn. rewrite Hheaders. subst created.
    do 11 (destruct n as [|n]; [vm_compute; reflexivity|]). lia.
  - intro Hn.
    pose proof (extractHeaders_strictly_sorted (mapi (Spec.paddedRow n) arrays))
      as Hsorted.
    assert (Hin : forall i, i < n ->
                    In (JSONParser.columnKey i)
                       (TableRenderer.extractHeaders (mapi (Spec.paddedRow n) arrays))).
    { intros i Hi. rewrite Hheaders. apply Array_sort_In. right.
      apply in_map. apply in_seq. lia. }
    assert (Hlt : JSString.lt (JSONParser.columnKey 10) (JSONParser.columnKey 2))
      by (vm_compute; reflexivity).
    assert (Hbefore : before (TableRenderer.extractHeaders
                                (mapi (Spec.paddedRow n) arrays))
                             (JSONParser.columnKey 10) (JSONParser.columnKey 2)).
    { apply sorted_before; [exact Hsorted | apply Hin; lia | apply Hin; lia
                           | exact Hlt]. }
    split; [|exact Hbefore].
    intro Heq. rewrite Heq in Hsorted. subst created.
    do 11 (destruct n as [|n]; [lia|]).
    cbn [seq map] in Hsorted.
    repeat match goal with
           | H : StronglySorted _ (_ :: _) |- _ =>
             apply StronglySorted_inv in H; destruct H as [H ?]
           end.
    match goal with
    | H : Forall (JSString.lt (JSONParser.columnKey 2)) _ |- _ =>
      rewrite Forall_forall in H;
        specialize (H (JSONParser.columnKey 10)
                      ltac:(do 7 right; now left))
    end.
    apply (lt_asym _ _ Hlt). assumption.
Qed.

End ArrayHeaders.

(* ---- headers after sorting and searching ---- *)
Lemma filterM_incl {A : Type} (f : A -> outcome bool) (l l' : list A) :
  filterM f l = Returns l' -> incl l' l.
Proof.
  revert l'. induction l as [|x l IH]; intros l' H; cbn [filterM] in H.
  - injection H as <-. apply incl_refl.
  - destruct (f x) as [keep| |]; try discriminate H. cbn [bind] in H.
    destruct (filterM f l) as [rest| |]; try discriminate H. cbn [bind] in H.
    injection H as <-. specialize (IH rest eq_refl).
    destruct keep.
    + intros y [->|Hy]; [now left | right; now apply IH].
    + intros y Hy. right. now apply IH.
Qed.

Section HeadersAfter.
Context {E : Engine}.

(** X20: the rows [sortTable] renders have the headers of the data,
    and the headers of the rows [searchTable] displays are among the headers
    of the data. *)
Theorem extractHeaders_after_sort_and_search :
  forall (data : list value),
    (forall column direction sorted,
        TableRenderer.sortTable column direction data = Returns (Some sorted) ->
        TableRenderer.extractHeaders sorted = TableRenderer.extractHeaders data)
    /\ (forall searchTerm shown,
          TableRenderer.searchTable searchTerm data = Returns shown ->
          incl (TableRenderer.extractHeaders shown)
               (TableRenderer.extractHeaders data)).
Proof.
  intro data. split.
  - intros column direction sorted H.
    unfold TableRenderer.sortTable in H.
    destruct data as [|row data]; [discriminate H|].
    destruct (Array_sort_comparefn _ (row :: data)) as [sortedData| |] eqn:Hsort;
      try discriminate H.
    cbn [bind] in H. injection H as <-.
    apply Array_sort_rearranges in Hsort.
    apply strictly_sorted_unique; try apply extractHeaders_strictly_sorted.
    intro key. rewrite !extractHeaders_In. unfold Spec.keyOfSomeRow.
    split; intros (r & Hin & Hrest); exists r; split; auto.
    + eapply Permutation_in; [exact Hsort | exact Hin].
    + eapply Permutation_in; [symmetry; exact Hsort | exact Hin].
  - intros searchTerm shown H. unfold TableRenderer.searchTable in H.
    assert (Hincl : incl shown data).
    { destruct (isBlank searchTerm).
      - injection H as <-. apply incl_refl.
      - now apply filterM_incl in H. }
    intros key Hkey. apply extractHeaders_In in Hkey. apply extractHeaders_In.
    destruct Hkey as (r & Hin & Hrest). exists r. split; [now apply Hincl | exact Hrest].
Qed.

End HeadersAfter.

(** X19 on [[[1, 2], [3]]]. *)
Lemma extractHeaders_of_array_rows_witness :
  exists rows,
    @JSONParser.extractTableData Reference.engine
      (VArr (map VArr [[VNum (JSNumber.of_Z 1); VNum (JSNumber.of_Z 2)];
                       [VNum (JSNumber.of_Z 3)]]))
    = Returns rows
    /\ TableRenderer.extractHeaders rows
       = [u "_rowIndex"; u "column_0"; u "column_1"].
Proof.
  destruct (@extractHeaders_of_array_rows Reference.engine
              [[VNum (JSNumber.of_Z 1); VNum (JSNumber.of_Z 2)];
               [VNum (JSNumber.of_Z 3)]]
              ltac:(discriminate))
    as (rows & Hrows & _ & Hfew & _).
  exists rows. split; [exact Hrows|]. apply Hfew. vm_compute. repeat constructor.
Defined.

(** X20 on the three rows of the sort example. *)
Lemma extractHeaders_after_sort_and_search_witness :
  TableRenderer.extractHeaders
    [VObj [(u "n", VNum (JSNumber.of_Z 1))];
     VObj [(u "n", VNum (JSNumber.of_Z 2))];
     VObj [(u "n", VNull)]]
  = TableRenderer.extractHeaders Spec.sortExample.
Proof.
  apply (proj1 (@extractHeaders_after_sort_and_search Reference.engine
                  Spec.sortExample) (u "n") (u "asc")).
  vm_compute. reflexivity.
Defined.

(* ===================================================================== *)
(** ** Extraction twice, and what the state manager accepts *)
(* ===================================================================== *)

(* ---- extraction of extracted rows ---- *)
Section Idempotence.
Context {E : Engine}.

(** X21: the rows [extractTableData] returns are a table of their own:
    extracting from the array of these rows returns the same rows. *)
Theorem extractTableData_idempotent :
  forall (data : value) (rows : list value),
    JSONParser.extractTableData data = Returns rows ->
    JSONParser.extractTableData (VArr rows) = Returns rows.
Proof.
  intros data rows H. destruct rows as [|firstRow rows]; [reflexivity|].
  apply extractTableData_first_row in H.
  cbn [JSONParser.extractTableData]. now rewrite H.
Qed.

End Idempotence.

(** X21 on the rows of [[7, null]]. *)
Lemma extractTableData_idempotent_witness :
  @JSONParser.extractTableData Reference.engine
    (VArr (JSONParser.indexValueRows [VNum (JSNumber.of_Z 7); VNull]))
  = Returns (JSONParser.indexValueRows [VNum (JSNumber.of_Z 7); VNull]).
Proof.
  apply (@extractTableData_idempotent Reference.engine
           (VArr [VNum (JSNumber.of_Z 7); VNull])).
  vm_compute. reflexivity.
Defined.

(* ---- what the state manager accepts ---- *)
Section Accepts.
Context {E : Engine} {H : Host}.

Lemma saveState_refused (store store' : Storage) (state : jsval) (now : jsstring) :
  StateManager.saveState store state now = (false, store') -> store' = store.
Proof.
  unfold StateManager.saveState.
  destruct (negb (StateManager.validateState state)); [congruence|].
  destruct state as [s|]; [|congruence]. cbv zeta.
  destruct (_ <? _)%N; [congruence|].
  destruct (setItem store StateManager.storageKey _); congruence.
Qed.

(** X22: [loadState] returns only a state that passes
    [validateState], an object whose [jsonInput] is a string, parsed from
    the stored text, and leaves the storage as it was.  [importState]
    returns true only for a text that parses to a valid state, after writing
    its time-stamped serialization, and leaves the storage as it was when it
    returns false. *)
Theorem loadState_importState_accept_valid_states :
  forall (store store' : Storage),
    (forall state,
        StateManager.loadState store = (Some state, store') ->
        store' = store
        /\ StateManager.validateState (Some state) = true
        /\ (exists text,
               getItem store StateManager.storageKey = Done (Some text)
               /\ JSON_parse text = ParseOk state)
        /\ exists props jsonInput,
             state = VObj props
             /\ get_own state (u "jsonInput") = Some (VStr jsonInput))
    /\ (forall stateJson now,
          StateManager.importState store stateJson now = (true, store') ->
          exists state,
            JSON_parse stateJson = ParseOk state
            /\ StateManager.validateState (Some state) = true
            /\ setItem store StateManager.storageKey
                 (JSON_stringify (StateManager.stateWithTimestamp state now))
               = Done store')
    /\ (forall stateJson now,
          StateManager.importState store stateJson now = (false, store') ->
          store' = store).
Proof.
  intros store store'. split; [|split].
  - intros state Hload. unfold StateManager.loadState in Hload.
    destruct (getItem store StateManager.storageKey) as [[text|]|] eqn:Hget;
      try discriminate Hload.
    destruct (JSText.isEmpty text); [discriminate Hload|].
    destruct (JSON_parse text) as [parsed|message] eqn:Hparse;
      [|discriminate Hload].
    destruct (StateManager.validateState (Some parsed)) eqn:Hvalid;
      cbn [negb] in Hload; [|discriminate Hload].
    injection Hload as <- <-. split; [reflexivity|]. split; [exact Hvalid|].
    split; [now exists text|].
    destruct (validateState_object _ Hvalid) as (props & jsonInput & Hs & Hin & _).
    injection Hs as ->. now exists props, jsonInput.
  - intros stateJson now Himport. unfold StateManager.importState in Himport.
    destruct (JSON_parse stateJson) as [state|message]; [|discriminate Himport].
    destruct (StateManager.validateState (Some state)) eqn:Hvalid;
      cbn [negb] in Himport; [|discriminate Himport].
    exists state. split; [reflexivity|]. split; [exact Hvalid|].
    unfold StateManager.saveState in Himport. rewrite Hvalid in Himport.
    cbn [negb] in Himport. cbv zeta in Himport.
    destruct (_ <? _)%N; [discriminate Himport|].
    destruct (setItem store StateManager.storageKey _) as [written|];
      [|discriminate Himport].
    now injection Himport as <-.
  - intros stateJson now Himport. unfold StateManager.importState in Himport.
    destruct (JSON_parse stateJson) as [state|message]; [|congruence].
    destruct (negb (StateManager.validateState (Some state))); [congruence|].
    now apply saveState_refused in Himport.
Qed.

End Accepts.

(** X22 on a reference storage that holds the current state of the input [[1]]. *)
Lemma loadState_importState_accept_valid_states_witness :
  exists props jsonInput,
    JSONTableViewer.getCurrentState (u "[1]") = VObj props
    /\ get_own (JSONTableViewer.getCurrentState (u "[1]")) (u "jsonInput")
       = Some (VStr jsonInput).
Proof.
  refine (proj2 (proj2 (proj2
    (proj1 (@loadState_importState_accept_valid_states
              Reference.engine ReferenceHost.host
              [(StateManager.storageKey,
                ReferenceHost.stringify (JSONTableViewer.getCurrentState (u "[1]")))]
              [(StateManager.storageKey,
                ReferenceHost.stringify (JSONTableViewer.getCurrentState (u "[1]")))])
           (JSONTableViewer.getCurrentState (u "[1]")) _)))).
  vm_compute. reflexivity.
Defined.

(* ===================================================================== *)
(** ** From the parser to the renderer *)
(* ===================================================================== *)

Section Pipeline.
Context {E : Engine}.

(** X23: the rows of a result of [parseJSON] with [success] true
    and no error are as many as [rowCount] says, and [analyzeJSONStructure]
    tags them [array_of_objects], or [empty] when there is no row: none of
    the other five tags occurs for the rows the parser hands to the
    renderer. *)
Theorem analyzeJSONStructure_of_parsed_rows :
  forall (jsonString : jsstring) (result : JSONParser.ParseResult),
    JSONParser.parseJSON jsonString = Returns result ->
    JSONParser.success result = true ->
    JSONParser.error result = None ->
    exists rows,
      JSONParser.data result = VArr rows
      /\ JSONParser.rowCount result = List.length rows
      /\ Forall (fun tag =>
                   TableRenderer.type (TableRenderer.analyzeJSONStructure rows)
                   <> tag)
                [TableRenderer.unknown; TableRenderer.array_of_arrays;
                 TableRenderer.array_of_primitives;
                 TableRenderer.object_with_arrays; TableRenderer.nested_object]
      /\ (TableRenderer.type (TableRenderer.analyzeJSONStructure rows)
          = TableRenderer.empty <-> rows = []).
Proof.
  intros jsonString result Hresult Hsuccess Herror.
  unfold JSONParser.parseJSON in Hresult.
  destruct (isBlank jsonString); [injection Hresult as <-; discriminate Hsuccess|].
  destruct (JSON_parse jsonString) as [parsedData|message];
    [|injection Hresult as <-; discriminate Hsuccess].
  destruct (JSONParser.extractTableData parsedData) as [rows|message|] eqn:Hrows;
    [|injection Hresult as <-; discriminate Herror | discriminate Hresult].
  destruct rows as [|firstRow rows].
  - injection Hresult as <-. exists []. cbn.
    split; [reflexivity|]. split; [reflexivity|].
    split; [repeat constructor; discriminate | tauto].
  - apply extractTableData_first_row in Hrows.
    destruct firstRow; try discriminate Hrows.
    cbn [Object_keys bind] in Hresult. injection Hresult as <-.
    eexists. split; [reflexivity|]. split; [reflexivity|].
    cbn [TableRenderer.analyzeJSONStructure isPlainObject TableRenderer.type].
    split; [repeat constructor; discriminate|].
    split; discriminate.
Qed.

End Pipeline.

(** X23 on the text [[{"a":1},{"b":2}]], with the reference engine. *)
Lemma analyzeJSONStructure_of_parsed_rows_witness :
  exists rows,
    VArr Spec.raggedRows = VArr rows
    /\ List.length Spec.raggedRows = List.length rows
    /\ Forall (fun tag =>
                 TableRenderer.type (TableRenderer.analyzeJSONStructure rows)
                 <> tag)
              [TableRenderer.unknown; TableRenderer.array_of_arrays;
               TableRenderer.array_of_primitives;
               TableRenderer.object_with_arrays; TableRenderer.nested_object]
    /\ (TableRenderer.type (TableRenderer.analyzeJSONStructure rows)
        = TableRenderer.empty <-> rows = []).
Proof.
  refine (@analyzeJSONStructure_of_parsed_rows Reference.engine Spec.raggedText
            {| JSONParser.success := true;
               JSONParser.data := VArr Spec.raggedRows;
               JSONParser.error := None;
               JSONParser.type := Some (u "array");
               JSONParser.rowCount := List.length Spec.raggedRows;
               JSONParser.columnCount := 1 |} _ _ _).
  - vm_compute. reflexivity.
  - reflexivity.
  - reflexivity.
Defined.

